(** * DataJunction: permission verifier and query builder

    A shallow embedding of
      - [src/datajunction/auth/verifier.py] (identifier qualification and
        permission verification over the generic parse tree), and
      - [src/datajunction/sql/build.py] (filters, dimension validation,
        database resolution, metric substitution).

    The parse tree produced by [sqloxide.parse_sql] is a nested structure of
    Python dicts, lists and atoms; it is modelled by [json].  Python
    exceptions are modelled by the [Raise] outcome of [result].  In-place
    mutation of the tree is modelled by reading the nodes a search yields,
    running the loop body over them in order, and writing the new values back
    at the positions the search visited. *)

From Stdlib Require Import ZArith QArith Qcanon Ascii String.
From stdpp Require Import base option list strings gmap sorting pretty.

#[local] Set Warnings "-clear-no-such-hyp".

Open Scope string_scope.
Open Scope list_scope.
Open Scope Z_scope.

(** ** The generic parse tree *)

(** Values of the tree [sqloxide.parse_sql] returns.  A dict keeps its
    entries in insertion order, as Python dicts do. *)
#[local] Unset Elimination Schemes.
Inductive json : Type :=
| JNone
| JBool (b : bool)
| JInt (n : Z)
| JStr (s : string)
| JList (items : list json)
| JDict (entries : list (string * json)).
#[local] Set Elimination Schemes.

(** ** Exceptions *)

Inductive error : Type :=
| KeyError (key : string)
| TypeError
| ValueError
| IndexError
| UnboundLocalError
| NotImplementedError
| External (what : string)              (* raised by a collaborator *)
| ColumnNotFound (id_ : json)           (* "Column {id_} not found in any table" *)
| ColumnAmbiguous (id_ : json)          (* "Column {id_} present is ambiguous" *)
| Exception_ (message : string).        (* raise Exception(message) *)

Inductive result (A : Type) : Type :=
| Ok (a : A)
| Raise (e : error).
Arguments Ok {A} a.
Arguments Raise {A} e.

#[global] Instance result_ret : MRet result := λ A a, Ok a.
#[global] Instance result_bind : MBind result := λ A B f m,
  match m with Ok a => f a | Raise e => Raise e end.

(** [for x in xs: acc = body(acc, x)], stopping at the first exception. *)
Fixpoint for_each {A S : Type} (body : S → A → result S) (xs : list A) (acc : S)
  : result S :=
  match xs with
  | [] => Ok acc
  | x :: xs => acc ← body acc x; for_each body xs acc
  end.

(** A loop that mutates the object [x] it visits and a variable [s] it
    carries: the mutated objects and the final [s]. *)
Fixpoint for_state {A B S : Type} (body : A → S → result (B * S)) (xs : list A)
  (s : S) : result (list B * S) :=
  match xs with
  | [] => Ok ([], s)
  | x :: xs =>
      '(y, s) ← body x s;
      '(ys, s) ← for_state body xs s;
      Ok (y :: ys, s)
  end.

(** [[body(x) for x in xs]], stopping at the first exception. *)
Fixpoint for_list {A B : Type} (body : A → result B) (xs : list A)
  : result (list B) :=
  match xs with
  | [] => Ok []
  | x :: xs => y ← body x; ys ← for_list body xs; Ok (y :: ys)
  end.

(** [all(body(x) for x in xs)]: the generator is consumed up to the first
    [False]. *)
Fixpoint py_all {A : Type} (body : A → result bool) (xs : list A) : result bool :=
  match xs with
  | [] => Ok true
  | x :: xs => b ← body x; if b : bool then py_all body xs else Ok false
  end.

(** [any(body(x) for x in xs)]: the generator is consumed up to the first
    [True]. *)
Fixpoint py_any {A : Type} (body : A → result bool) (xs : list A) : result bool :=
  match xs with
  | [] => Ok false
  | x :: xs => b ← body x; if b : bool then Ok true else py_any body xs
  end.

(** ** Python operations on tree values *)

(** [d.get(key)] on the entries of a dict. *)
Fixpoint dict_get {V : Type} (key : string) (entries : list (string * V)) : option V :=
  match entries with
  | [] => None
  | (k, v) :: entries => if String.eqb k key then Some v else dict_get key entries
  end.

(** [d[key] = v]: an existing key keeps its position, a new key goes last. *)
Fixpoint dict_set {V : Type} (key : string) (v : V) (entries : list (string * V))
  : list (string * V) :=
  match entries with
  | [] => [(key, v)]
  | (k, w) :: entries =>
      if String.eqb k key then (k, v) :: entries else (k, w) :: dict_set key v entries
  end.

(** [d.pop(key)] for a key that is present. *)
Fixpoint dict_pop {V : Type} (key : string) (entries : list (string * V))
  : list (string * V) :=
  match entries with
  | [] => []
  | (k, w) :: entries =>
      if String.eqb k key then entries else (k, w) :: dict_pop key entries
  end.

(** Python's [==] on tree values: [True == 1], lists compare element-wise,
    dicts compare as maps (the order of the entries is irrelevant). *)
Fixpoint py_eqb (a b : json) {struct a} : bool :=
  match a, b with
  | JNone, JNone => true
  | JBool x, JBool y => Bool.eqb x y
  | JBool x, JInt n | JInt n, JBool x => n =? (if x then 1 else 0)
  | JInt n, JInt m => n =? m
  | JStr s, JStr t => String.eqb s t
  | JList xs, JList ys =>
      (fix go (xs ys : list json) {struct xs} : bool :=
         match xs, ys with
         | [], [] => true
         | x :: xs, y :: ys => py_eqb x y && go xs ys
         | _, _ => false
         end) xs ys
  | JDict d, JDict e =>
      (length d =? length e)%nat &&
      (fix go (d : list (string * json)) {struct d} : bool :=
         match d with
         | [] => true
         | (k, v) :: d =>
             match dict_get k e with
             | Some w => py_eqb v w && go d
             | None => false
             end
         end) d
  | _, _ => false
  end.

(** [element[key]] with a string key. *)
Definition getitem (element : json) (key : string) : result json :=
  match element with
  | JDict entries =>
      match dict_get key entries with
      | Some v => Ok v
      | None => Raise (KeyError key)
      end
  | _ => Raise TypeError
  end.

(** [element[key] = v] with a string key. *)
Definition setitem (element : json) (key : string) (v : json) : result json :=
  match element with
  | JDict entries => Ok (JDict (dict_set key v entries))
  | _ => Raise TypeError
  end.

(** The characters of a string, each as a one-character string. *)
Fixpoint chars (s : string) : list json :=
  match s with
  | EmptyString => []
  | String c s => JStr (String c EmptyString) :: chars s
  end.

(** What [for x in element] iterates over. *)
Definition py_iter (element : json) : result (list json) :=
  match element with
  | JList items => Ok items
  | JStr s => Ok (chars s)
  | JDict entries => Ok (map (λ kv, JStr kv.1) entries)
  | _ => Raise TypeError
  end.

(** Python truthiness. *)
Definition truthy (v : json) : bool :=
  match v with
  | JNone => false
  | JBool b => b
  | JInt n => negb (n =? 0)
  | JStr s => negb (String.eqb s "")
  | JList items => match items with [] => false | _ => true end
  | JDict entries => match entries with [] => false | _ => true end
  end.

(** [l[:k]] for a possibly negative [k]. *)
Definition slice_to {A : Type} (l : list A) (k : Z) : list A :=
  if 0 <=? k then take (Z.to_nat k) l
  else take (Z.to_nat (Z.of_nat (length l) + k)) l.

(** ** Parse-tree search (datajunction.sql.parse) *)

(** Modelled from the spec: [find_nodes_by_key] of [datajunction/sql/parse.py],
    which is not among the sources.  The spec describes it as a "generic
    recursive search over the opaque parse tree (find all sub-nodes matching
    a key, optionally paired with their parent for in-place rewriting)".  The
    search walks lists and dicts in order and yields the value stored under
    [target]; a yielded value is handed to the caller and not searched
    again. *)
Fixpoint find_nodes_by_key (element : json) (target : string) : list json :=
  match element with
  | JList items => flat_map (λ child, find_nodes_by_key child target) items
  | JDict entries =>
      flat_map (λ kv, match kv with
                      | (key, value) =>
                          if String.eqb key target then [value]
                          else find_nodes_by_key value target
                      end) entries
  | _ => []
  end.

(** Modelled from the spec: [find_nodes_by_key_with_parent] of
    [datajunction/sql/parse.py], the same search yielding each value together
    with the dict that holds it. *)
Fixpoint find_nodes_by_key_with_parent (element : json) (target : string)
  : list (json * json) :=
  match element with
  | JList items => flat_map (λ child, find_nodes_by_key_with_parent child target) items
  | JDict entries =>
      flat_map (λ kv, match kv with
                      | (key, value) =>
                          if String.eqb key target then [(value, element)]
                          else find_nodes_by_key_with_parent value target
                      end) entries
  | _ => []
  end.

(** Writing back the nodes a search yielded.  A loop
    [for node in find_nodes_by_key(element, target): <mutate node>] leaves
    [element] with the mutated nodes at the places the search visited:
    [put_nodes_by_key element target news] stores the i-th of [news] where
    the search found its i-th node, and returns the values it did not use. *)
Fixpoint put_nodes_by_key (element : json) (target : string) (news : list json)
  {struct element} : json * list json :=
  match element with
  | JList items =>
      let '(items, news) :=
        (fix go (items : list json) (news : list json) {struct items} :=
           match items with
           | [] => ([], news)
           | child :: items =>
               let '(child, news) := put_nodes_by_key child target news in
               let '(items, news) := go items news in
               (child :: items, news)
           end) items news in
      (JList items, news)
  | JDict entries =>
      let '(entries, news) :=
        (fix go (entries : list (string * json)) (news : list json) {struct entries} :=
           match entries with
           | [] => ([], news)
           | (key, value) :: entries =>
               let '(value, news) :=
                 if String.eqb key target then
                   match news with
                   | new :: news => (new, news)
                   | [] => (value, [])
                   end
                 else put_nodes_by_key value target news in
               let '(entries, news) := go entries news in
               ((key, value) :: entries, news)
           end) entries news in
      (JDict entries, news)
  | _ => (element, news)
  end.

(** The loop
    [for node, parent in list(find_nodes_by_key_with_parent(element, target)):
       parent[newkey] = <new>; parent.pop(target)]
    with the i-th of [news] as the value stored for the i-th pair.  The
    search is complete before the first mutation: the entries of a parent
    are visited as they were, and the parent is edited afterwards. *)
Fixpoint retag_nodes_by_key (element : json) (target newkey : string)
  (news : list json) {struct element} : json * list json :=
  match element with
  | JList items =>
      let '(items, news) :=
        (fix go (items : list json) (news : list json) {struct items} :=
           match items with
           | [] => ([], news)
           | child :: items =>
               let '(child, news) := retag_nodes_by_key child target newkey news in
               let '(items, news) := go items news in
               (child :: items, news)
           end) items news in
      (JList items, news)
  | JDict entries =>
      let '(entries, edit, news) :=
        (fix go (entries : list (string * json)) (news : list json) {struct entries} :=
           match entries with
           | [] => ([], None, news)
           | (key, value) :: entries =>
               if String.eqb key target then
                 match news with
                 | new :: news =>
                     let '(entries, edit, news) := go entries news in
                     ((key, value) :: entries,
                      match edit with Some e => Some e | None => Some new end, news)
                 | [] =>
                     let '(entries, edit, news) := go entries [] in
                     ((key, value) :: entries, edit, news)
                 end
               else
                 let '(value, news) := retag_nodes_by_key value target newkey news in
                 let '(entries, edit, news) := go entries news in
                 ((key, value) :: entries, edit, news)
           end) entries news in
      match edit with
      | Some new => (JDict (dict_pop target (dict_set newkey new entries)), news)
      | None => (JDict entries, news)
      end
  | _ => (element, news)
  end.

(** ** Permission verification (datajunction/auth/verifier.py) *)

Definition NULL : string := "null".

(** The loop [for left, right in zip(allowed_table, table["name"])] of
    [matches_permission]: the parts of the allowed table as the loop leaves
    them, and whether the loop ran to its [else] branch (no [break]). *)
Fixpoint compare_parts (lefts rights : list json) : result (list json * bool) :=
  match lefts, rights with
  | left_ :: lefts, right_ :: rights =>
      value ← getitem left_ "value";
      left_ ← (if py_eqb value (JStr NULL) then setitem left_ "value" JNone
               else Ok left_);
      if negb (py_eqb left_ right_) then Ok (left_ :: lefts, false)
      else
        '(lefts, completed) ← compare_parts lefts rights;
        Ok (left_ :: lefts, completed)
  | _, _ => Ok (lefts, true)
  end.

(** One round of [for allowed_table in allowed_tables] for the query table
    name [name]. *)
Definition compare_table (allowed_table name : json) : result (json * bool) :=
  lefts ← py_iter allowed_table;
  rights ← py_iter name;
  '(lefts, completed) ← compare_parts lefts rights;
  Ok (match allowed_table with JList _ => JList lefts | _ => allowed_table end,
      completed).

(** [for allowed_table in allowed_tables: ...] for one query table: the
    allowed tables as the loop leaves them and the final [match] flag. *)
Fixpoint match_table (table : json) (allowed_tables : list json)
  : result (list json * bool) :=
  match allowed_tables with
  | [] => Ok ([], false)
  | allowed_table :: allowed_tables =>
      name ← getitem table "name";
      '(allowed_table, completed) ← compare_table allowed_table name;
      '(allowed_tables, matched) ← match_table table allowed_tables;
      Ok (allowed_table :: allowed_tables, completed || matched)
  end.

(** [for table in find_nodes_by_key(query, "Table"): ...] *)
Fixpoint match_tables (tables allowed_tables : list json) : result bool :=
  match tables with
  | [] => Ok true
  | table :: tables =>
      '(allowed_tables, matched) ← match_table table allowed_tables;
      if matched : bool then match_tables tables allowed_tables else Ok false
  end.

(** [matches_permission].  The source ends with a loop over the projections
    of the query that has no body; only the table check decides the
    result. *)
Definition matches_permission (query permission : json) : result bool :=
  allowed_tables ←
    for_list (λ table, getitem table "name") (find_nodes_by_key permission "Table");
  match_tables (find_nodes_by_key query "Table") allowed_tables.

(** [sqloxide.parse_sql(text, dialect="ansi")]: the external grammar parser,
    which returns the list of the statements of [text] or raises. *)
Definition Parser : Type := string → result (list json).

(** [verify_statement] *)
Definition verify_statement (parse_sql : Parser) (query : json)
  (permissions : list string) : result bool :=
  py_all (λ permission,
            statements ← parse_sql permission;
            py_any (λ permission_statement,
                      matches_permission query permission_statement) statements)
         permissions.

(** ** Qualification (prepare_tree) *)

(** The schema-introspection collaborator:
    [inspect(engine).get_columns(table, schema=schema)], projected to the
    column names. *)
Definition Engine : Type := json → json → result (list json).

(** [get_column_names] *)
Definition get_column_names (engine : Engine) (fq_table : json) : result (list json) :=
  name ← getitem fq_table "name";
  parts ← py_iter name;
  values ← for_list (λ part, getitem part "value") parts;
  match rev values with
  | table :: schema :: _ => engine table schema
  | _ => Raise ValueError
  end.

Definition json_of_option (value : option string) : json :=
  match value with Some s => JStr s | None => JNone end.

(** [prefix] of [prepare_tree] *)
Definition make_prefix (database : string) (catalog schema : option string)
  : list json :=
  map (λ value, JDict [("quote_style", JNone); ("value", value)])
      [JStr database; json_of_option catalog; json_of_option schema].

Fixpoint join (sep : string) (parts : list string) : string :=
  match parts with
  | [] => ""
  | [part] => part
  | part :: parts => part +:+ sep +:+ join sep parts
  end.

(** [".".join(part["value"] or NULL for part in name)] *)
Definition table_key (name : list json) : result string :=
  values ← for_list (λ part, value ← getitem part "value";
                              Ok (if truthy value then value else JStr NULL)) name;
  strings ← for_list (λ value, match value with
                               | JStr s => Ok s
                               | _ => Raise TypeError
                               end) values;
  Ok (join "." strings).

(** The two dicts the first loop of [prepare_tree] fills. *)
Record scope : Type := Scope {
  columns : list (string * list json);
  tables : list (string * json)
}.

(** Body of [for table in find_nodes_by_key(tree, "Table")]. *)
Definition qualify_table (engine : Engine) (prefix : list json) (table : json)
  (sc : scope) : result (json * scope) :=
  name ← getitem table "name";
  match name with
  | JList parts =>
      let qualified := slice_to prefix (4 - Z.of_nat (length parts)) ++ parts in
      table ← setitem table "name" (JList qualified);
      key ← table_key qualified;
      names ← get_column_names engine table;
      Ok (table, Scope (dict_set key names (columns sc)) (dict_set key table (tables sc)))
  | _ => Raise TypeError
  end.

(** Whether a value can be the key of a dict. *)
Definition hashable (v : json) : bool :=
  match v with JList _ | JDict _ => false | _ => true end.

(** [table_aliases.get(key)] *)
Fixpoint alias_get (key : json) (table_aliases : list (json * json)) : option json :=
  match table_aliases with
  | [] => None
  | (k, v) :: table_aliases =>
      if py_eqb k key then Some v else alias_get key table_aliases
  end.

(** [table_aliases[key] = v] *)
Fixpoint alias_set (key v : json) (table_aliases : list (json * json))
  : list (json * json) :=
  match table_aliases with
  | [] => [(key, v)]
  | (k, w) :: table_aliases =>
      if py_eqb k key then (k, v) :: table_aliases
      else (k, w) :: alias_set key v table_aliases
  end.

Definition is_none (v : json) : bool :=
  match v with JNone => true | _ => false end.

(** Body of [for table in find_nodes_by_key(select, "Table")]. *)
Definition unalias_table (table : json) (table_aliases : list (json * json))
  : result (json * list (json * json)) :=
  alias ← getitem table "alias";
  if is_none alias then Ok (table, table_aliases)
  else
    name ← getitem table "name";
    alias_name ← getitem alias "name";
    alias_value ← getitem alias_name "value";
    if hashable alias_value then
      table ← setitem table "alias" JNone;
      Ok (table, alias_set alias_value name table_aliases)
    else Raise TypeError.

(** Body of [for cid, parent in find_nodes_by_key_with_parent(select,
    "CompoundIdentifier")]: the value stored in
    [parent["CompoundIdentifier"]]. *)
Definition qualify_compound (prefix : list json) (table_aliases : list (json * json))
  (cid : json) : result json :=
  parts ← py_iter cid;
  match rev parts with
  | column :: table :: _ =>
      value ← getitem table "value";
      if hashable value then
        match alias_get value table_aliases with
        | Some (JList name) => Ok (JList (name ++ [column]))
        | Some _ => Raise TypeError
        | None =>
            match cid with
            | JList parts =>
                Ok (JList (slice_to prefix (5 - Z.of_nat (length parts)) ++ parts))
            | _ => Raise TypeError
            end
        end
      else Raise TypeError
  | _ => Raise ValueError
  end.

(** [x in values] for a list. *)
Definition py_in (x : json) (values : list json) : bool :=
  existsb (py_eqb x) values.

(** [[key for key, value in columns.items() if id_["value"] in value]] *)
Fixpoint get_candidates (id_ : json) (columns : list (string * list json))
  : result (list string) :=
  match columns with
  | [] => Ok []
  | (key, value) :: columns =>
      v ← getitem id_ "value";
      candidates ← get_candidates id_ columns;
      Ok (if py_in v value then key :: candidates else candidates)
  end.

(** Body of [for id_, parent in list(find_nodes_by_key_with_parent(select,
    "Identifier"))]: the value stored in [parent["CompoundIdentifier"]]. *)
Definition qualify_identifier (sc : scope) (id_ : json) : result json :=
  candidates ← get_candidates id_ (columns sc);
  match candidates with
  | [] => Raise (ColumnNotFound id_)
  | [key] =>
      match dict_get key (tables sc) with
      | Some table =>
          name ← getitem table "name";
          match name with
          | JList parts => Ok (JList (parts ++ [id_]))
          | _ => Raise TypeError
          end
      | None => Raise (KeyError key)
      end
  | _ => Raise (ColumnAmbiguous id_)
  end.

(** Body of [for select in find_nodes_by_key(tree, "Select")]. *)
Definition prepare_select (prefix : list json) (sc : scope) (select : json)
  : result json :=
  '(unaliased, table_aliases) ←
    for_state unalias_table (find_nodes_by_key select "Table") [];
  let select := (put_nodes_by_key select "Table" unaliased).1 in
  cids ← for_list (qualify_compound prefix table_aliases)
           (map fst (find_nodes_by_key_with_parent select "CompoundIdentifier"));
  let select := (put_nodes_by_key select "CompoundIdentifier" cids).1 in
  ids ← for_list (qualify_identifier sc)
          (map fst (find_nodes_by_key_with_parent select "Identifier"));
  Ok (retag_nodes_by_key select "Identifier" "CompoundIdentifier" ids).1.

Definition items_of (element : json) : list json :=
  match element with JList items => items | _ => [] end.

(** [prepare_tree]: the tree as the call leaves it. *)
Definition prepare_tree (engine : Engine) (database : string)
  (catalog schema : option string) (tree : list json) : result (list json) :=
  let prefix := make_prefix database catalog schema in
  let tree := JList tree in
  '(qualified, sc) ←
    for_state (qualify_table engine prefix) (find_nodes_by_key tree "Table")
              (Scope [] []);
  let tree := (put_nodes_by_key tree "Table" qualified).1 in
  selects ← for_list (prepare_select prefix sc) (find_nodes_by_key tree "Select");
  let tree := (put_nodes_by_key tree "Select" selects).1 in
  exprs ← for_list (λ expression_with_alias, getitem expression_with_alias "expr")
            (map fst (find_nodes_by_key_with_parent tree "ExprWithAlias"));
  Ok (items_of (retag_nodes_by_key tree "ExprWithAlias" "UnnamedExpr" exprs).1).

(** [verify_query] *)
Definition verify_query (parse_sql : Parser) (query : string) (engine : Engine)
  (database : string) (catalog schema : option string)
  (permissions : list string) : result bool :=
  tree ← parse_sql query;
  tree ← prepare_tree engine database catalog schema tree;
  py_all (λ statement, verify_statement parse_sql statement permissions) tree.

(** ** Identifiers as the parser and [prepare_tree] build them *)

(** An identifier of a name chain: [{"value": ..., "quote_style": ...}].
    [value] is [None] only in the parts [prepare_tree] adds for a catalog or
    schema the caller left out. *)
Record Ident : Type := mkIdent {
  value : option string;
  quote_style : option string
}.

#[global] Instance Ident_eq_dec : EqDecision Ident.
Proof. solve_decision. Defined.

Definition string_of_json (v : json) : option (option string) :=
  match v with
  | JNone => Some None
  | JStr s => Some (Some s)
  | _ => None
  end.

(** Reading an identifier off the tree; the parser writes the value first,
    [prepare_tree] the quote style. *)
Definition decode_ident (part : json) : option Ident :=
  match part with
  | JDict [(k1, v1); (k2, v2)] =>
      if String.eqb k1 "value" && String.eqb k2 "quote_style" then
        v ← string_of_json v1; q ← string_of_json v2; Some (mkIdent v q)
      else if String.eqb k1 "quote_style" && String.eqb k2 "value" then
        v ← string_of_json v2; q ← string_of_json v1; Some (mkIdent v q)
      else None
  | _ => None
  end.

(** The name chain of a table node, when it is a list of identifiers. *)
Definition decode_name (table : json) : option (list Ident) :=
  match table with
  | JDict entries =>
      match dict_get "name" entries with
      | Some (JList parts) => mapM decode_ident parts
      | _ => None
      end
  | _ => None
  end.

(** The name chains of the tables of a statement. *)
Definition table_names (statement : json) : option (list (list Ident)) :=
  mapM decode_name (find_nodes_by_key statement "Table").

(** What [matches_permission] compares a permission part as: the part after
    [if left["value"] == NULL: left["value"] = None]. *)
Definition normalize_part (part : json) : json :=
  match part with
  | JDict entries =>
      match dict_get "value" entries with
      | Some v => if py_eqb v (JStr NULL) then JDict (dict_set "value" JNone entries)
                  else part
      | None => part
      end
  | _ => part
  end.

Definition part_matches (left_ right_ : json) : bool :=
  py_eqb (normalize_part left_) right_.

Definition parts_match (lefts rights : list json) : bool :=
  forallb (λ lr, part_matches lr.1 lr.2) (zip lefts rights).

(** The same comparison on identifiers: a permission part named ["null"]
    stands for a part without a value, any other part for itself. *)
Definition ident_matches (left_ right_ : Ident) : bool :=
  bool_decide (quote_style left_ = quote_style right_) &&
  (if bool_decide (value left_ = Some NULL) then bool_decide (value right_ = None)
   else bool_decide (value left_ = value right_)).

Definition name_matches (allowed_table name : list Ident) : bool :=
  forallb (λ lr, ident_matches lr.1 lr.2) (zip allowed_table name).

(** Every table of the query is matched by some table of the permission. *)
Definition tables_allowed (query_names allowed_names : list (list Ident)) : bool :=
  forallb (λ name, existsb (λ allowed_table, name_matches allowed_table name)
                     allowed_names) query_names.

(** ** The scenario of tests/auth/verifier_test.py *)

Definition ident (s : string) : json :=
  JDict [("value", JStr s); ("quote_style", JNone)].

Definition table_node (name : list json) (alias : json) : json :=
  JDict [("Table", JDict [("name", JList name); ("alias", alias);
                          ("args", JList []); ("with_hints", JList [])])].

Definition select_statement (projection from : list json) : json :=
  JDict [("Query",
          JDict [("with", JNone);
                 ("body", JDict [("Select",
                                  JDict [("distinct", JBool false);
                                         ("projection", JList projection);
                                         ("from", JList from);
                                         ("selection", JNone);
                                         ("group_by", JList [])])]);
                 ("order_by", JList []); ("limit", JNone)])].

Definition from_table (name : list string) (alias : json) : json :=
  JDict [("relation", table_node (map ident name) alias); ("joins", JList [])].

(** [SELECT s.event_time, SUM(price) AS sum_price FROM sales AS s] *)
Definition sales_query : json :=
  select_statement
    [JDict [("UnnamedExpr",
             JDict [("CompoundIdentifier", JList [ident "s"; ident "event_time"])])];
     JDict [("ExprWithAlias",
             JDict [("expr",
                     JDict [("Function",
                             JDict [("name", JList [ident "SUM"]);
                                    ("args", JList [JDict [("Unnamed",
                                       JDict [("Identifier", ident "price")])]]);
                                    ("over", JNone); ("distinct", JBool false)])]);
                    ("alias", ident "sum_price")])]]
    [from_table ["sales"] (JDict [("name", ident "s"); ("columns", JList [])])].

(** [SELECT * FROM <name>] *)
Definition select_star (name : list string) : json :=
  select_statement [JStr "Wildcard"] [from_table name JNone].

Definition sales_sql : string :=
  "SELECT s.event_time, SUM(price) AS sum_price FROM sales AS s;".

Definition test_parser : Parser := λ text,
  if String.eqb text sales_sql then Ok [sales_query]
  else if String.eqb text "SELECT * FROM postgres" then Ok [select_star ["postgres"]]
  else if String.eqb text "SELECT * FROM postgres.dev" then
    Ok [select_star ["postgres"; "dev"]]
  else if String.eqb text "SELECT * FROM postgres.null.main.sales" then
    Ok [select_star ["postgres"; "null"; "main"; "sales"]]
  else if String.eqb text "SELECT * FROM postgres.null.dev.sales" then
    Ok [select_star ["postgres"; "null"; "dev"; "sales"]]
  else Raise (External "ParserError").

(** The SQLite engine of the test, with its single table [main.sales]. *)
Definition test_engine : Engine := λ table schema,
  if py_eqb table (JStr "sales") && py_eqb schema (JStr "main") then
    Ok [JStr "event_time"; JStr "price"]
  else Raise (External "NoSuchTableError").

(** [table["name"]] as a list of parts. *)
Definition name_parts (table : json) : list json :=
  match getitem table "name" with
  | Ok (JList parts) => parts
  | _ => []
  end.

Definition hive_sales_query : list json :=
  [select_star ["hive"; "main"; "sales"]].

Definition null_hive_permission : json :=
  select_star ["null"; "hive"; "main"; "sales"].

(** The table [sales] of the test, qualified for the database [postgres]
    and the schema [main], with no catalog. *)
Definition qualified_sales_statement : json :=
  select_statement [JStr "Wildcard"]
    [JDict [("relation",
             table_node (make_prefix "postgres" None (Some "main") ++ [ident "sales"])
                        JNone);
            ("joins", JList [])]].

Definition null_main_permission : json :=
  select_star ["postgres"; "null"; "main"; "sales"].

(** The tree [prepare_tree] leaves for the query of the test. *)
Definition prepared_sales : list json :=
  Eval vm_compute in
    match prepare_tree test_engine "postgres" None (Some "main") [sales_query] with
    | Ok tree => tree
    | Raise _ => []
    end.

(** What it means for [statement] to pass [permission]: the permission
    parses, and one of its statements matches. *)
Definition passes (parse_sql : Parser) (statement : json) (permission : string) : Prop :=
  ∃ statements permission_statement,
    parse_sql permission = Ok statements
    ∧ permission_statement ∈ statements
    ∧ matches_permission statement permission_statement = Ok true.

(** The permissions parse and comparing [statement] with their statements
    raises nothing. *)
Definition comparable_with (parse_sql : Parser) (permissions : list string) (statement : json) : Prop :=
  ∀ permission, permission ∈ permissions →
    ∃ statements, parse_sql permission = Ok statements
      ∧ ∀ ps, ps ∈ statements → ∃ b, matches_permission statement ps = Ok b.

(** ** Building queries (datajunction/sql/build.py) *)

(** *** Models *)

(** [datajunction.models.database.Database].
    Modelled from the spec: the attribute [cost] that
    [get_database_for_nodes] reads is missing from the declaration of
    [Database] among the sources; the spec gives a database a "[cost] (lower
    preferred)".  Costs are Python floats; the finite ones are rationals,
    and [nan] is outside the model.  [db_id], [db_name] and [db_URI] stand
    for the attributes [id], [name] and [URI]. *)
Record Database : Type := mkDatabase {
  db_id : option Z;
  db_name : string;
  db_URI : string;
  cost : Qc
}.

#[global] Instance Database_eq_dec : EqDecision Database.
Proof. solve_decision. Defined.

#[global] Instance Database_countable : Countable Database.
Proof.
  apply (inj_countable' (λ d, (db_id d, db_name d, db_URI d, cost d))
                        (λ t, match t with (i, n, u, c) => mkDatabase i n u c end)).
  by intros [].
Defined.

(** [datajunction.models.node.Node], with the relationship [parents] that
    build.py reads. *)
#[local] Unset Elimination Schemes.
Inductive Node : Type := mkNode {
  name : string;
  expression : option string;
  parents : list Node
}.
#[local] Set Elimination Schemes.

(** [a == b] on nodes. *)
Fixpoint node_eqb (a b : Node) {struct a} : bool :=
  String.eqb (name a) (name b)
  && bool_decide (expression a = expression b)
  && (fix go (xs ys : list Node) {struct xs} : bool :=
        match xs, ys with
        | [], [] => true
        | x :: xs, y :: ys => node_eqb x y && go xs ys
        | _, _ => false
        end) (parents a) (parents b).

(** [set(xs) == set(ys)] on lists of nodes. *)
Definition same_set (xs ys : list Node) : bool :=
  forallb (λ x, existsb (node_eqb x) ys) xs
  && forallb (λ y, existsb (node_eqb y) xs) ys.

(** *** Filters *)

Definition is_digit (c : ascii) : bool :=
  let n := nat_of_ascii c in (48 <=? n)%nat && (n <=? 57)%nat.

Definition is_letter (c : ascii) : bool :=
  let n := nat_of_ascii c in
  ((65 <=? n)%nat && (n <=? 90)%nat) || ((97 <=? n)%nat && (n <=? 122)%nat).

(** The class [[\w\./_]] of [FILTER_RE], on ASCII text: letters, digits,
    the underscore, the dot and the slash.  Word characters beyond ASCII
    are outside the model. *)
Definition name_char (c : ascii) : bool :=
  is_letter c || is_digit c
  || Ascii.eqb c "_" || Ascii.eqb c "." || Ascii.eqb c "/".

(** The longest prefix of characters satisfying [p], and the rest. *)
Fixpoint span (p : ascii → bool) (s : string) : string * string :=
  match s with
  | EmptyString => (EmptyString, EmptyString)
  | String c s' =>
      if p c then let '(taken, rest) := span p s' in (String c taken, rest)
      else (EmptyString, s)
  end.

Definition newline : ascii := ascii_of_nat 10.

(** The characters [.] matches. *)
Definition not_newline (c : ascii) : bool := negb (Ascii.eqb c newline).

(** What is left after the longest prefix satisfying [p]. *)
Definition stops_at (p : ascii → bool) (rest : string) : Prop :=
  match rest with
  | EmptyString => True
  | String c _ => p c = false
  end.

(** The text [(.+)] can match at the start of [s]. *)
Definition starts_line (s : string) : Prop :=
  match s with
  | EmptyString => False
  | String c _ => c ≠ newline
  end.

(** [s] without its prefix [prefix], when it has that prefix. *)
Fixpoint strip_prefix (prefix s : string) : option string :=
  match prefix, s with
  | EmptyString, _ => Some s
  | String c prefix, String d s =>
      if Ascii.eqb c d then strip_prefix prefix s else None
  | String _ _, EmptyString => None
  end.

(** The alternatives [(<=|<|>=|>|!=|=)] of [FILTER_RE], in order. *)
Definition OPERATORS : list string := ["<="; "<"; ">="; ">"; "!="; "="].

(** The alternation followed by [(.+)]: the first operator that [rest]
    starts with and that is followed by at least one character other than a
    newline, together with the characters up to the end of the line. *)
Fixpoint match_operator (operators : list string) (rest : string)
  : option (string * string) :=
  match operators with
  | [] => None
  | op :: operators =>
      match strip_prefix op rest with
      | Some after =>
          let '(value, _) := span not_newline after in
          if String.eqb value "" then match_operator operators rest
          else Some (op, value)
      | None => match_operator operators rest
      end
  end.

(** [FILTER_RE.match(filter_)], for
    [FILTER_RE = re.compile(r"([\w\./_]+)(<=|<|>=|>|!=|=)(.+)")]: the groups
    of the match.  The first group is greedy, and no operator starts with a
    character of its class, so only its longest extent can be followed by an
    operator. *)
Definition FILTER_RE_match (filter_ : string) : option (string * string * string) :=
  let '(name, rest) := span name_char filter_ in
  if String.eqb name "" then None
  else match match_operator OPERATORS rest with
       | Some (op, value) => Some (name, op, value)
       | None => None
       end.

(** The functions of [operator] that [COMPARISONS] holds. *)
Inductive comparison_operator : Type := op_gt | op_ge | op_lt | op_le | op_eq | op_ne.

Definition COMPARISONS : list (string * comparison_operator) :=
  [(">", op_gt); (">=", op_ge); ("<", op_lt); ("<=", op_le);
   ("=", op_eq); ("!=", op_ne)].

(** A SQLAlchemy column, as [get_query_for_node] keys it:
    [f"{column.table.name}.{column.name}"]. *)
Record SqlaColumn : Type := mkColumn {
  column_table : string;
  column_name : string
}.

(** The values [ast.literal_eval] returns for the literals of the model. *)
Inductive literal : Type :=
| LNone
| LBool (b : bool)
| LInt (n : Z)
| LStr (s : string).

(** The [BinaryExpression] that [comparison(column, value)] builds. *)
Record BinaryExpression : Type := mkBinaryExpression {
  left_column : SqlaColumn;
  operator : comparison_operator;
  right_value : literal
}.

(** [ast.literal_eval] of the Python standard library: the value of a
    literal, or [ValueError] / [SyntaxError]. *)
Definition LiteralEval : Type := string → result literal.

(** [comparison(column, value)] for a function [comparison] of [operator]:
    the comparison operator of SQLAlchemy's column, which builds the
    expression or raises (SQLAlchemy raises [ArgumentError] when [None],
    [True] or [False] is compared with an ordering operator). *)
Definition Comparison : Type :=
  comparison_operator → SqlaColumn → literal → result BinaryExpression.

(** [get_filter].  The call [comparison(column, value)] is outside the
    [try]: what it raises is raised as it is. *)
Definition get_filter (literal_eval : LiteralEval) (compare : Comparison)
  (columns : gmap string SqlaColumn) (filter_ : string) : result BinaryExpression :=
  match FILTER_RE_match filter_ with
  | None => Raise (Exception_ ("Invalid filter: " +:+ filter_))
  | Some (name, op, value) =>
      match columns !! name with
      | None => Raise (Exception_ ("Invalid column name: " +:+ name))
      | Some column =>
          match dict_get op COMPARISONS with
          | None =>
              let valid := join ", " (map fst COMPARISONS) in
              Raise (Exception_ ("Invalid operation: " +:+ op +:+ " (valid: "
                                 +:+ valid +:+ ")"))
          | Some comparison =>
              match literal_eval value with
              | Raise _ => Raise (Exception_ ("Invalid value: " +:+ value))
              | Ok value => compare comparison column value
              end
          end
      end
  end.

(** [get_dimensions_from_filters] *)
Fixpoint get_dimensions_from_filters (filters : list string) : result (gset string) :=
  match filters with
  | [] => Ok ∅
  | filter_ :: filters =>
      match FILTER_RE_match filter_ with
      | None => Raise (Exception_ ("Invalid filter: " +:+ filter_))
      | Some (name, _, _) =>
          dimensions ← get_dimensions_from_filters filters;
          Ok ({[ name ]} ∪ dimensions)
      end
  end.

(** *** A model of ast.literal_eval *)

Definition is_blank (c : ascii) : bool :=
  Ascii.eqb c " " || Ascii.eqb c (ascii_of_nat 9).

(** [s.lstrip(" \t")] *)
Fixpoint lstrip (s : string) : string :=
  match s with
  | String c s' => if is_blank c then lstrip s' else s
  | EmptyString => s
  end.

Fixpoint string_forallb (p : ascii → bool) (s : string) : bool :=
  match s with
  | EmptyString => true
  | String c s => p c && string_forallb p s
  end.

(** A Python name on ASCII text. *)
Definition is_identifier (s : string) : bool :=
  match s with
  | String c s' =>
      (is_letter c || Ascii.eqb c "_")
      && string_forallb (λ c, is_letter c || is_digit c || Ascii.eqb c "_") s'
  | EmptyString => false
  end.

(** The value of a string of decimal digits. *)
Fixpoint digits_value (s : string) (acc : Z) : Z :=
  match s with
  | EmptyString => acc
  | String c s => digits_value s (10 * acc + (Z.of_nat (nat_of_ascii c) - 48))
  end.

(** A decimal integer literal: digits, without a leading zero unless all
    digits are zeros. *)
Definition parse_digits (s : string) : option Z :=
  match s with
  | EmptyString => None
  | String c s' =>
      if string_forallb is_digit s then
        if Ascii.eqb c "0" && negb (string_forallb (Ascii.eqb "0") s') then None
        else Some (digits_value s 0)
      else None
  end.

(** A string literal in single or double quotes, without escapes. *)
Definition parse_quoted (s : string) : option string :=
  match s with
  | String q s' =>
      if Ascii.eqb q "'" || Ascii.eqb q (ascii_of_nat 34) then
        let '(body, rest) :=
          span (λ c, negb (Ascii.eqb c q || Ascii.eqb c "\" || Ascii.eqb c newline)) s' in
        if String.eqb rest (String q EmptyString) then Some body else None
      else None
  | EmptyString => None
  end.

(** [ast.literal_eval] on the atoms the filters of the metrics API use: the
    names [True], [False] and [None], signed decimal integers and quoted
    strings without escapes.  Any other name is not a literal and raises
    [ValueError], as in Python.  Other literals of Python (floats,
    containers, strings with escapes) are not modelled; on them this function
    raises [NotImplementedError], which no theorem relies on. *)
Definition literal_eval : LiteralEval := λ node_or_string,
  let text := lstrip node_or_string in
  if is_identifier text then
    if String.eqb text "True" then Ok (LBool true)
    else if String.eqb text "False" then Ok (LBool false)
    else if String.eqb text "None" then Ok LNone
    else Raise ValueError
  else
    match text with
    | String sign digits =>
        if Ascii.eqb sign "-" then
          match parse_digits digits with
          | Some n => Ok (LInt (- n))
          | None => Raise NotImplementedError
          end
        else if Ascii.eqb sign "+" then
          match parse_digits digits with
          | Some n => Ok (LInt n)
          | None => Raise NotImplementedError
          end
        else
          match parse_digits text, parse_quoted text with
          | Some n, _ => Ok (LInt n)
          | None, Some s => Ok (LStr s)
          | None, None => Raise NotImplementedError
          end
    | EmptyString => Raise ValueError
    end.

(** *** A model of the comparisons of SQLAlchemy *)

(** The comparison operators of a column on the literals of the model: the
    expression is given by the function of [operator] and the operands it
    was built from; an ordering operator with [None], [True] or [False]
    raises [ArgumentError]. *)
Definition sqla_compare : Comparison := λ comparison column value,
  match value, comparison with
  | (LNone | LBool _), (op_gt | op_ge | op_lt | op_le) =>
      Raise (External "ArgumentError")
  | _, _ => Ok (mkBinaryExpression column comparison value)
  end.

(** Text of ASCII characters.  [FILTER_RE_match] is [FILTER_RE.match] on
    such text; beyond it, Python's [\w] also matches the word characters of
    Unicode, which [name_char] does not. *)
Definition is_ascii (c : ascii) : bool := (nat_of_ascii c <? 128)%nat.

Definition ascii_text (s : string) : Prop := string_forallb is_ascii s = true.

(** *** Dimension validation *)

(** [s1 <= s2] on strings: the order [sorted] uses. *)
Definition str_le (s1 s2 : string) : Prop := String.leb s1 s2 = true.

#[global] Instance str_le_dec : RelDecision str_le.
Proof. intros s1 s2. unfold str_le. apply _. Defined.

#[global] Instance str_le_total : Total str_le.
Proof. intros s1 s2. apply String.leb_total. Qed.

(** [sorted(dimensions)] for a set of strings. *)
Definition sorted_strings (dimensions : gset string) : list string :=
  merge_sort str_le (elements dimensions).

(** [datajunction.models.query.QueryCreate] *)
Record QueryCreate : Type := mkQueryCreate {
  query_database_id : option Z;
  submitted_query : string
}.

(** The first statements of [get_query_for_node]: the check "that groupbys
    and filters are valid dimensions".  [valid] stands for
    [get_dimensions(node)] of [datajunction.sql.dag]. *)
Definition check_dimensions (valid : list string) (groupbys filters : list string)
  : result (gset string) :=
  dimensions ← get_dimensions_from_filters filters;
  let requested_dimensions : gset string := list_to_set groupbys ∪ dimensions in
  let valid_dimensions : gset string := list_to_set valid in
  if decide (requested_dimensions ⊆ valid_dimensions) then Ok requested_dimensions
  else
    let invalid := sorted_strings (requested_dimensions ∖ valid_dimensions) in
    let plural := if decide (1 < length invalid)%nat then "s" else "" in
    Raise (Exception_ ("Invalid dimension" +:+ plural +:+ ": " +:+ join ", " invalid)).

(** [get_query_for_node].  [get_dimensions] is the function of
    [datajunction.sql.dag]; [synthesize] stands for the statements after the
    check, which build and compile the SQLAlchemy query from the requested
    dimensions. *)
Definition get_query_for_node (get_dimensions : Node → list string)
  (synthesize : Node → list string → list string → gset string → option Z
                → result QueryCreate)
  (node : Node) (groupbys filters : list string) (database_id : option Z)
  : result QueryCreate :=
  requested_dimensions ← check_dimensions (get_dimensions node) groupbys filters;
  synthesize node groupbys filters requested_dimensions database_id.

(** *** Database resolution *)

(** What the session reads from the metadata store. *)
Record Session : Type := mkSession {
  session_databases : list Database;
  session_nodes : list Node
}.

(** The order in which Python iterates over the set that
    [set.intersection] builds from its operands.  It is fixed by the hashes
    of the elements and by how the set was built, so it depends on the
    operands and on their order, not only on the elements of the result:
    [set.intersection(a, b)] and [set.intersection(b, a)] can iterate
    differently.  It is a parameter here, a function of the list of the
    operands. *)
Definition SetOrder : Type := list (gset Database) → list Database.

(** [sorted(xs, key=...)]: a stable sort by a numeric key; equal keys keep
    the order they have in [xs]. *)
Fixpoint sort_insert {A : Type} (key : A → Qc) (x : A) (sorted : list A) : list A :=
  match sorted with
  | [] => [x]
  | y :: sorted' =>
      if decide (key y < key x)%Qc then y :: sort_insert key x sorted'
      else x :: sorted
  end.

Definition sorted_by {A : Type} (key : A → Qc) (xs : list A) : list A :=
  foldr (sort_insert key) [] xs.

(** [set.intersection] applied to a non-empty list of sets. *)
Definition set_intersection (first : gset Database) (others : list (gset Database))
  : gset Database :=
  foldl (∩) first others.

(** The elements of [set.intersection] of the operands [sets]. *)
Definition intersection_of (sets : list (gset Database)) : gset Database :=
  match sets with
  | first :: others => set_intersection first others
  | [] => ∅
  end.

(** An iteration order that depends on the elements only. *)
Definition by_elements : SetOrder := λ sets, elements (intersection_of sets).

(** [get_database_for_nodes].  [DJ_DATABASE_ID] is the constant of
    [datajunction.constants], [get_computable_databases] the function of
    [datajunction.sql.dag]. *)
Definition get_database_for_nodes (set_order : SetOrder) (DJ_DATABASE_ID : Z)
  (get_computable_databases : Node → gset string → gset Database)
  (session : Session) (nodes : list Node) (node_columns : gmap string (gset string))
  (database_id : option Z) : result Database :=
  databases ←
    match nodes with
    | [] =>
        Ok (filter (λ database, is_Some (db_id database)
                                ∧ db_id database ≠ Some DJ_DATABASE_ID)
                   (session_databases session))
    | _ =>
        sets ← for_list (λ node, match node_columns !! name node with
                                 | Some referenced =>
                                     Ok (get_computable_databases node referenced)
                                 | None => Raise (KeyError (name node))
                                 end) nodes;
        match sets with
        | _ :: _ => Ok (set_order sets)
        | [] => Raise TypeError
        end
    end;
  match databases with
  | [] => Raise (Exception_ "No valid database was found")
  | _ =>
      match database_id with
      | Some wanted =>
          match list_find (λ database, db_id database = Some wanted) databases with
          | Some (_, database) => Ok database
          | None =>
              Raise (Exception_ ("Database ID " +:+ pretty wanted +:+ " is not valid"))
          end
      | None =>
          match sorted_by cost databases with
          | database :: _ => Ok database
          | [] => Raise IndexError
          end
      end
  end.

(** *** Metric substitution *)

(** [needle in haystack] on strings. *)
Fixpoint is_infix (needle haystack : string) : bool :=
  String.prefix needle haystack
  || match haystack with
     | String _ haystack' => is_infix needle haystack'
     | EmptyString => false
     end.

(** [key in container] for a string [key]. *)
Definition py_contains (key : string) (container : json) : result bool :=
  match container with
  | JDict entries => Ok (bool_decide (is_Some (dict_get key entries)))
  | JList items => Ok (py_in (JStr key) items)
  | JStr s => Ok (is_infix key s)
  | _ => Raise TypeError
  end.

(** [element[i]] with an integer index. *)
Definition getindex (element : json) (i : nat) : result json :=
  match element with
  | JList items =>
      match items !! i with Some v => Ok v | None => Raise IndexError end
  | JStr s =>
      match chars s !! i with Some v => Ok v | None => Raise IndexError end
  | JDict _ => Raise (KeyError (pretty (Z.of_nat i)))
  | _ => Raise TypeError
  end.

Definition double_quote : string := String (ascii_of_nat 34) EmptyString.

(** [session.exec(select(Node).where(Node.name == name)).one_or_none()];
    no node is named by a value that is not a string. *)
Definition one_or_none (session : Session) (node_name : json) : result (option Node) :=
  match node_name with
  | JStr s =>
      match filter (λ node, name node = s) (session_nodes session) with
      | [] => Ok None
      | [node] => Ok (Some node)
      | _ => Raise (External "MultipleResultsFound")
      end
  | _ => Ok None
  end.

(** The variables of [get_new_projection_and_from] that outlive one round
    of its loop: the two lists it returns, the list [parents] of the caller,
    which it extends in place, and the local variable [expression], unbound
    before the first assignment. *)
Record substitution : Type := mkSubstitution {
  new_projection : list json;
  new_from : list json;
  known_parents : list Node;
  last_expression : option json
}.

(** The node name an expression refers to; [None] when the expression is
    neither an identifier nor a compound identifier. *)
Definition referenced_name (expression : json) : result (option json) :=
  is_identifier ← py_contains "Identifier" expression;
  if is_identifier : bool then
    identifier ← getitem expression "Identifier";
    value ← getitem identifier "value";
    Ok (Some value)
  else
    is_compound ← py_contains "CompoundIdentifier" expression;
    if is_compound : bool then
      cid ← getitem expression "CompoundIdentifier";
      parts ← py_iter cid;
      values ← for_list (λ part, getitem part "value") parts;
      strings ← for_list (λ value, match value with
                                   | JStr s => Ok s
                                   | _ => Raise TypeError
                                   end) values;
      Ok (Some (JStr (join "." strings)))
    else Ok None.

(** [subtree[0]["Query"]["body"]["Select"]] *)
Definition select_of (subtree : list json) : result json :=
  match subtree with
  | statement :: _ =>
      query ← getitem statement "Query";
      body ← getitem query "body";
      getitem body "Select"
  | [] => Raise IndexError
  end.

(** One round of the loop of [get_new_projection_and_from].
    [is_metric] and [get_expression_from_projection] are the functions of
    [datajunction.sql.parse]. *)
Definition substitute (session : Session) (parse_sql : Parser)
  (is_metric : string → bool) (get_expression_from_projection : json → result json)
  (state : substitution) (projection_expression : json) : result substitution :=
  unnamed ← py_contains "UnnamedExpr" projection_expression;
  '(expression_, alias) ←
    (if unnamed : bool then
       e ← getitem projection_expression "UnnamedExpr"; Ok (e, JNone)
     else
       aliased ← py_contains "ExprWithAlias" projection_expression;
       if aliased : bool then
         with_alias ← getitem projection_expression "ExprWithAlias";
         e ← getitem with_alias "expr";
         with_alias ← getitem projection_expression "ExprWithAlias";
         a ← getitem with_alias "alias";
         Ok (e, a)
       else
         match last_expression state with
         | Some _ => Raise NotImplementedError
         | None => Raise UnboundLocalError
         end);
  let keep :=
    mkSubstitution (new_projection state ++ [projection_expression]) (new_from state)
                   (known_parents state) (Some expression_) in
  referenced ← referenced_name expression_;
  match referenced with
  | None => Ok keep
  | Some node_name =>
      let alias :=
        if is_none alias then JDict [("quote_style", JStr double_quote);
                                     ("value", node_name)]
        else alias in
      node ← one_or_none session node_name;
      match node with
      | None => Ok keep
      | Some node =>
          match expression node with
          | Some sql =>
              if negb (String.eqb sql "") && is_metric sql then
                parents_ ←
                  match known_parents state with
                  | [] => Ok (parents node)
                  | known =>
                      if negb (same_set known (parents node)) then
                        Raise (Exception_ "All metrics should have the same parents")
                      else Ok known
                  end;
                subtree ← parse_sql sql;
                select ← select_of subtree;
                projection ← getitem select "projection";
                first ← getindex projection 0;
                expr ← get_expression_from_projection first;
                select ← select_of subtree;
                from ← getitem select "from";
                source ← getindex from 0;
                Ok (mkSubstitution
                      (new_projection state
                       ++ [JDict [("ExprWithAlias",
                                   JDict [("alias", alias); ("expr", expr)])]])
                      (new_from state ++ [source])
                      parents_ (Some expression_))
              else Raise (Exception_ ("Not a valid metric: " +:+ name node))
          | None => Raise (Exception_ ("Not a valid metric: " +:+ name node))
          end
      end
  end.

(** [get_new_projection_and_from]: the two lists it returns and the list
    [parents] as it leaves it. *)
Definition get_new_projection_and_from (session : Session) (parse_sql : Parser)
  (is_metric : string → bool) (get_expression_from_projection : json → result json)
  (projection : list json) (parents_ : list Node)
  : result (list json * list json * list Node) :=
  state ← for_each (substitute session parse_sql is_metric get_expression_from_projection)
            projection (mkSubstitution [] [] parents_ None);
  Ok (new_projection state, new_from state, known_parents state).

(** The databases that can compute every node of [nodes] from the columns
    [node_columns] lists for it. *)
Definition computes_all (get_computable_databases : Node → gset string → gset Database)
  (node_columns : gmap string (gset string)) (nodes : list Node)
  (database : Database) : Prop :=
  ∀ node, node ∈ nodes →
    ∃ referenced, node_columns !! name node = Some referenced
                  ∧ database ∈ get_computable_databases node referenced.


(** *** Two databases and a metric *)

Definition druid : Database := mkDatabase (Some 1) "druid" "druid://localhost" (Q2Qc 1).

Definition postgres : Database :=
  mkDatabase (Some 2) "postgres" "postgresql://localhost" (Q2Qc 5).

Definition comments : Node := mkNode "core.comments" None [].

Definition num_comments : Node :=
  mkNode "core.num_comments" (Some "SELECT COUNT(*) FROM core.comments") [comments].

Definition test_session : Session :=
  mkSession [druid; postgres] [comments; num_comments].

(** Both databases hold every column of every node. *)
Definition test_computable : Node → gset string → gset Database :=
  λ _ _, {[ druid; postgres ]}.

Definition test_columns : gmap string (gset string) :=
  {[ "core.num_comments" := ∅ ]}.

(** *** The metric [core.num_comments] and its dimensions *)

Definition test_dimensions : Node → list string :=
  λ _, ["core.comments.ds"; "core.comments.user_id"].

Definition test_synthesize
  : Node → list string → list string → gset string → option Z → result QueryCreate :=
  λ _ _ _ _ _, Ok (mkQueryCreate (Some 1) "SELECT COUNT(*) FROM comments").

(** *** A column to filter on *)

Definition user_id_column : SqlaColumn := mkColumn "core.comments" "user_id".

Definition test_filter_columns : gmap string SqlaColumn :=
  {[ "core.comments.user_id" := user_id_column ]}.

(** *** Two metrics with different parents *)

(** A metric whose list of parents is empty. *)
Definition num_users : Node :=
  mkNode "core.num_users" (Some "SELECT COUNT(*) FROM users") [].

Definition metrics_session : Session :=
  mkSession [druid; postgres] [comments; num_comments; num_users].

(** The statement that counts the rows of [table]. *)
Definition count_star (table : string) : json :=
  select_statement
    [JDict [("UnnamedExpr",
             JDict [("Function",
                     JDict [("name", JList [ident "COUNT"]);
                            ("args", JList [JDict [("Unnamed", JStr "Wildcard")]]);
                            ("over", JNone); ("distinct", JBool false)])])]]
    [from_table [table] JNone].

Definition metrics_parser : Parser := λ text,
  if String.eqb text "SELECT COUNT(*) FROM users" then Ok [count_star "users"]
  else if String.eqb text "SELECT COUNT(*) FROM core.comments" then
    Ok [count_star "core.comments"]
  else Raise (External "ParserError").

(** The projection of [SELECT "core.num_users", "core.num_comments" ...]. *)
Definition metric_reference (metric : string) : json :=
  JDict [("UnnamedExpr",
          JDict [("Identifier",
                  JDict [("value", JStr metric);
                         ("quote_style", JStr double_quote)])])].

Definition two_metrics : list json :=
  [metric_reference "core.num_users"; metric_reference "core.num_comments"].

(** ** Shape of the parse trees of queries *)

(** The keys [prepare_tree] searches for. *)
Definition searched_keys : list string :=
  ["Table"; "Select"; "CompoundIdentifier"; "Identifier"; "ExprWithAlias"].

Definition is_searched (key : string) : bool :=
  existsb (String.eqb key) searched_keys.

(** A value without any of the searched keys: names, identifiers, aliases,
    literals. *)
Fixpoint plain (element : json) : bool :=
  match element with
  | JList items => forallb plain items
  | JDict entries =>
      forallb (λ kv, match kv with
                     | (key, value) => negb (is_searched key) && plain value
                     end) entries
  | _ => true
  end.

(** The value of an [ExprWithAlias]: an expression and its alias. *)
Definition alias_shaped (value : json) : bool :=
  match value with
  | JDict [(k1, _); (k2, alias)] =>
      String.eqb k1 "expr" && String.eqb k2 "alias" && plain alias
  | _ => false
  end.

(** The trees the parser builds for queries, as far as [prepare_tree]
    looks at them.  The parser writes a variant of the grammar as a dict
    with the name of the variant as its single key, so a searched key is the
    only key of its dict.  A table reference, a compound identifier and an
    identifier hold names only; table references occur inside a [Select];
    an aliased expression holds an expression and an alias.  [inside] tells
    whether the element lies inside a [Select]. *)
Fixpoint well_formed (inside : bool) (element : json) : bool :=
  match element with
  | JList items => forallb (well_formed inside) items
  | JDict entries =>
      match entries with
      | [(key, value)] =>
          if String.eqb key "Table" then inside && plain value
          else if String.eqb key "Select" then well_formed true value
          else if String.eqb key "CompoundIdentifier" then plain value
          else if String.eqb key "Identifier" then plain value
          else if String.eqb key "ExprWithAlias" then
            alias_shaped value && well_formed inside value
          else well_formed inside value
      | _ =>
          forallb (λ kv, match kv with
                         | (key, value) =>
                             negb (is_searched key) && well_formed inside value
                         end) entries
      end
  | _ => true
  end.

(** What [well_formed] asks of the value under a searched key. *)
Definition variant_ok (inside : bool) (key : string) (value : json) : bool :=
  if String.eqb key "Table" then inside && plain value
  else if String.eqb key "Select" then well_formed true value
  else if String.eqb key "CompoundIdentifier" then plain value
  else if String.eqb key "Identifier" then plain value
  else if String.eqb key "ExprWithAlias" then
    alias_shaped value && well_formed inside value
  else well_formed inside value.

(** The table references that the value under [key] contributes. *)
Definition tables_under (key : string) (value : json) : list json :=
  if String.eqb key "Table" then [value] else find_nodes_by_key value "Table".

(** The table references of a tree. *)
Definition tables_of (element : json) : list json :=
  find_nodes_by_key element "Table".

(** What [prepare_tree] makes of the table reference [table]: the name
    left-padded with the prefix, and no alias. *)
Definition qualified_as (prefix : list json) (table table' : json) : Prop :=
  ∃ parts,
    getitem table "name" = Ok (JList parts)
    ∧ getitem table' "name"
      = Ok (JList (slice_to prefix (4 - Z.of_nat (length parts)) ++ parts))
    ∧ getitem table' "alias" = Ok JNone.

(** The loops of [put_nodes_by_key] over the items of a list and over the
    entries of a dict. *)
Definition put_items (target : string)
  : list json → list json → list json * list json :=
  fix go (items : list json) (news : list json) {struct items} :=
    match items with
    | [] => ([], news)
    | child :: items =>
        let '(child, news) := put_nodes_by_key child target news in
        let '(items, news) := go items news in
        (child :: items, news)
    end.

Definition put_entries (target : string)
  : list (string * json) → list json → list (string * json) * list json :=
  fix go (entries : list (string * json)) (news : list json) {struct entries} :=
    match entries with
    | [] => ([], news)
    | (key, value) :: entries =>
        let '(value, news) :=
          if String.eqb key target then
            match news with
            | new :: news => (new, news)
            | [] => (value, [])
            end
          else put_nodes_by_key value target news in
        let '(entries, news) := go entries news in
        ((key, value) :: entries, news)
    end.

(** [Put target element news element']: writing the values [news] back at
    the nodes the search for [target] finds in [element], one value per
    node, gives [element']. *)
Inductive Put (target : string) : json → list json → json → Prop :=
| Put_none : Put target JNone [] JNone
| Put_bool b : Put target (JBool b) [] (JBool b)
| Put_int n : Put target (JInt n) [] (JInt n)
| Put_str s : Put target (JStr s) [] (JStr s)
| Put_nil : Put target (JList []) [] (JList [])
| Put_cons child items news1 news2 child' items' :
    Put target child news1 child' →
    Put target (JList items) news2 (JList items') →
    Put target (JList (child :: items)) (news1 ++ news2) (JList (child' :: items'))
| Put_empty : Put target (JDict []) [] (JDict [])
| Put_hit key value entries new news entries' :
    String.eqb key target = true →
    Put target (JDict entries) news (JDict entries') →
    Put target (JDict ((key, value) :: entries)) (new :: news)
        (JDict ((key, new) :: entries'))
| Put_miss key value entries news1 news2 value' entries' :
    String.eqb key target = false →
    Put target value news1 value' →
    Put target (JDict entries) news2 (JDict entries') →
    Put target (JDict ((key, value) :: entries)) (news1 ++ news2)
        (JDict ((key, value') :: entries')).

Definition entries_of (element : json) : list (string * json) :=
  match element with JDict entries => entries | _ => [] end.

(** The loops of [retag_nodes_by_key] over the items of a list and over the
    entries of a dict. *)
Definition retag_items (target newkey : string)
  : list json → list json → list json * list json :=
  fix go (items : list json) (news : list json) {struct items} :=
    match items with
    | [] => ([], news)
    | child :: items =>
        let '(child, news) := retag_nodes_by_key child target newkey news in
        let '(items, news) := go items news in
        (child :: items, news)
    end.

Definition retag_entries (target newkey : string)
  : list (string * json) → list json
    → list (string * json) * option json * list json :=
  fix go (entries : list (string * json)) (news : list json) {struct entries} :=
    match entries with
    | [] => ([], None, news)
    | (key, value) :: entries =>
        if String.eqb key target then
          match news with
          | new :: news =>
              let '(entries, edit, news) := go entries news in
              ((key, value) :: entries,
               match edit with Some e => Some e | None => Some new end, news)
          | [] =>
              let '(entries, edit, news) := go entries [] in
              ((key, value) :: entries, edit, news)
          end
        else
          let '(value, news) := retag_nodes_by_key value target newkey news in
          let '(entries, edit, news) := go entries news in
          ((key, value) :: entries, edit, news)
    end.

(** [Retag target newkey element news element']: in a tree where [target]
    is the only key of its dict, replacing each dict [{target: value}] by
    [{newkey: new}], with the values [news] in the order of the search,
    gives [element']. *)
Inductive Retag (target newkey : string) : json → list json → json → Prop :=
| Retag_none : Retag target newkey JNone [] JNone
| Retag_bool b : Retag target newkey (JBool b) [] (JBool b)
| Retag_int n : Retag target newkey (JInt n) [] (JInt n)
| Retag_str s : Retag target newkey (JStr s) [] (JStr s)
| Retag_nil : Retag target newkey (JList []) [] (JList [])
| Retag_cons child items news1 news2 child' items' :
    Retag target newkey child news1 child' →
    Retag target newkey (JList items) news2 (JList items') →
    Retag target newkey (JList (child :: items)) (news1 ++ news2)
          (JList (child' :: items'))
| Retag_empty : Retag target newkey (JDict []) [] (JDict [])
| Retag_hit value new :
    Retag target newkey (JDict [(target, value)]) [new] (JDict [(newkey, new)])
| Retag_miss key value entries news1 news2 value' entries' :
    String.eqb key target = false →
    Retag target newkey value news1 value' →
    Retag target newkey (JDict entries) news2 (JDict entries') →
    Retag target newkey (JDict ((key, value) :: entries)) (news1 ++ news2)
          (JDict ((key, value') :: entries')).

(** What the first loop of [prepare_tree] makes of a table reference: the
    name left-padded with the prefix. *)
Definition renamed_as (prefix : list json) (table table' : json) : Prop :=
  ∃ parts,
    getitem table "name" = Ok (JList parts)
    ∧ getitem table' "name"
      = Ok (JList (slice_to prefix (4 - Z.of_nat (length parts)) ++ parts)).

(** What the loop over the tables of a [Select] makes of a table
    reference: the same name, and no alias. *)
Definition unaliased_as (table table' : json) : Prop :=
  getitem table' "name" = getitem table "name"
  ∧ getitem table' "alias" = Ok JNone.

(** The tables a scope knows hold names only. *)
Definition scope_plain (sc : scope) : Prop :=
  ∀ key table, dict_get key (tables sc) = Some table → plain table = true.

(** The names the aliases stand for hold names only. *)
Definition aliases_plain (table_aliases : list (json * json)) : Prop :=
  Forall (λ kv, plain kv.2 = true) table_aliases.

(** What the first loop of [prepare_tree] has stored in [columns] and
    [tables] after going through tables among [found]: the keys of
    [columns] are distinct, and a key of [columns] is a key of [tables], for
    a table of [found] with its name left-padded, whose columns as the
    engine gives them are the value in [columns]. *)
Definition scope_built (engine : Engine) (prefix found : list json) (sc : scope)
  : Prop :=
  NoDup (map fst (columns sc))
  ∧ ∀ key names, dict_get key (columns sc) = Some names →
      ∃ table original,
        dict_get key (tables sc) = Some table
        ∧ original ∈ found
        ∧ renamed_as prefix original table
        ∧ get_column_names engine table = Ok names.

(** [SELECT *], a statement without a table reference. *)
Definition select_nothing : json := select_statement [JStr "Wildcard"] [].

(** What the first loop of [prepare_tree] makes of the table [sales]. *)
Definition sales_qualified : json * scope :=
  Eval vm_compute in
    match qualify_table test_engine (make_prefix "postgres" None (Some "main"))
            (JDict [("name", JList [ident "sales"]); ("alias", JNone)])
            (Scope [] []) with
    | Ok r => r
    | Raise _ => (JNone, Scope [] [])
    end.

(** An expression of the new projection: the old expression, or an aliased
    expression in its place. *)
Definition kept_or_aliased (old new : json) : Prop :=
  new = old
  ∨ ∃ alias expr,
      new = JDict [("ExprWithAlias", JDict [("alias", alias); ("expr", expr)])].

(** *** Joining a node with a dimension *)

(** [datajunction.models.column.Column], with the attributes that
    [find_on_clause] reads: [name], the relationship [dimension] and
    [dimension_column]. *)
Record Column : Type := mkDimensionColumn {
  col_name : string;
  col_dimension : option Node;
  col_dimension_column : option string
}.

(** The comparison [left == right] of two SQLAlchemy columns. *)
Record OnClause : Type := mkOnClause {
  on_left : SqlaColumn;
  on_right : SqlaColumn
}.

(** [column.dimension == dimension] *)
Definition has_dimension (dimension : Node) (column : Column) : bool :=
  match col_dimension column with
  | Some node => node_eqb node dimension
  | None => false
  end.

(** The inner loop of [find_on_clause]: the first column of [columns] with
    the dimension. *)
Fixpoint dimension_column_of (dimension : Node) (columns : list Column)
  : option Column :=
  match columns with
  | [] => None
  | column :: columns =>
      if has_dimension dimension column then Some column
      else dimension_column_of dimension columns
  end.

(** The outer loop of [find_on_clause] over [node.parents]; [columns_of]
    stands for the relationship [parent.columns]. *)
Fixpoint dimension_column_in (columns_of : Node → list Column) (dimension : Node)
  (parents_ : list Node) : option Column :=
  match parents_ with
  | [] => None
  | parent :: parents_ =>
      match columns_of parent with
      | [] => dimension_column_in columns_of dimension parents_
      | columns =>
          match dimension_column_of dimension columns with
          | Some column => Some column
          | None => dimension_column_in columns_of dimension parents_
          end
      end
  end.

(** [select.columns[key]] *)
Definition select_column (select : gmap string SqlaColumn) (key : string)
  : result SqlaColumn :=
  match select !! key with
  | Some column => Ok column
  | None => Raise (KeyError key)
  end.

(** [find_on_clause].  [DEFAULT_DIMENSION_COLUMN] is the constant of
    [datajunction.constants]; the two selects are given by their
    collections of columns. *)
Definition find_on_clause (DEFAULT_DIMENSION_COLUMN : string)
  (columns_of : Node → list Column) (node : Node)
  (node_select : gmap string SqlaColumn) (dimension : Node)
  (subquery : gmap string SqlaColumn) : result OnClause :=
  match dimension_column_in columns_of dimension (parents node) with
  | Some column =>
      let dimension_column :=
        match col_dimension_column column with
        | Some s => if String.eqb s "" then DEFAULT_DIMENSION_COLUMN else s
        | None => DEFAULT_DIMENSION_COLUMN
        end in
      left_ ← select_column node_select (col_name column);
      right_ ← select_column subquery dimension_column;
      Ok (mkOnClause left_ right_)
  | None =>
      Raise (Exception_ ("Node " +:+ name node +:+ " has no columns with dimension "
                         +:+ name dimension))
  end.

(** *** Dimension references *)

(** [s.rsplit(".", 1)] when it has two parts: the text before the last dot
    and the text after it. *)
Fixpoint rsplit_dot (s : string) : option (string * string) :=
  match s with
  | EmptyString => None
  | String c s' =>
      match rsplit_dot s' with
      | Some (before, after) => Some (String c before, after)
      | None => if Ascii.eqb c "." then Some (EmptyString, s') else None
      end
  end.

Definition quoted (value : string) : json :=
  JDict [("quote_style", JStr double_quote); ("value", JStr value)].

(** One round of the inner loop of [replace_dimension_references]: [None]
    when the identifier is left as it is ([continue]), and otherwise the
    value stored in [parent["CompoundIdentifier"]]. *)
Definition dimension_reference (parents_ : list Node) (identifier : json)
  : result (option json) :=
  value ← getitem identifier "value";
  dotted ← py_contains "." value;
  if negb dotted then Ok None
  else
    match value with
    | JStr s =>
        match rsplit_dot s with
        | Some (name_, column) =>
            if bool_decide (name_ ∈ map name parents_) then
              Ok (Some (JList [quoted name_; quoted column]))
            else Raise (Exception_ ("Invalid identifier: " +:+ name_))
        | None => Raise ValueError
        end
    | _ => Raise (External "AttributeError")
    end.

(** The loop
    [for node, parent in list(find_nodes_by_key_with_parent(element, target)):
       if ...: continue
       parent.pop(target); parent[newkey] = <new>]
    with the i-th of [news] telling what the i-th round does: [None] when
    it leaves the parent as it is, [Some new] when it stores [new]. *)
Fixpoint replace_nodes_by_key (element : json) (target newkey : string)
  (news : list (option json)) {struct element} : json * list (option json) :=
  match element with
  | JList items =>
      let '(items, news) :=
        (fix go (items : list json) (news : list (option json)) {struct items} :=
           match items with
           | [] => ([], news)
           | child :: items =>
               let '(child, news) := replace_nodes_by_key child target newkey news in
               let '(items, news) := go items news in
               (child :: items, news)
           end) items news in
      (JList items, news)
  | JDict entries =>
      let '(entries, edit, news) :=
        (fix go (entries : list (string * json)) (news : list (option json))
             {struct entries} :=
           match entries with
           | [] => ([], None, news)
           | (key, value) :: entries =>
               if String.eqb key target then
                 match news with
                 | new :: news =>
                     let '(entries, edit, news) := go entries news in
                     ((key, value) :: entries,
                      match edit with Some e => Some e | None => new end, news)
                 | [] =>
                     let '(entries, edit, news) := go entries [] in
                     ((key, value) :: entries, edit, news)
                 end
               else
                 let '(value, news) := replace_nodes_by_key value target newkey news in
                 let '(entries, edit, news) := go entries news in
                 ((key, value) :: entries, edit, news)
           end) entries news in
      match edit with
      | Some new => (JDict (dict_set newkey new (dict_pop target entries)), news)
      | None => (JDict entries, news)
      end
  | _ => (element, news)
  end.

(** [replace_dimension_references]: the select as the call leaves it. *)
Definition replace_dimension_references (query_select : json) (parents_ : list Node)
  : result json :=
  for_each (λ query_select part,
              tree ← getitem query_select part;
              news ← for_list (dimension_reference parents_)
                       (map fst (find_nodes_by_key_with_parent tree "Identifier"));
              setitem query_select part
                (replace_nodes_by_key tree "Identifier" "CompoundIdentifier" news).1)
           ["projection"; "selection"; "group_by"; "sort_by"] query_select.

(** *** A node with a dimension *)

Definition users : Node := mkNode "core.users" None [].

(** The columns of [core.comments]: [id], and [user_id], which refers to
    the dimension [core.users] without naming a column of it. *)
Definition comments_columns : Node → list Column := λ node,
  if String.eqb (name node) "core.comments" then
    [mkDimensionColumn "id" None None;
     mkDimensionColumn "user_id" (Some users) None]
  else [].

Definition comments_select : gmap string SqlaColumn :=
  {[ "id" := mkColumn "core.comments" "id";
     "user_id" := mkColumn "core.comments" "user_id" ]}.

Definition users_select : gmap string SqlaColumn :=
  {[ "id" := mkColumn "core.users" "id" ]}.

(** The loops of [replace_nodes_by_key] over the items of a list and over
    the entries of a dict. *)
Definition replace_items (target newkey : string)
  : list json → list (option json) → list json * list (option json) :=
  fix go (items : list json) (news : list (option json)) {struct items} :=
    match items with
    | [] => ([], news)
    | child :: items =>
        let '(child, news) := replace_nodes_by_key child target newkey news in
        let '(items, news) := go items news in
        (child :: items, news)
    end.

Definition replace_entries (target newkey : string)
  : list (string * json) → list (option json)
    → list (string * json) * option json * list (option json) :=
  fix go (entries : list (string * json)) (news : list (option json))
      {struct entries} :=
    match entries with
    | [] => ([], None, news)
    | (key, value) :: entries =>
        if String.eqb key target then
          match news with
          | new :: news =>
              let '(entries, edit, news) := go entries news in
              ((key, value) :: entries,
               match edit with Some e => Some e | None => new end, news)
          | [] =>
              let '(entries, edit, news) := go entries [] in
              ((key, value) :: entries, edit, news)
          end
        else
          let '(value, news) := replace_nodes_by_key value target newkey news in
          let '(entries, edit, news) := go entries news in
          ((key, value) :: entries, edit, news)
    end.

(** The select of [SELECT total FROM metrics], which refers to no
    dimension. *)
Definition metrics_select : json :=
  JDict [("distinct", JBool false);
         ("projection",
          JList [JDict [("UnnamedExpr",
                         JDict [("Identifier",
                                 JDict [("value", JStr "total");
                                        ("quote_style", JNone)])])]]);
         ("from", JList [from_table ["metrics"] JNone]);
         ("selection", JNone);
         ("group_by", JList []);
         ("sort_by", JList [])].

(** *** Two databases of the same cost *)





(** *** A subquery that uses the alias of the outer query *)

(** An engine with the tables [main.sales] and [main.other]. *)
Definition alias_engine : Engine := λ table schema,
  if py_eqb schema (JStr "main") then
    if py_eqb table (JStr "sales") then Ok [JStr "event_time"; JStr "price"]
    else if py_eqb table (JStr "other") then Ok [JStr "event_time"; JStr "amount"]
    else Raise (External "NoSuchTableError")
  else Raise (External "NoSuchTableError").

Definition table_alias (alias : string) : json :=
  JDict [("name", ident alias); ("columns", JList [])].

(** The parse tree of a query with the select [select]. *)
Definition query_of (select : json) : json :=
  JDict [("with", JNone); ("body", JDict [("Select", select)]);
         ("order_by", JList []); ("limit", JNone)].

(** [SELECT s.event_time FROM <table> AS <alias>] with an optional
    [WHERE]. *)
Definition select_event_time (table alias : string) (selection : json) : json :=
  JDict [("distinct", JBool false);
         ("projection",
          JList [JDict [("UnnamedExpr",
                         JDict [("CompoundIdentifier",
                                 JList [ident "s"; ident "event_time"])])]]);
         ("from", JList [from_table [table] (table_alias alias)]);
         ("selection", selection);
         ("group_by", JList [])].

(** [SELECT s.event_time FROM sales AS s
     WHERE s.event_time IN (SELECT s.event_time FROM other AS <alias>)] *)
Definition shadowing_query (alias : string) : json :=
  JDict [("Query",
          query_of
            (select_event_time "sales" "s"
               (JDict [("InSubquery",
                        JDict [("expr",
                                JDict [("CompoundIdentifier",
                                        JList [ident "s"; ident "event_time"])]);
                               ("subquery",
                                query_of (select_event_time "other" alias JNone));
                               ("negated", JBool false)])])))].

(** The qualified name of a table of the schema [main] of [postgres]. *)
Definition main_table (table : string) : list json :=
  make_prefix "postgres" None (Some "main") ++ [ident table].


(** The identifiers and the compound identifiers of [b] are those of [a]. *)
Definition same_columns (a b : json) : Prop :=
  find_nodes_by_key b "Identifier" = find_nodes_by_key a "Identifier"
  ∧ find_nodes_by_key b "CompoundIdentifier"
    = find_nodes_by_key a "CompoundIdentifier".






(** *** Dimension references of a select *)

(** The identifiers a loop leaves in place: those of [ids] whose round, the
    one of [news] at the same position, stored nothing. *)
Fixpoint kept (ids : list json) (news : list (option json)) : list json :=
  match ids, news with
  | id_ :: ids, None :: news => id_ :: kept ids news
  | _ :: ids, Some _ :: news => kept ids news
  | _, _ => []
  end.

(** An identifier that refers to no dimension: its value has no dot. *)
Definition undotted (id_ : json) : Prop :=
  ∃ v, getitem id_ "value" = Ok v ∧ py_contains "." v = Ok false.

(** The identifier [id_] names a column of one of the parents, and [new] is
    the compound identifier of the parent and the column, both in double
    quotes. *)
Definition refers_to (parents_ : list Node) (id_ new : json) : Prop :=
  ∃ name_ column,
    getitem id_ "value" = Ok (JStr (name_ +:+ "." +:+ column))
    ∧ is_infix "." column = false
    ∧ name_ ∈ map name parents_
    ∧ new = JList [quoted name_; quoted column].

Definition quoted_identifier (value : string) : json :=
  JDict [("Identifier",
          JDict [("value", JStr value); ("quote_style", JStr double_quote)])].

(** The select of
    [SELECT "core.comments.user_id", total FROM metrics
     GROUP BY "core.comments.user_id"]. *)
Definition dimension_select : json :=
  JDict [("distinct", JBool false);
         ("projection",
          JList [JDict [("UnnamedExpr", quoted_identifier "core.comments.user_id")];
                 JDict [("UnnamedExpr",
                         JDict [("Identifier",
                                 JDict [("value", JStr "total");
                                        ("quote_style", JNone)])])]]);
         ("from", JList [from_table ["metrics"] JNone]);
         ("selection", JNone);
         ("group_by", JList [quoted_identifier "core.comments.user_id"]);
         ("sort_by", JList [])].

(** The select [replace_dimension_references] makes of it. *)
Definition replaced_dimension_select : json :=
  Eval vm_compute in
    match replace_dimension_references dimension_select [comments] with
    | Ok select => select
    | Raise _ => JNone
    end.

(** *** The aliases of a select *)

(** The value of the alias of a table reference, when it has one:
    [table["alias"]["name"]["value"]]. *)
Definition alias_value (table : json) : option json :=
  match getitem table "alias" with
  | Ok alias =>
      if is_none alias then None
      else
        match getitem alias "name" ≫= (λ alias_name, getitem alias_name "value") with
        | Ok v => Some v
        | Raise _ => None
        end
  | Raise _ => None
  end.

(** The table the alias [value] stands for among [tables]: the last one, in
    the order of the search, whose alias has that value. *)
Fixpoint aliased (value : json) (tables : list json) : option json :=
  match tables with
  | [] => None
  | table :: tables =>
      match aliased value tables with
      | Some owner => Some owner
      | None =>
          match alias_value table with
          | Some v => if py_eqb v value then Some table else None
          | None => None
          end
      end
  end.

(* ================================================================== *)
(** * Theorems *)

(** ** Dicts *)

Lemma dict_get_set_eq {V} key (v : V) entries :
  dict_get key (dict_set key v entries) = Some v.
Proof.
  induction entries as [|[k w] entries IH]; simpl.
  - by rewrite String.eqb_refl.
  - destruct (String.eqb k key) eqn:E; simpl; by rewrite ?E.
Qed.

Lemma dict_get_set_ne {V} key key' (v : V) entries :
  key ≠ key' → dict_get key' (dict_set key v entries) = dict_get key' entries.
Proof.
  intros Hne. induction entries as [|[k w] entries IH]; simpl.
  - destruct (String.eqb_spec key key'); done.
  - destruct (String.eqb_spec k key) as [->|]; simpl.
    + destruct (String.eqb_spec key key'); done.
    + by rewrite IH.
Qed.

Lemma dict_set_set {V} key (v w : V) entries :
  dict_set key v (dict_set key w entries) = dict_set key v entries.
Proof.
  induction entries as [|[k u] entries IH]; simpl.
  - by rewrite String.eqb_refl.
  - destruct (String.eqb k key) eqn:E; simpl; rewrite E; by rewrite ?IH.
Qed.

(** ** The result monad *)

Lemma bind_Ok {A B} (a : A) (f : A → result B) : (Ok a ≫= f) = f a.
Proof. reflexivity. Qed.

Lemma bind_Raise {A B} e (f : A → result B) : (Raise e ≫= f) = Raise e.
Proof. reflexivity. Qed.

Lemma bind_Ok_inv {A B} (m : result A) (f : A → result B) b :
  m ≫= f = Ok b → ∃ a, m = Ok a ∧ f a = Ok b.
Proof. destruct m as [a|e]; [eauto | discriminate]. Qed.

Ltac inv_bind H :=
  let a := fresh "a" in
  let Ha := fresh "H" a in
  apply bind_Ok_inv in H as (a & Ha & H).

(** ** Comparison of name parts *)

Definition has_value (part : json) : Prop :=
  ∃ v, getitem part "value" = Ok v.

(** Two states of one permission part: [matches_permission] may have
    replaced its ["null"] by [None] or not. *)
Definition same_part (a b : json) : Prop :=
  normalize_part a = normalize_part b ∧ (has_value a → has_value b).

Lemma normalize_part_idem part :
  normalize_part (normalize_part part) = normalize_part part.
Proof.
  destruct part as [| | | | |entries]; try done. simpl.
  destruct (dict_get "value" entries) as [v|] eqn:Hv; simpl; [|by rewrite Hv].
  destruct (py_eqb v (JStr NULL)) eqn:Hn; simpl.
  - by rewrite dict_get_set_eq.
  - by rewrite Hv, Hn.
Qed.

Lemma has_value_normalize part : has_value part → has_value (normalize_part part).
Proof.
  intros [v Hv]. destruct part as [| | | | |entries]; try done. simpl in *.
  destruct (dict_get "value" entries) as [w|] eqn:Hw; [|done].
  destruct (py_eqb w (JStr NULL)); [|by exists w; simpl; rewrite Hw].
  exists JNone. simpl. by rewrite dict_get_set_eq.
Qed.

Lemma same_part_refl a : same_part a a.
Proof. by split. Qed.

Lemma same_part_normalize a : same_part a (normalize_part a).
Proof. split; [by rewrite normalize_part_idem | apply has_value_normalize]. Qed.

Lemma same_part_trans a b c : same_part a b → same_part b c → same_part a c.
Proof. intros [H1 H2] [H3 H4]. split; [congruence | auto]. Qed.

Lemma parts_match_same lefts lefts' rights :
  Forall2 same_part lefts lefts' →
  parts_match lefts' rights = parts_match lefts rights.
Proof.
  intros H. revert rights.
  induction H as [|a b l l' [Hab _] _ IH]; intros [|r rights]; try done.
  unfold parts_match in *. simpl. unfold part_matches at 1 3. simpl.
  by rewrite Hab, IH.
Qed.

(** The first two statements of the loop body leave [normalize_part left]. *)
Lemma normalize_step {B} left_ (k : json → result B) :
  has_value left_ →
  (value ← getitem left_ "value";
   left_ ← (if py_eqb value (JStr NULL) then setitem left_ "value" JNone
            else Ok left_);
   k left_) = k (normalize_part left_).
Proof.
  intros [v Hv]. rewrite Hv, bind_Ok.
  destruct left_ as [| | | | |entries]; try done. simpl in Hv |- *.
  destruct (dict_get "value" entries) as [w|]; [|done].
  injection Hv as ->. by destruct (py_eqb v (JStr NULL)).
Qed.

Lemma compare_parts_spec lefts rights :
  Forall has_value lefts →
  ∃ lefts', compare_parts lefts rights = Ok (lefts', parts_match lefts rights)
            ∧ Forall2 same_part lefts lefts'.
Proof.
  intros H. revert rights. induction H as [|left_ lefts Hl _ IH]; intros rights.
  - exists []. by destruct rights.
  - destruct rights as [|right_ rights].
    + exists (left_ :: lefts). split; [done|].
      constructor; [apply same_part_refl|].
      by apply Forall_Forall2_diag, Forall_true, same_part_refl.
    + simpl. rewrite (normalize_step left_ _ Hl).
      unfold parts_match. simpl. unfold part_matches at 1. simpl.
      destruct (py_eqb (normalize_part left_) right_); simpl.
      * destruct (IH rights) as (lefts' & -> & Hsame). rewrite bind_Ok.
        exists (normalize_part left_ :: lefts'). split; [done|].
        constructor; [apply same_part_normalize | done].
      * exists (normalize_part left_ :: lefts). split; [done|].
        constructor; [apply same_part_normalize|].
        by apply Forall_Forall2_diag, Forall_true, same_part_refl.
Qed.

(** Two states of one allowed table. *)
Definition same_table (a b : json) : Prop :=
  ∃ l l', a = JList l ∧ b = JList l' ∧ Forall2 same_part l l'.

(** An allowed table [matches_permission] can compare without raising. *)
Definition comparable (allowed_table : json) : Prop :=
  ∃ l, allowed_table = JList l ∧ Forall has_value l.

Lemma same_part_has_value l l' :
  Forall2 same_part l l' → Forall has_value l → Forall has_value l'.
Proof.
  induction 1 as [|a b l l' [_ Hab] _ IH]; [done|].
  intros [Ha Hl]%Forall_cons. constructor; auto.
Qed.

Lemma same_table_comparable a b : same_table a b → comparable a → comparable b.
Proof.
  intros (l & l' & -> & -> & Hs) (l0 & [= <-] & Hv).
  exists l'. eauto using same_part_has_value.
Qed.

Lemma same_table_trans a b c : same_table a b → same_table b c → same_table a c.
Proof.
  intros (l & l' & -> & -> & H1) (l0 & l'' & [= <-] & -> & H2).
  exists l, l''. repeat split; try done.
  revert l'' H2. induction H1; intros l'' H2; inversion H2; subst; constructor;
    eauto using same_part_trans.
Qed.

Lemma same_table_match a b rights :
  same_table a b →
  parts_match (items_of b) rights = parts_match (items_of a) rights.
Proof. intros (l & l' & -> & -> & H). by apply parts_match_same. Qed.

Lemma compare_table_spec allowed_table rights :
  comparable allowed_table →
  ∃ allowed_table',
    compare_table allowed_table (JList rights)
    = Ok (allowed_table', parts_match (items_of allowed_table) rights)
    ∧ same_table allowed_table allowed_table'.
Proof.
  intros (l & -> & Hv). unfold compare_table. simpl.
  destruct (compare_parts_spec l rights Hv) as (l' & -> & Hs). simpl.
  exists (JList l'). split; [done|]. by exists l, l'.
Qed.

Lemma match_table_spec table rights allowed_tables :
  getitem table "name" = Ok (JList rights) →
  Forall comparable allowed_tables →
  ∃ allowed_tables',
    match_table table allowed_tables
    = Ok (allowed_tables',
          existsb (λ a, parts_match (items_of a) rights) allowed_tables)
    ∧ Forall2 same_table allowed_tables allowed_tables'.
Proof.
  intros Hname. induction 1 as [|a allowed Ha _ IH].
  - by exists [].
  - simpl. rewrite Hname, bind_Ok.
    destruct (compare_table_spec a rights Ha) as (a' & -> & Hs). rewrite bind_Ok.
    destruct IH as (allowed' & -> & Hall). rewrite bind_Ok.
    exists (a' :: allowed'). split; [done | by constructor].
Qed.

Lemma existsb_same_table allowed allowed' rights :
  Forall2 same_table allowed allowed' →
  existsb (λ a, parts_match (items_of a) rights) allowed'
  = existsb (λ a, parts_match (items_of a) rights) allowed.
Proof.
  induction 1 as [|a b l l' Hab _ IH]; [done|]. simpl.
  by rewrite (same_table_match a b), IH.
Qed.

Lemma Forall2_same_table_trans l1 l2 l3 :
  Forall2 same_table l1 l2 → Forall2 same_table l2 l3 → Forall2 same_table l1 l3.
Proof.
  intros H. revert l3. induction H; intros l3 H3; inversion H3; subst;
    constructor; eauto using same_table_trans.
Qed.

Lemma Forall2_same_table_comparable l1 l2 :
  Forall2 same_table l1 l2 → Forall comparable l1 → Forall comparable l2.
Proof.
  induction 1; [done|]. intros [??]%Forall_cons.
  constructor; eauto using same_table_comparable.
Qed.

(** The table check on the allowed tables as the previous rounds left them
    decides what it decides on the allowed tables as parsed. *)
Lemma match_tables_spec tables allowed0 allowed :
  Forall2 same_table allowed0 allowed →
  Forall comparable allowed0 →
  Forall (λ table, ∃ rights, getitem table "name" = Ok (JList rights)) tables →
  match_tables tables allowed
  = Ok (forallb (λ table,
                   existsb (λ a, parts_match (items_of a) (name_parts table)) allowed0)
                tables).
Proof.
  intros Hs Hc Ht. revert allowed Hs.
  induction Ht as [|table tables (rights & Hname) _ IH]; intros allowed Hs; [done|].
  simpl.
  destruct (match_table_spec table rights allowed Hname) as (allowed' & -> & Hs').
  { eauto using Forall2_same_table_comparable. }
  rewrite bind_Ok. unfold name_parts at 1. rewrite Hname.
  rewrite (existsb_same_table allowed0 allowed rights Hs).
  destruct (existsb _ allowed0); simpl; [|done].
  apply IH. eauto using Forall2_same_table_trans.
Qed.

(** ** Identifiers *)

Definition parsed_ident (i : Ident) : json :=
  JDict [("value", json_of_option (value i));
         ("quote_style", json_of_option (quote_style i))].

Definition prefix_ident (i : Ident) : json :=
  JDict [("quote_style", json_of_option (quote_style i));
         ("value", json_of_option (value i))].

Lemma string_of_json_inv v o : string_of_json v = Some o → v = json_of_option o.
Proof. destruct v; simpl; intros [= <-]; done. Qed.

Lemma decode_ident_inv part i :
  decode_ident part = Some i → part = parsed_ident i ∨ part = prefix_ident i.
Proof.
  destruct part as [| | | | |[|[k1 v1] [|[k2 v2] [|]]]]; try done. simpl.
  destruct (String.eqb_spec k1 "value") as [->|]; simpl.
  - destruct (String.eqb_spec k2 "quote_style") as [->|]; simpl.
    + destruct (string_of_json v1) as [v|] eqn:Hv; [|done].
      destruct (string_of_json v2) as [q|] eqn:Hq; [|done].
      simpl. intros [= <-]. left. unfold parsed_ident. simpl.
      by rewrite (string_of_json_inv _ _ Hv), (string_of_json_inv _ _ Hq).
    + destruct (String.eqb_spec k2 "value"); simpl; done.
  - destruct (String.eqb_spec k1 "quote_style") as [->|]; simpl; [|done].
    destruct (String.eqb_spec k2 "value") as [->|]; simpl; [|done].
    destruct (string_of_json v2) as [v|] eqn:Hv; [|done].
    destruct (string_of_json v1) as [q|] eqn:Hq; [|done].
    simpl. intros [= <-]. right. unfold prefix_ident. simpl.
    by rewrite (string_of_json_inv _ _ Hv), (string_of_json_inv _ _ Hq).
Qed.

Lemma decode_ident_has_value part i : decode_ident part = Some i → has_value part.
Proof.
  intros [->| ->]%decode_ident_inv; eexists; reflexivity.
Qed.

Lemma string_eqb_decide (s t : string) : String.eqb s t = bool_decide (s = t).
Proof.
  destruct (String.eqb_spec s t);
    [by rewrite bool_decide_true | by rewrite bool_decide_false].
Qed.

Lemma json_of_option_eqb (a b : option string) :
  py_eqb (json_of_option a) (json_of_option b) = bool_decide (a = b).
Proof.
  destruct a as [s|], b as [t|]; simpl; try done.
  rewrite string_eqb_decide. apply bool_decide_ext. naive_solver.
Qed.

Lemma ident_py_eqb a b i j :
  (a = parsed_ident i ∨ a = prefix_ident i) →
  (b = parsed_ident j ∨ b = prefix_ident j) →
  py_eqb a b
  = bool_decide (quote_style i = quote_style j) && bool_decide (value i = value j).
Proof.
  intros [-> | ->] [-> | ->]; unfold parsed_ident, prefix_ident; simpl;
    rewrite !json_of_option_eqb;
    destruct (bool_decide (value i = value j)),
             (bool_decide (quote_style i = quote_style j)); done.
Qed.

Lemma normalize_ident a i :
  (a = parsed_ident i ∨ a = prefix_ident i) →
  let i' := if bool_decide (value i = Some NULL) then mkIdent None (quote_style i)
            else i in
  normalize_part a = parsed_ident i' ∨ normalize_part a = prefix_ident i'.
Proof.
  intros Ha. destruct i as [[s|] q]; simpl.
  - destruct (String.eqb_spec s NULL) as [->|Hne].
    + rewrite bool_decide_true by done. destruct Ha as [-> | ->]; simpl; auto.
    + rewrite bool_decide_false by congruence.
      apply String.eqb_neq in Hne.
      destruct Ha as [-> | ->]; simpl; rewrite Hne; auto.
  - destruct Ha as [-> | ->]; simpl; auto.
Qed.

Lemma decode_part_matches left_ right_ i j :
  decode_ident left_ = Some i → decode_ident right_ = Some j →
  part_matches left_ right_ = ident_matches i j.
Proof.
  intros Hi%decode_ident_inv Hj%decode_ident_inv.
  unfold part_matches, ident_matches.
  rewrite (ident_py_eqb _ _ _ j (normalize_ident _ _ Hi) Hj).
  destruct (bool_decide (value i = Some NULL)) eqn:Hn; simpl; [|done].
  f_equal. apply bool_decide_ext. naive_solver.
Qed.

Lemma decode_parts_match lefts rights is_ js :
  mapM decode_ident lefts = Some is_ → mapM decode_ident rights = Some js →
  parts_match lefts rights = name_matches is_ js.
Proof.
  intros H Hr. apply mapM_Some in H. apply mapM_Some in Hr. revert rights js Hr.
  induction H as [|l i lefts is_ Hl _ IH]; intros rights js Hr; [done|].
  destruct Hr as [|r j rights js Hr Hrs]; [done|].
  unfold parts_match, name_matches in *. simpl.
  by rewrite (decode_part_matches l r i j), (IH rights js).
Qed.

Lemma decode_name_inv table name :
  decode_name table = Some name →
  ∃ parts, getitem table "name" = Ok (JList parts)
           ∧ mapM decode_ident parts = Some name.
Proof.
  destruct table as [| | | | |entries]; try done. simpl.
  destruct (dict_get "name" entries) as [[| | | |parts|]|]; try done. eauto.
Qed.

Lemma decode_name_parts table name :
  decode_name table = Some name →
  mapM decode_ident (name_parts table) = Some name.
Proof.
  intros (parts & Hn & Hd)%decode_name_inv. unfold name_parts. by rewrite Hn.
Qed.

Lemma decode_name_comparable table name :
  decode_name table = Some name → comparable (JList (name_parts table)).
Proof.
  intros H%decode_name_parts. eexists. split; [done|].
  apply mapM_Some in H. induction H; constructor; eauto using decode_ident_has_value.
Qed.

Lemma allowed_tables_spec found names :
  mapM decode_name found = Some names →
  for_list (λ table, getitem table "name") found
  = Ok (map (λ table, JList (name_parts table)) found).
Proof.
  rewrite mapM_Some. induction 1 as [|t n found names Ht _ IH]; [done|].
  simpl. destruct (decode_name_inv _ _ Ht) as (parts & Hn & _).
  unfold name_parts at 1. rewrite Hn, bind_Ok, IH. done.
Qed.

(** [matches_permission] on statements whose table names are lists of
    identifiers: no exception, and the result is the comparison of the
    identifiers. *)
Lemma matches_permission_names query permission query_names allowed_names :
  table_names query = Some query_names →
  table_names permission = Some allowed_names →
  matches_permission query permission = Ok (tables_allowed query_names allowed_names).
Proof.
  unfold table_names, matches_permission. intros Hq Hp.
  rewrite (allowed_tables_spec _ _ Hp), bind_Ok.
  set (allowed := map _ _).
  rewrite (match_tables_spec _ allowed allowed).
  - f_equal. unfold tables_allowed.
    apply mapM_Some in Hq. apply mapM_Some in Hp.
    induction Hq as [|t n ts ns Ht _ IH]; [done|]. simpl. rewrite IH. f_equal.
    apply decode_name_parts in Ht. subst allowed. clear -Ht Hp.
    induction Hp as [|a m found names Ha _ IH]; [done|]. simpl. rewrite IH. f_equal.
    apply decode_name_parts in Ha. by apply decode_parts_match.
  - subst allowed. clear. induction (find_nodes_by_key permission "Table"); simpl;
      constructor; [|done].
    eexists _, _. repeat split.
    apply Forall_Forall2_diag, Forall_true, same_part_refl.
  - subst allowed. apply mapM_Some in Hp. clear -Hp.
    induction Hp; simpl; constructor; eauto using decode_name_comparable.
  - apply mapM_Some in Hq. clear -Hq.
    induction Hq as [|t n ts ns Ht _ IH]; constructor; [|done].
    destruct (decode_name_inv _ _ Ht) as (parts & ? & _). eauto.
Qed.

Lemma forallb_zip_lookup {A B} (f : A * B → bool) (l : list A) (r : list B) :
  forallb f (zip l r) = true
  ↔ ∀ k a b, l !! k = Some a → r !! k = Some b → f (a, b) = true.
Proof.
  revert r. induction l as [|a l IH]; intros [|b r]; simpl; try (split; [|done]).
  - by intros _ k ??; rewrite lookup_nil.
  - by intros _ k ??; rewrite lookup_nil.
  - by intros _ k ?? _; rewrite lookup_nil.
  - rewrite andb_true_iff, IH. split.
    + intros [Hab H] [|k] a' b'; simpl; [by intros [= <-] [= <-] | apply H].
    + intros H. split; [by apply (H 0%nat) | intros k; apply (H (S k))].
Qed.

Lemma ident_matches_spec left_ right_ :
  ident_matches left_ right_ = true
  ↔ quote_style left_ = quote_style right_
    ∧ (if decide (value left_ = Some NULL) then value right_ = None
       else value left_ = value right_).
Proof.
  unfold ident_matches. rewrite andb_true_iff, bool_decide_eq_true.
  unfold bool_decide at 1.
  destruct (decide_rel eq (value left_) (Some NULL)), (decide (value left_ = Some NULL));
    try done; by rewrite bool_decide_eq_true.
Qed.

Lemma tables_allowed_spec query_names allowed_names :
  tables_allowed query_names allowed_names = true
  ↔ ∀ name, name ∈ query_names →
      ∃ allowed_table, allowed_table ∈ allowed_names ∧
        ∀ k left_ right_,
          allowed_table !! k = Some left_ → name !! k = Some right_ →
          quote_style left_ = quote_style right_
          ∧ (if decide (value left_ = Some NULL) then value right_ = None
             else value left_ = value right_).
Proof.
  unfold tables_allowed. rewrite forallb_forall. split.
  - intros H name Hin%list_elem_of_In. apply H in Hin.
    apply existsb_exists in Hin as (allowed & Hin%list_elem_of_In & Hm).
    exists allowed. split; [done|]. intros k l r Hl Hr.
    apply ident_matches_spec. unfold name_matches in Hm.
    by apply (proj1 (forallb_zip_lookup _ _ _) Hm k l r).
  - intros H name Hin%list_elem_of_In. destruct (H name Hin) as (allowed & Ha & Hk).
    apply existsb_exists. exists allowed. split; [by apply list_elem_of_In|].
    apply forallb_zip_lookup. intros k l r Hl Hr. apply ident_matches_spec. eauto.
Qed.

(** ** C1 *)

(** C1 (as amended): on statements whose table names are lists of
    identifiers, [matches_permission] raises nothing and returns [True]
    exactly when every table of the query has a table of the permission such
    that, position by position up to the shorter of the two names, the two
    parts have the same quote style and either the permission part is named
    ["null"] and the query part has no value (the part [prepare_tree] adds for
    a catalog or schema the caller left out), or the permission part is not
    named ["null"] and both have the same value.  A part named ["null"]
    stands for an absent part; it is not a wildcard. *)
Theorem matches_permission_null_part query permission query_names allowed_names :
  table_names query = Some query_names →
  table_names permission = Some allowed_names →
  (∃ b, matches_permission query permission = Ok b) ∧
  (matches_permission query permission = Ok true
   ↔ ∀ name, name ∈ query_names →
       ∃ allowed_table, allowed_table ∈ allowed_names ∧
         ∀ k left_ right_,
           allowed_table !! k = Some left_ → name !! k = Some right_ →
           quote_style left_ = quote_style right_
           ∧ (if decide (value left_ = Some NULL) then value right_ = None
              else value left_ = value right_)).
Proof.
  intros Hq Hp. rewrite (matches_permission_names _ _ _ _ Hq Hp).
  split; [eauto|]. rewrite <- tables_allowed_spec. split; [by intros [= ->] | by intros ->].
Qed.

(** The pattern [("null", c, s, t)] of the permission wildcard property:
    it matches the four-part names [(None, c, s, t)] and only those. *)
Lemma null_pattern_matches (d c s t x1 x2 x3 x4 : Ident) :
  value d = Some NULL → value c ≠ Some NULL → value s ≠ Some NULL →
  value t ≠ Some NULL →
  name_matches [d; c; s; t] [x1; x2; x3; x4] = true
  ↔ (value x1 = None ∧ quote_style x1 = quote_style d)
    ∧ x2 = c ∧ x3 = s ∧ x4 = t.
Proof.
  intros Hd Hc Hs Ht. unfold name_matches. simpl.
  rewrite !andb_true_iff, !ident_matches_spec.
  repeat case_decide; try done.
  destruct c, s, t, x2, x3, x4; simpl in *.
  split.
  - intros ([? ?] & [? ?] & [? ?] & [? ?] & _). repeat split; congruence.
  - intros ([? ?] & ? & ? & ?). simplify_eq. repeat split; congruence.
Qed.

(** C1 (as stated) fails: [SELECT * FROM hive.main.sales], qualified for the
    database [postgres], names the table [(postgres, hive, main, sales)];
    the permission pattern [("null", hive, main, sales)] does not match it. *)
Lemma null_part_is_not_a_wildcard :
  ∃ statement,
    prepare_tree test_engine "postgres" None None hive_sales_query = Ok [statement]
    ∧ table_names statement
      = Some [[mkIdent (Some "postgres") None; mkIdent (Some "hive") None;
               mkIdent (Some "main") None; mkIdent (Some "sales") None]]
    ∧ table_names null_hive_permission
      = Some [[mkIdent (Some "null") None; mkIdent (Some "hive") None;
               mkIdent (Some "main") None; mkIdent (Some "sales") None]]
    ∧ matches_permission statement null_hive_permission = Ok false.
Proof. eexists. repeat split; vm_compute; reflexivity. Qed.

Lemma matches_permission_null_part_witness :
  matches_permission qualified_sales_statement null_main_permission = Ok true.
Proof.
  apply (matches_permission_null_part qualified_sales_statement null_main_permission
           [[mkIdent (Some "postgres") None; mkIdent None None;
             mkIdent (Some "main") None; mkIdent (Some "sales") None]]
           [[mkIdent (Some "postgres") None; mkIdent (Some "null") None;
             mkIdent (Some "main") None; mkIdent (Some "sales") None]]
           eq_refl eq_refl).
  intros name ->%list_elem_of_singleton. eexists. split; [by left|].
  intros [|[|[|[|k]]]] l r; simpl; intros [= <-] [= <-]; done.
Defined.

(** ** all and any *)

Lemma py_all_true_inv {A} (f : A → result bool) l :
  py_all f l = Ok true → ∀ x, x ∈ l → f x = Ok true.
Proof.
  induction l as [|a l IH]; simpl; intros H x Hx; [by apply elem_of_nil in Hx|].
  inv_bind H. destruct a0; [|done].
  apply elem_of_cons in Hx as [->|Hx]; auto.
Qed.

Lemma py_any_true_inv {A} (f : A → result bool) l :
  py_any f l = Ok true → ∃ x, x ∈ l ∧ f x = Ok true.
Proof.
  induction l as [|a l IH]; simpl; intros H; [done|].
  inv_bind H. destruct a0.
  - exists a. split; [left | done].
  - destruct (IH H) as (x & Hx & Hf). exists x. split; [by right | done].
Qed.

Lemma py_all_spec {A} (f : A → result bool) l :
  (∀ x, x ∈ l → ∃ b, f x = Ok b) →
  ∃ b, py_all f l = Ok b
       ∧ (b = true ↔ ∀ x, x ∈ l → f x = Ok true)
       ∧ (b = false ↔ ∃ x, x ∈ l ∧ f x = Ok false).
Proof.
  induction l as [|a l IH]; simpl; intros Hok.
  - exists true. repeat split; try done.
    + by intros _ x ?%elem_of_nil.
    + by intros (x & ?%elem_of_nil & _).
  - destruct (Hok a) as [b Hb]; [left|]. rewrite Hb, bind_Ok. destruct b.
    + destruct IH as (b & -> & Htrue & Hfalse); [intros; apply Hok; by right|].
      exists b. split; [done|]. rewrite Htrue, Hfalse. split; split.
      * intros H x [->|Hx]%elem_of_cons; auto.
      * intros H x Hx. apply H. by right.
      * intros (x & Hx & Hf). exists x. split; [by right | done].
      * intros (x & [->|Hx]%elem_of_cons & Hf); [congruence | eauto].
    + exists false. repeat split; try done.
      * intros H. specialize (H a (list_elem_of_here _ _)). congruence.
      * intros _. exists a. split; [left | done].
Qed.

Lemma py_any_spec {A} (f : A → result bool) l :
  (∀ x, x ∈ l → ∃ b, f x = Ok b) →
  ∃ b, py_any f l = Ok b
       ∧ (b = true ↔ ∃ x, x ∈ l ∧ f x = Ok true)
       ∧ (b = false ↔ ∀ x, x ∈ l → f x = Ok false).
Proof.
  induction l as [|a l IH]; simpl; intros Hok.
  - exists false. repeat split; try done.
    + by intros (x & ?%elem_of_nil & _).
    + by intros _ x ?%elem_of_nil.
  - destruct (Hok a) as [b Hb]; [left|]. rewrite Hb, bind_Ok. destruct b.
    + exists true. repeat split; try done.
      * intros _. exists a. split; [left|done].
      * intros H. specialize (H a (list_elem_of_here _ _)). congruence.
    + destruct IH as (b & -> & Htrue & Hfalse); [intros; apply Hok; by right|].
      exists b. split; [done|]. rewrite Htrue, Hfalse. split; split.
      * intros (x & Hx & Hf). exists x. split; [by right | done].
      * intros (x & [->|Hx]%elem_of_cons & Hf); [congruence | eauto].
      * intros H x [->|Hx]%elem_of_cons; auto.
      * intros H x Hx. apply H. by right.
Qed.

Lemma py_all_const_true {A} (l : list A) : py_all (λ _, Ok true) l = Ok true.
Proof. induction l; simpl; auto. Qed.

(** ** C10 and C2: verify_statement and verify_query *)

Section verification.
Context (parse_sql : Parser) (engine : Engine).
Context (database : string) (catalog schema : option string).

Lemma verify_statement_true_inv statement permissions :
  verify_statement parse_sql statement permissions = Ok true →
  ∀ permission, permission ∈ permissions → passes parse_sql statement permission.
Proof.
  intros H permission Hin.
  apply (py_all_true_inv _ _ H) in Hin.
  apply bind_Ok_inv in Hin as (statements & Hparse & Hany).
  apply py_any_true_inv in Hany as (ps & Hps & Hm). by exists statements, ps.
Qed.

Lemma verify_permission_spec statement permission statements :
  parse_sql permission = Ok statements →
  (∀ ps, ps ∈ statements → ∃ b, matches_permission statement ps = Ok b) →
  ∃ b, (statements ← parse_sql permission;
        py_any (matches_permission statement) statements) = Ok b
       ∧ (b = true ↔ passes parse_sql statement permission).
Proof.
  intros Hparse Hm. rewrite Hparse, bind_Ok.
  destruct (py_any_spec _ statements Hm) as (b & -> & Htrue & _).
  exists b. split; [done|]. rewrite Htrue. split.
  - intros (ps & ? & ?). by exists statements, ps.
  - intros (sts & ps & Hp & Hin & Hps). rewrite Hparse in Hp.
    injection Hp as <-. by exists ps.
Qed.

Lemma verify_statement_spec statement permissions :
  comparable_with parse_sql permissions statement →
  ∃ b, verify_statement parse_sql statement permissions = Ok b
       ∧ (b = true ↔ ∀ permission, permission ∈ permissions →
                        passes parse_sql statement permission)
       ∧ (b = false ↔ ∃ permission, permission ∈ permissions
                        ∧ ¬ passes parse_sql statement permission).
Proof.
  intros Hok. unfold verify_statement.
  destruct (py_all_spec
              (λ permission, statements ← parse_sql permission;
                             py_any (matches_permission statement) statements)
              permissions) as (b & Hb & Htrue & Hfalse).
  { intros p Hp. destruct (Hok p Hp) as (sts & Hparse & Hm).
    destruct (verify_permission_spec statement p sts Hparse Hm) as (b & ? & _). eauto. }
  exists b. split; [done|]. rewrite Htrue, Hfalse. split; split.
  - intros H p Hp. destruct (Hok p Hp) as (sts & Hparse & Hm).
    destruct (verify_permission_spec statement p sts Hparse Hm) as (b' & Hb' & Hiff).
    apply Hiff. specialize (H p Hp). congruence.
  - intros H p Hp. destruct (Hok p Hp) as (sts & Hparse & Hm).
    destruct (verify_permission_spec statement p sts Hparse Hm) as (b' & Hb' & Hiff).
    rewrite Hb'. f_equal. by apply Hiff, H.
  - intros (p & Hp & Hf). exists p. split; [done|].
    destruct (Hok p Hp) as (sts & Hparse & Hm).
    destruct (verify_permission_spec statement p sts Hparse Hm) as (b' & Hb' & Hiff).
    intros Hpass%Hiff. congruence.
  - intros (p & Hp & Hnot). exists p. split; [done|].
    destruct (Hok p Hp) as (sts & Hparse & Hm).
    destruct (verify_permission_spec statement p sts Hparse Hm) as (b' & Hb' & Hiff).
    rewrite Hb'. destruct b'; [|done]. exfalso. by apply Hnot, Hiff.
Qed.

(** C10: with an empty list of permissions [verify_statement] returns
    [True] for every statement, so a query that parses and whose
    qualification succeeds is permitted when no permissions are
    supplied. *)
Theorem verify_without_permissions query tree tree' :
  parse_sql query = Ok tree →
  prepare_tree engine database catalog schema tree = Ok tree' →
  (∀ statement, verify_statement parse_sql statement [] = Ok true)
  ∧ verify_query parse_sql query engine database catalog schema [] = Ok true.
Proof.
  intros Hparse Hprepare. split; [done|].
  unfold verify_query. rewrite Hparse, bind_Ok, Hprepare, bind_Ok.
  apply py_all_const_true.
Qed.

(** C2: [verify_query] returns [True] only if the query parses, its
    qualification succeeds, and every statement of the qualified query
    passes every permission, that is, matches at least one of the
    statements the permission parses to.  Conversely, when the query
    parses and is qualified, the permissions parse and no comparison
    raises, [verify_query] returns a boolean, which is [True] exactly when
    every statement passes every permission, and [False] exactly when one
    statement fails one permission. *)
Theorem verify_query_iff query permissions :
  (verify_query parse_sql query engine database catalog schema permissions = Ok true →
   ∃ tree tree',
     parse_sql query = Ok tree
     ∧ prepare_tree engine database catalog schema tree = Ok tree'
     ∧ ∀ statement, statement ∈ tree' →
         ∀ permission, permission ∈ permissions → passes parse_sql statement permission)
  ∧ (∀ tree tree',
       parse_sql query = Ok tree →
       prepare_tree engine database catalog schema tree = Ok tree' →
       (∀ statement, statement ∈ tree' → comparable_with parse_sql permissions statement) →
       ∃ b, verify_query parse_sql query engine database catalog schema permissions
            = Ok b
            ∧ (b = true ↔ ∀ statement, statement ∈ tree' →
                 ∀ permission, permission ∈ permissions →
                   passes parse_sql statement permission)
            ∧ (b = false ↔ ∃ statement permission,
                 statement ∈ tree' ∧ permission ∈ permissions
                 ∧ ¬ passes parse_sql statement permission)).
Proof.
  split.
  - unfold verify_query. intros H.
    apply bind_Ok_inv in H as (tree & Hparse & H).
    apply bind_Ok_inv in H as (tree' & Hprepare & H).
    exists tree, tree'. repeat split; try done.
    intros statement Hst. apply verify_statement_true_inv.
    by apply (py_all_true_inv _ _ H).
  - intros tree tree' Hparse Hprepare Hok.
    unfold verify_query. rewrite Hparse, bind_Ok, Hprepare, bind_Ok.
    destruct (py_all_spec (λ statement, verify_statement parse_sql statement permissions)
                tree') as (b & Hb & Htrue & Hfalse).
    { intros st Hst.
      destruct (verify_statement_spec st permissions (Hok st Hst)) as (b & ? & _).
      eauto. }
    exists b. split; [done|]. rewrite Htrue, Hfalse. split; split.
    + intros H st Hst.
      destruct (verify_statement_spec st permissions (Hok st Hst)) as (b' & Hb' & Hiff & _).
      apply Hiff. specialize (H st Hst). congruence.
    + intros H st Hst.
      destruct (verify_statement_spec st permissions (Hok st Hst)) as (b' & Hb' & Hiff & _).
      rewrite Hb'. f_equal. by apply Hiff, H.
    + intros (st & Hst & Hf).
      destruct (verify_statement_spec st permissions (Hok st Hst)) as (b' & Hb' & _ & Hiff).
      destruct (proj1 Hiff) as (p & Hp & Hnot); [congruence|]. by exists st, p.
    + intros (st & p & Hst & Hp & Hnot). exists st. split; [done|].
      destruct (verify_statement_spec st permissions (Hok st Hst)) as (b' & Hb' & _ & Hiff).
      rewrite Hb'. f_equal. apply Hiff. eauto.
Qed.
End verification.

Lemma verify_without_permissions_witness :
  (∀ statement, verify_statement test_parser statement [] = Ok true)
  ∧ verify_query test_parser sales_sql test_engine "postgres" None (Some "main") []
    = Ok true.
Proof.
  apply (verify_without_permissions test_parser test_engine "postgres" None
           (Some "main") sales_sql [sales_query] prepared_sales).
  - reflexivity.
  - vm_compute. reflexivity.
Defined.

Lemma verify_query_iff_witness :
  ∃ b, verify_query test_parser sales_sql test_engine "postgres" None (Some "main")
         ["SELECT * FROM postgres.null.dev.sales"] = Ok b
       ∧ (b = true ↔ ∀ statement, statement ∈ prepared_sales →
            ∀ permission, permission ∈ ["SELECT * FROM postgres.null.dev.sales"] →
              passes test_parser statement permission)
       ∧ (b = false ↔ ∃ statement permission,
            statement ∈ prepared_sales
            ∧ permission ∈ ["SELECT * FROM postgres.null.dev.sales"]
            ∧ ¬ passes test_parser statement permission).
Proof.
  apply (proj2 (verify_query_iff test_parser test_engine "postgres" None (Some "main")
                  sales_sql ["SELECT * FROM postgres.null.dev.sales"])
           [sales_query] prepared_sales).
  - reflexivity.
  - vm_compute. reflexivity.
  - intros statement ->%list_elem_of_singleton permission ->%list_elem_of_singleton.
    eexists. split; [vm_compute; reflexivity|].
    intros ps ->%list_elem_of_singleton. eexists. vm_compute. reflexivity.
Defined.

(** ** C3 and C9: get_database_for_nodes *)

Lemma sort_insert_head {A} (key : A → Qc) x sorted :
  ∃ rest, sort_insert key x sorted
          = match sorted with
            | y :: _ => if decide (key y < key x)%Qc then y else x
            | [] => x
            end :: rest.
Proof.
  destruct sorted as [|y sorted]; simpl; [by eexists|].
  destruct (decide (key y < key x)%Qc); by eexists.
Qed.

(** The head of a stably sorted list is the first element with the least
    key. *)
Lemma sorted_by_head {A} (key : A → Qc) (xs : list A) :
  xs ≠ [] →
  ∃ x rest before after,
    sorted_by key xs = x :: rest
    ∧ xs = before ++ x :: after
    ∧ (∀ y, y ∈ before → (key x < key y)%Qc)
    ∧ (∀ y, y ∈ after → (key x <= key y)%Qc).
Proof.
  induction xs as [|x xs IH]; [done|]. intros _.
  destruct xs as [|x' xs].
  { exists x, [], [], []. repeat split; try done; by intros y ?%elem_of_nil. }
  destruct IH as (m & rest & before & after & Hs & Hxs & Hb & Ha); [done|].
  unfold sorted_by in *. simpl in *. rewrite Hs.
  destruct (sort_insert_head key x (m :: rest)) as [rest' ->].
  destruct (decide (key m < key x)%Qc) as [Hlt|Hge].
  - exists m, rest', (x :: before), after. rewrite Hxs. repeat split; try done.
    intros y [->|Hy]%elem_of_cons; auto.
  - apply Qcnot_lt_le in Hge.
    exists x, rest', [], (x' :: xs). repeat split; try done.
    + by intros y ?%elem_of_nil.
    + intros y Hy. rewrite Hxs in Hy.
      apply elem_of_app in Hy as [Hy|[->|Hy]%elem_of_cons].
      * eapply Qcle_trans; [done|]. apply Qclt_le_weak. auto.
      * done.
      * eapply Qcle_trans; [done|]. auto.
Qed.

Lemma elem_of_set_intersection first others database :
  database ∈ set_intersection first others
  ↔ database ∈ first ∧ ∀ s, s ∈ others → database ∈ s.
Proof.
  unfold set_intersection. revert first.
  induction others as [|s others IH]; intros first; simpl.
  - split; [intros H; split; [done | by intros s ?%elem_of_nil] | by intros [? _]].
  - rewrite IH, elem_of_intersection. split.
    + intros [[Hf Hs] Ho]. split; [done|]. intros s' [->|?]%elem_of_cons; auto.
    + intros [Hf Ho]. repeat split; try done.
      * apply Ho. left.
      * intros s' ?. apply Ho. by right.
Qed.

Section database_resolution.
Context (set_order : SetOrder) (DJ_DATABASE_ID : Z).
Context (get_computable_databases : Node → gset string → gset Database).
Context (session : Session) (node_columns : gmap string (gset string)).
Hypothesis set_order_elements :
  ∀ sets, set_order sets ≡ₚ elements (intersection_of sets).

(** The set of databases that compute every node of [nodes]. *)
Lemma candidates_exist nodes :
  nodes ≠ [] →
  (∀ node, node ∈ nodes → is_Some (node_columns !! name node)) →
  ∃ first others,
    for_list (λ node, match node_columns !! name node with
                      | Some referenced => Ok (get_computable_databases node referenced)
                      | None => Raise (KeyError (name node))
                      end) nodes = Ok (first :: others)
    ∧ ∀ database,
        database ∈ set_intersection first others
        ↔ computes_all get_computable_databases node_columns nodes database.
Proof.
  intros Hne Hcols.
  assert (∃ sets,
    for_list (λ node, match node_columns !! name node with
                      | Some referenced => Ok (get_computable_databases node referenced)
                      | None => Raise (KeyError (name node))
                      end) nodes = Ok sets
    ∧ length sets = length nodes
    ∧ ∀ database, (∀ s, s ∈ sets → database ∈ s)
        ↔ computes_all get_computable_databases node_columns nodes database)
    as (sets & Hsets & Hlen & Hiff).
  { clear Hne. induction nodes as [|node nodes IH].
    - exists []. repeat split; try done.
      + by intros _ node ?%elem_of_nil.
      + by intros _ s ?%elem_of_nil.
    - destruct IH as (sets & Hsets & Hlen & Hiff).
      { intros n Hn. apply Hcols. by right. }
      destruct (Hcols node) as [referenced Href]; [left|].
      exists (get_computable_databases node referenced :: sets).
      simpl. rewrite Href, bind_Ok, Hsets, bind_Ok. repeat split; [by rewrite Hlen|..].
      + intros H n [->|Hn]%elem_of_cons.
        * exists referenced. split; [done|]. apply H. left.
        * apply Hiff; [|done]. intros s Hs. apply H. by right.
      + intros H s [->|Hs]%elem_of_cons.
        * destruct (H node) as (r & Hr & Hd); [left|]. by simplify_eq.
        * apply (proj2 (Hiff database)); [|done]. intros n Hn. apply H. by right. }
  destruct sets as [|first others]; [by destruct nodes|].
  exists first, others. split; [done|]. intros database.
  rewrite elem_of_set_intersection, <- Hiff. split.
  - intros [? H] s [->|?]%elem_of_cons; auto.
  - intros H. split; [apply H; left | intros s ?; apply H; by right].
Qed.

(** With nodes, the function looks at the databases that compute every
    node, in the order [order] in which Python iterates over their set. *)
Lemma get_database_for_nodes_order (order : SetOrder) nodes database_id :
  (∀ sets, order sets ≡ₚ elements (intersection_of sets)) →
  nodes ≠ [] →
  (∀ node, node ∈ nodes → is_Some (node_columns !! name node)) →
  ∃ iteration : list Database,
    (∀ database, database ∈ iteration
       ↔ computes_all get_computable_databases node_columns nodes database)
    ∧ get_database_for_nodes order DJ_DATABASE_ID get_computable_databases
        session nodes node_columns database_id
      = match iteration with
        | [] => Raise (Exception_ "No valid database was found")
        | _ =>
            match database_id with
            | Some wanted =>
                match list_find (λ database, db_id database = Some wanted)
                                iteration with
                | Some (_, database) => Ok database
                | None =>
                    Raise (Exception_ ("Database ID " +:+ pretty wanted
                                       +:+ " is not valid"))
                end
            | None =>
                match sorted_by cost iteration with
                | database :: _ => Ok database
                | [] => Raise IndexError
                end
            end
        end.
Proof.
  intros Horder Hne Hcols.
  destruct (candidates_exist nodes Hne Hcols) as (first & others & Hsets & Hiff).
  exists (order (first :: others)). split.
  - intros database. rewrite Horder, elem_of_elements. apply Hiff.
  - unfold get_database_for_nodes.
    destruct nodes as [|node nodes']; [done|]. by rewrite Hsets.
Qed.

Lemma get_database_for_nodes_candidates nodes database_id :
  nodes ≠ [] →
  (∀ node, node ∈ nodes → is_Some (node_columns !! name node)) →
  ∃ iteration : list Database,
    (∀ database, database ∈ iteration
       ↔ computes_all get_computable_databases node_columns nodes database)
    ∧ get_database_for_nodes set_order DJ_DATABASE_ID get_computable_databases
        session nodes node_columns database_id
      = match iteration with
        | [] => Raise (Exception_ "No valid database was found")
        | _ =>
            match database_id with
            | Some wanted =>
                match list_find (λ database, db_id database = Some wanted)
                                iteration with
                | Some (_, database) => Ok database
                | None =>
                    Raise (Exception_ ("Database ID " +:+ pretty wanted
                                       +:+ " is not valid"))
                end
            | None =>
                match sorted_by cost iteration with
                | database :: _ => Ok database
                | [] => Raise IndexError
                end
            end
        end.
Proof. by apply get_database_for_nodes_order. Qed.

(** C3: for a non-empty list of nodes with their referenced columns,
    [get_database_for_nodes] considers exactly the databases that compute
    every node: it raises "No valid database was found" when there is none;
    with a database id it raises "Database ID ... is not valid" when no such
    database has the id and returns one that has it otherwise; without a
    database id it returns one of them of the lowest cost. *)
Theorem get_database_for_nodes_spec nodes database_id :
  nodes ≠ [] →
  (∀ node, node ∈ nodes → is_Some (node_columns !! name node)) →
  let candidate := computes_all get_computable_databases node_columns nodes in
  let chosen := get_database_for_nodes set_order DJ_DATABASE_ID
                  get_computable_databases session nodes node_columns database_id in
  ((∀ database, ¬ candidate database) →
   chosen = Raise (Exception_ "No valid database was found"))
  ∧ (∀ wanted, database_id = Some wanted →
       (∃ database, candidate database) →
       (∀ database, candidate database → db_id database ≠ Some wanted) →
       chosen = Raise (Exception_ ("Database ID " +:+ pretty wanted +:+ " is not valid")))
  ∧ (∀ wanted, database_id = Some wanted →
       (∃ database, candidate database ∧ db_id database = Some wanted) →
       ∃ database, chosen = Ok database ∧ candidate database
                   ∧ db_id database = Some wanted)
  ∧ (database_id = None →
       (∃ database, candidate database) →
       ∃ database, chosen = Ok database ∧ candidate database
                   ∧ ∀ other, candidate other → (cost database <= cost other)%Qc).
Proof.
  intros Hne Hcols candidate chosen.
  destruct (get_database_for_nodes_candidates nodes database_id Hne Hcols)
    as (iteration & Hin & Hchosen).
  fold chosen in Hchosen. rewrite Hchosen. clear Hchosen.
  fold candidate in Hin.
  repeat split.
  - intros Hnone. destruct iteration as [|database l]; [done|].
    exfalso. apply (Hnone database), Hin. left.
  - intros wanted -> [database Hd] Hnot.
    apply Hin in Hd. destruct iteration as [|d0 l]; [by apply elem_of_nil in Hd|].
    destruct (list_find (λ database, db_id database = Some wanted) (d0 :: l))
      as [[i d]|] eqn:Hfind; [|done].
    apply list_find_Some in Hfind as (Hl & Hid & _).
    exfalso. apply (Hnot d); [|done]. apply Hin. by eapply list_elem_of_lookup_2.
  - intros wanted -> (database & Hd & Hid).
    apply Hin in Hd. destruct iteration as [|d0 l]; [by apply elem_of_nil in Hd|].
    destruct (list_find (λ database, db_id database = Some wanted) (d0 :: l))
      as [[i d]|] eqn:Hfind.
    + apply list_find_Some in Hfind as (Hl & Hid' & _).
      exists d. repeat split; try done. apply Hin. by eapply list_elem_of_lookup_2.
    + apply list_find_None in Hfind. rewrite Forall_forall in Hfind.
      by destruct (Hfind database Hd).
  - intros -> [database Hd]. apply Hin in Hd.
    destruct iteration as [|d0 l]; [by apply elem_of_nil in Hd|].
    destruct (sorted_by_head cost (d0 :: l)) as (m & rest & before & after & -> & Hl & Hb & Ha);
      [done|].
    exists m. split; [done|]. split.
    + apply Hin. rewrite Hl. apply elem_of_app. right. left.
    + intros other Ho%Hin. rewrite Hl in Ho.
      apply elem_of_app in Ho as [Ho|[->|Ho]%elem_of_cons];
        [by apply Qclt_le_weak, Hb | apply Qcle_refl | by apply Ha].
Qed.


End database_resolution.

Lemma by_elements_order sets : by_elements sets ≡ₚ elements (intersection_of sets).
Proof. done. Qed.


Lemma get_database_for_nodes_spec_witness :
  ∃ database,
    get_database_for_nodes by_elements 0 test_computable test_session [num_comments]
      test_columns None = Ok database
    ∧ computes_all test_computable test_columns [num_comments] database
    ∧ ∀ other, computes_all test_computable test_columns [num_comments] other →
               (cost database <= cost other)%Qc.
Proof.
  assert (∀ node, node ∈ [num_comments] → is_Some (test_columns !! name node)) as Hcols.
  { intros node ->%list_elem_of_singleton. by eexists. }
  destruct (get_database_for_nodes_spec by_elements 0 test_computable test_session
              test_columns by_elements_order [num_comments] None
              ltac:(done) Hcols) as (_ & _ & _ & H).
  apply H; [done|]. exists druid.
  intros node ->%list_elem_of_singleton. exists ∅. split; [done|].
  unfold test_computable. set_solver.
Defined.




(** ** C4: dimension validation *)

Lemma get_dimensions_from_filters_spec filters dimensions :
  get_dimensions_from_filters filters = Ok dimensions →
  ∀ dimension, dimension ∈ dimensions
    ↔ ∃ filter_ op value, filter_ ∈ filters
                          ∧ FILTER_RE_match filter_ = Some (dimension, op, value).
Proof.
  revert dimensions. induction filters as [|filter_ filters IH]; simpl; intros dimensions.
  - intros [= <-] dimension. split; [set_solver|].
    by intros (? & ? & ? & ?%elem_of_nil & _).
  - destruct (FILTER_RE_match filter_) as [[[n op] v]|] eqn:Hm; [|done].
    intros (rest & Hrest & [= <-])%bind_Ok_inv dimension.
    rewrite elem_of_union, elem_of_singleton, (IH rest Hrest). split.
    + intros [->|(f & o & w & Hf & Hfm)].
      * exists filter_, op, v. split; [left | done].
      * exists f, o, w. split; [by right | done].
    + intros (f & o & w & [->|Hf]%elem_of_cons & Hfm).
      * left. congruence.
      * right. by exists f, o, w.
Qed.

Lemma sorted_strings_spec (dimensions : gset string) :
  Sorted str_le (sorted_strings dimensions)
  ∧ NoDup (sorted_strings dimensions)
  ∧ ∀ dimension, dimension ∈ sorted_strings dimensions ↔ dimension ∈ dimensions.
Proof.
  unfold sorted_strings. repeat split.
  - apply Sorted_merge_sort; apply _.
  - rewrite merge_sort_Permutation. apply NoDup_elements.
  - rewrite merge_sort_Permutation. apply elem_of_elements.
  - rewrite merge_sort_Permutation. apply elem_of_elements.
Qed.

(** C4: when the filters have the syntax of a filter, [get_query_for_node]
    goes on to build the query exactly when every requested dimension (the
    group-bys and the names the filters start with) is a dimension of the
    node; otherwise it raises "Invalid dimension(s): ..." listing the
    requested dimensions that are not valid, each once, in sorted order, and
    builds nothing. *)
Theorem get_query_for_node_dimensions
  (get_dimensions : Node → list string)
  (synthesize : Node → list string → list string → gset string → option Z
                → result QueryCreate)
  node groupbys filters database_id dimensions :
  get_dimensions_from_filters filters = Ok dimensions →
  let requested : gset string := list_to_set groupbys ∪ dimensions in
  let valid : gset string := list_to_set (get_dimensions node) in
  (∀ dimension, dimension ∈ requested
     ↔ dimension ∈ groupbys
       ∨ ∃ filter_ op value, filter_ ∈ filters
                             ∧ FILTER_RE_match filter_ = Some (dimension, op, value))
  ∧ (requested ⊆ valid →
     get_query_for_node get_dimensions synthesize node groupbys filters database_id
     = synthesize node groupbys filters requested database_id)
  ∧ (¬ requested ⊆ valid →
     ∃ invalid,
       get_query_for_node get_dimensions synthesize node groupbys filters database_id
       = Raise (Exception_ ("Invalid dimension"
                            +:+ (if decide (1 < length invalid)%nat then "s" else "")
                            +:+ ": " +:+ join ", " invalid))
       ∧ Sorted str_le invalid
       ∧ NoDup invalid
       ∧ ∀ dimension, dimension ∈ invalid
           ↔ dimension ∈ requested ∧ dimension ∉ get_dimensions node).
Proof.
  intros Hdims requested valid. repeat split.
  - subst requested. rewrite elem_of_union, elem_of_list_to_set.
    rewrite (get_dimensions_from_filters_spec _ _ Hdims dimension). tauto.
  - subst requested. rewrite elem_of_union, elem_of_list_to_set.
    rewrite (get_dimensions_from_filters_spec _ _ Hdims dimension). tauto.
  - intros Hsub. unfold get_query_for_node, check_dimensions.
    rewrite Hdims, bind_Ok. fold requested valid. by rewrite decide_True.
  - intros Hnot. exists (sorted_strings (requested ∖ valid)).
    destruct (sorted_strings_spec (requested ∖ valid)) as (Hsorted & Hnodup & Hin).
    repeat split; try done.
    + unfold get_query_for_node, check_dimensions.
      rewrite Hdims, bind_Ok. fold requested valid. by rewrite decide_False.
    + apply Hin in H. set_solver.
    + apply Hin in H. subst valid. set_solver.
    + intros [? ?]. apply Hin. subst valid. set_solver.
Qed.

Lemma get_query_for_node_dimensions_witness :
  ∃ invalid,
    get_query_for_node test_dimensions test_synthesize num_comments
      ["core.comments.ds"; "core.comments.country"] ["core.comments.user_id>1"] None
    = Raise (Exception_ ("Invalid dimension"
                         +:+ (if decide (1 < length invalid)%nat then "s" else "")
                         +:+ ": " +:+ join ", " invalid))
    ∧ Sorted str_le invalid
    ∧ NoDup invalid
    ∧ ∀ dimension, dimension ∈ invalid
        ↔ dimension ∈ (list_to_set ["core.comments.ds"; "core.comments.country"]
                       ∪ ({[ "core.comments.user_id" ]} ∪ ∅) : gset string)
          ∧ dimension ∉ test_dimensions num_comments.
Proof.
  apply (get_query_for_node_dimensions test_dimensions test_synthesize num_comments
           ["core.comments.ds"; "core.comments.country"] ["core.comments.user_id>1"]
           None ({[ "core.comments.user_id" ]} ∪ ∅) eq_refl).
  intros Hsub. specialize (Hsub "core.comments.country").
  unfold test_dimensions in Hsub. set_solver.
Defined.

(** ** C5: filters *)

Lemma span_spec p s taken rest :
  span p s = (taken, rest) →
  s = taken +:+ rest ∧ string_forallb p taken = true ∧ stops_at p rest.
Proof.
  revert taken rest. induction s as [|c s IH]; simpl; intros taken rest.
  - by intros [= <- <-].
  - destruct (p c) eqn:Hp.
    + destruct (span p s) as [t r]. intros [= <- <-].
      destruct (IH t r eq_refl) as (-> & Ht & Hr). simpl. by rewrite Hp, Ht.
    + intros [= <- <-]. by simpl.
Qed.

Lemma span_append p taken rest :
  string_forallb p taken = true → stops_at p rest →
  span p (taken +:+ rest) = (taken, rest).
Proof.
  induction taken as [|c taken IH]; simpl.
  - intros _. destruct rest as [|c rest]; simpl; [done|]. by intros ->.
  - intros [Hc Ht]%andb_true_iff Hr. by rewrite Hc, IH.
Qed.

Lemma strip_prefix_spec prefix s after :
  strip_prefix prefix s = Some after ↔ s = prefix +:+ after.
Proof.
  revert s. induction prefix as [|c prefix IH]; intros s; simpl.
  - split; [by intros [= ->] | by intros ->].
  - destruct s as [|d s]; [done|].
    destruct (Ascii.eqb_spec c d) as [->|Hne].
    + rewrite IH. split; [by intros -> | by intros [= ->]].
    + split; [done | intros [= ? ?]; done].
Qed.

Lemma span_line_nonempty after :
  (span not_newline after).1 ≠ "" ↔ starts_line after.
Proof.
  destruct after as [|c after]; simpl; [done|]. unfold not_newline at 1.
  destruct (Ascii.eqb_spec c newline); simpl.
  - split; [done | by intros []].
  - destruct (span not_newline after). simpl. split; [done | by intros _].
Qed.

Lemma match_operator_sound operators rest op value :
  match_operator operators rest = Some (op, value) →
  op ∈ operators
  ∧ ∃ tail, rest = op +:+ value +:+ tail
            ∧ value ≠ ""
            ∧ string_forallb not_newline value = true
            ∧ stops_at not_newline tail.
Proof.
  induction operators as [|o operators IH]; simpl; [done|].
  destruct (strip_prefix o rest) as [after|] eqn:Hs.
  - destruct (span not_newline after) as [v tail] eqn:Hspan.
    destruct (String.eqb_spec v "") as [->|Hne].
    + intros H. destruct (IH H) as (? & ?). split; [by right | done].
    + intros [= <- <-]. split; [left|].
      apply strip_prefix_spec in Hs. apply span_spec in Hspan as (-> & Hv & Ht).
      by exists tail.
  - intros H. destruct (IH H) as (? & ?). split; [by right | done].
Qed.

Lemma match_operator_complete operators rest op after :
  op ∈ operators → rest = op +:+ after → starts_line after →
  is_Some (match_operator operators rest).
Proof.
  intros Hop -> Hline. induction operators as [|o operators IH]; simpl.
  { by apply elem_of_nil in Hop. }
  destruct (strip_prefix o (op +:+ after)) as [after'|] eqn:Hs.
  - destruct (span not_newline after') as [v tail] eqn:Hspan.
    destruct (String.eqb_spec v "") as [->|Hne]; [|by eexists].
    apply elem_of_cons in Hop as [->|Hop]; [|by apply IH].
    apply strip_prefix_spec in Hs. apply (inj _) in Hs as <-.
    apply span_line_nonempty in Hline. by rewrite Hspan in Hline.
  - apply elem_of_cons in Hop as [->|Hop]; [|by apply IH].
    assert (strip_prefix o (o +:+ after) = Some after) by by apply strip_prefix_spec.
    congruence.
Qed.

(** No operator starts with a character of the name class. *)
Lemma operator_stops_name op after :
  op ∈ OPERATORS → stops_at name_char (op +:+ after).
Proof.
  unfold OPERATORS. rewrite !elem_of_cons, elem_of_nil.
  intros [->|[->|[->|[->|[->|[->|[]]]]]]]; reflexivity.
Qed.

Lemma operators_are_comparisons op :
  op ∈ OPERATORS → is_Some (dict_get op COMPARISONS).
Proof.
  unfold OPERATORS. rewrite !elem_of_cons, elem_of_nil.
  intros [->|[->|[->|[->|[->|[->|[]]]]]]]; by eexists.
Qed.

(** The strings [FILTER_RE] matches, and the groups of the match. *)
Lemma FILTER_RE_match_sound filter_ name_ op value :
  FILTER_RE_match filter_ = Some (name_, op, value) →
  op ∈ OPERATORS
  ∧ ∃ tail, filter_ = name_ +:+ op +:+ value +:+ tail
            ∧ name_ ≠ "" ∧ string_forallb name_char name_ = true
            ∧ value ≠ "" ∧ string_forallb not_newline value = true
            ∧ stops_at not_newline tail.
Proof.
  unfold FILTER_RE_match.
  destruct (span name_char filter_) as [n rest] eqn:Hspan.
  destruct (String.eqb_spec n "") as [->|Hne]; [done|].
  destruct (match_operator OPERATORS rest) as [[o v]|] eqn:Hop; [|done].
  intros [= <- <- <-].
  apply span_spec in Hspan as (-> & Hn & _).
  apply match_operator_sound in Hop as (Ho & tail & -> & Hv & Hvl & Ht).
  split; [done|]. by exists tail.
Qed.

Lemma FILTER_RE_match_complete name_ op after :
  name_ ≠ "" → string_forallb name_char name_ = true →
  op ∈ OPERATORS → starts_line after →
  ∃ op' value, FILTER_RE_match (name_ +:+ op +:+ after) = Some (name_, op', value).
Proof.
  intros Hne Hn Hop Hline. unfold FILTER_RE_match.
  rewrite (span_append name_char name_ (op +:+ after) Hn (operator_stops_name _ _ Hop)).
  destruct (String.eqb_spec name_ "") as [->|_]; [done|].
  destruct (match_operator_complete OPERATORS (op +:+ after) op after Hop eq_refl Hline)
    as [[o v] ->].
  by exists o, v.
Qed.

(** The alternation yields the first operator, in the order of the
    pattern, that the text starts with and that is followed by a character
    of the same line. *)
Lemma match_operator_first operators rest op value :
  match_operator operators rest = Some (op, value) →
  ∃ before later,
    operators = before ++ op :: later
    ∧ ∀ op' after', op' ∈ before → rest = op' +:+ after' → ¬ starts_line after'.
Proof.
  induction operators as [|op0 operators IH]; [done|]. cbn [match_operator].
  assert (match_operator operators rest = Some (op, value) →
          (∀ after', rest = op0 +:+ after' → ¬ starts_line after') →
          ∃ before later,
            op0 :: operators = before ++ op :: later
            ∧ ∀ op' after', op' ∈ before → rest = op' +:+ after' →
                            ¬ starts_line after') as Hskip.
  { intros (before & later & -> & Hbefore)%IH Hop0.
    exists (op0 :: before), later. split; [done|].
    intros op' after' [->|Hin]%elem_of_cons; [apply Hop0 | by apply Hbefore]. }
  destruct (strip_prefix op0 rest) as [after|] eqn:Hstrip.
  - destruct (span not_newline after) as [value0 tail] eqn:Hspan.
    destruct (String.eqb_spec value0 "") as [->|Hvalue].
    + intros H. apply Hskip; [done|].
      intros after' ->. apply strip_prefix_spec in Hstrip.
      assert (after' = after) as ->.
      { clear -Hstrip. induction op0 as [|c op0 IH]; [done|].
        simpl in Hstrip. injection Hstrip as Hstrip. by apply IH. }
      rewrite <-span_line_nonempty, Hspan. by intros [].
    + intros [= <- <-]. exists [], operators. split; [done|].
      by intros op' after' ?%elem_of_nil.
  - intros H. apply Hskip; [done|].
    intros after' Hrest. apply strip_prefix_spec in Hrest. congruence.
Qed.

Lemma FILTER_RE_match_first filter_ name_ op value :
  FILTER_RE_match filter_ = Some (name_, op, value) →
  ∃ tail before later,
    filter_ = name_ +:+ op +:+ value +:+ tail
    ∧ OPERATORS = before ++ op :: later
    ∧ ∀ op' after', op' ∈ before → op +:+ value +:+ tail = op' +:+ after' →
                    ¬ starts_line after'.
Proof.
  unfold FILTER_RE_match.
  destruct (span name_char filter_) as [n rest] eqn:Hspan.
  destruct (String.eqb_spec n "") as [->|Hne]; [done|].
  destruct (match_operator OPERATORS rest) as [[o v]|] eqn:Hop; [|done].
  intros [= <- <- <-].
  apply span_spec in Hspan as (-> & Hn & _).
  pose proof (match_operator_first _ _ _ _ Hop) as (before & later & HO & Hfirst).
  apply match_operator_sound in Hop as (Ho & tail & -> & Hv & Hvl & Ht).
  by exists tail, before, later.
Qed.

(** C5 (as amended), on filters of ASCII text.  [get_filter] succeeds
    exactly on the strings that [FILTER_RE] matches, whose first group is a
    key of [columns], whose third group [ast.literal_eval] accepts and on
    whose value the comparison of the column succeeds.  The strings
    [FILTER_RE] matches are those that start with a non-empty name of word
    characters, dots and slashes, followed by one of the six operators,
    followed by at least one character other than a newline; the operator of
    the match is the first of [<=], [<], [>=], [>], [!=], [=], in this
    order, that the text after the name starts with and that is followed by
    a character of the same line, and the value is the rest of that line.
    It raises "Invalid filter: ..." with the filter when the syntax is
    wrong, "Invalid column name: ..." with the name when the column is
    unknown and "Invalid value: ..." with the text of the value when
    [ast.literal_eval] rejects it; every operator the syntax admits is a key
    of [COMPARISONS]; and what the comparison itself raises is raised as it
    is. *)
Theorem get_filter_spec (literal_eval_ : LiteralEval) (compare : Comparison)
  (columns_ : gmap string SqlaColumn) (filter_ : string) :
  ascii_text filter_ →
  (∀ expr, get_filter literal_eval_ compare columns_ filter_ = Ok expr
     ↔ ∃ name_ op value_ column comparison v,
         FILTER_RE_match filter_ = Some (name_, op, value_)
         ∧ columns_ !! name_ = Some column
         ∧ dict_get op COMPARISONS = Some comparison
         ∧ literal_eval_ value_ = Ok v
         ∧ compare comparison column v = Ok expr)
  ∧ (is_Some (FILTER_RE_match filter_)
     ↔ ∃ name_ op after,
         filter_ = name_ +:+ op +:+ after
         ∧ name_ ≠ "" ∧ string_forallb name_char name_ = true
         ∧ op ∈ OPERATORS ∧ starts_line after)
  ∧ (FILTER_RE_match filter_ = None →
     get_filter literal_eval_ compare columns_ filter_
     = Raise (Exception_ ("Invalid filter: " +:+ filter_)))
  ∧ (∀ name_ op value_,
       FILTER_RE_match filter_ = Some (name_, op, value_) →
       op ∈ OPERATORS
       ∧ is_Some (dict_get op COMPARISONS)
       ∧ (∃ tail before later,
            filter_ = name_ +:+ op +:+ value_ +:+ tail
            ∧ name_ ≠ "" ∧ string_forallb name_char name_ = true
            ∧ value_ ≠ "" ∧ string_forallb not_newline value_ = true
            ∧ stops_at not_newline tail
            ∧ OPERATORS = before ++ op :: later
            ∧ ∀ op' after', op' ∈ before →
                op +:+ value_ +:+ tail = op' +:+ after' → ¬ starts_line after')
       ∧ (columns_ !! name_ = None →
          get_filter literal_eval_ compare columns_ filter_
          = Raise (Exception_ ("Invalid column name: " +:+ name_)))
       ∧ (is_Some (columns_ !! name_) →
          (∃ e, literal_eval_ value_ = Raise e) →
          get_filter literal_eval_ compare columns_ filter_
          = Raise (Exception_ ("Invalid value: " +:+ value_)))
       ∧ (∀ column comparison v e,
            columns_ !! name_ = Some column →
            dict_get op COMPARISONS = Some comparison →
            literal_eval_ value_ = Ok v →
            compare comparison column v = Raise e →
            get_filter literal_eval_ compare columns_ filter_ = Raise e)).
Proof.
  intros _. split; [|split; [|split]].
  - intros expr. split.
    + unfold get_filter. intros H.
      destruct (FILTER_RE_match filter_) as [[[n op] v]|]; [|done].
      destruct (columns_ !! n) as [column|] eqn:Hc; [|done].
      destruct (dict_get op COMPARISONS) as [comparison|] eqn:Hop; [|done].
      destruct (literal_eval_ v) as [w|e] eqn:Hv; [|done].
      by exists n, op, v, column, comparison, w.
    + intros (n & op & v & column & comparison & w & Hm & Hc & Hop & Hv & Hcmp).
      unfold get_filter. by rewrite Hm, Hc, Hop, Hv.
  - split.
    + intros [[[n op] v] Hm].
      destruct (FILTER_RE_match_sound _ _ _ _ Hm)
        as (Hop & tail & -> & Hne & Hn & Hv & Hl & _).
      exists n, op, (v +:+ tail). repeat split; try done.
      destruct v as [|c v]; [done|]. simpl in *.
      apply andb_true_iff in Hl as [Hc _]. unfold not_newline in Hc.
      by destruct (Ascii.eqb_spec c newline).
    + intros (n & op & after & -> & Hne & Hn & Hop & Hline).
      destruct (FILTER_RE_match_complete n op after Hne Hn Hop Hline) as (o & v & ->).
      by eexists.
  - intros Hm. unfold get_filter. by rewrite Hm.
  - intros name_ op value_ H.
    destruct (FILTER_RE_match_sound _ _ _ _ H)
      as (Hop & tail & Hfilter & Hne & Hn & Hv & Hl & Ht).
    destruct (operators_are_comparisons _ Hop) as [comparison Hcmp].
    split; [done|]. split; [by eexists|]. split; [|split; [|split]].
    + destruct (FILTER_RE_match_first _ _ _ _ H)
        as (tail' & before & later & Hfilter' & HO & Hfirst).
      assert (tail' = tail) as ->.
      { rewrite Hfilter in Hfilter'. clear -Hfilter'.
        assert (∀ a b c : string, a +:+ b = a +:+ c → b = c) as Hinj.
        { intros a. induction a as [|x a IH]; intros b c; simpl; [done|].
          intros [= Habc]. by apply IH. }
        symmetry. by repeat apply Hinj in Hfilter'. }
      by exists tail, before, later.
    + intros Hc. unfold get_filter. by rewrite H, Hc.
    + intros [column Hc] [e He]. unfold get_filter. by rewrite H, Hc, Hcmp, He.
    + intros column comparison' v e Hc Hcmp' Hlit He.
      unfold get_filter. by rewrite H, Hc, Hcmp', Hlit.
Qed.

Lemma get_filter_spec_witness :
  ascii_text "core.comments.user_id>1"
  ∧ get_filter literal_eval sqla_compare test_filter_columns "core.comments.user_id>1"
    = Ok (mkBinaryExpression user_id_column op_gt (LInt 1)).
Proof.
  split; [reflexivity|].
  apply (proj1 (get_filter_spec literal_eval sqla_compare test_filter_columns
                  "core.comments.user_id>1" eq_refl)).
  exists "core.comments.user_id", ">", "1", user_id_column, op_gt, (LInt 1).
  repeat split; reflexivity.
Defined.

(** C5 (as stated) fails on the literals: the value of a filter is read by
    [ast.literal_eval], for which [true], [false] and [null] are names, not
    literals; the booleans and the null value are written [True], [False]
    and [None]. *)
Lemma lowercase_literals_are_rejected :
  get_filter literal_eval sqla_compare test_filter_columns "core.comments.user_id=true"
  = Raise (Exception_ "Invalid value: true")
  ∧ get_filter literal_eval sqla_compare test_filter_columns "core.comments.user_id=null"
    = Raise (Exception_ "Invalid value: null")
  ∧ get_filter literal_eval sqla_compare test_filter_columns "core.comments.user_id=True"
    = Ok (mkBinaryExpression user_id_column op_eq (LBool true))
  ∧ get_filter literal_eval sqla_compare test_filter_columns "core.comments.user_id>1"
    = Ok (mkBinaryExpression user_id_column op_gt (LInt 1)).
Proof. repeat split; vm_compute; reflexivity. Qed.

(** ** C6: metrics and their parents *)

(** Once [parents] is not empty, a metric with other parents is refused. *)
Lemma substitute_checks_parents session parse_sql is_metric
  get_expression_from_projection state metric quote node sql :
  one_or_none session (JStr metric) = Ok (Some node) →
  expression node = Some sql → sql ≠ "" → is_metric sql = true →
  known_parents state ≠ [] →
  same_set (known_parents state) (parents node) = false →
  substitute session parse_sql is_metric get_expression_from_projection state
    (JDict [("UnnamedExpr",
             JDict [("Identifier", JDict [("value", JStr metric);
                                          ("quote_style", quote)])])])
  = Raise (Exception_ "All metrics should have the same parents").
Proof.
  intros Hnode Hsql Hne Hmetric Hknown Hdiff. unfold substitute.
  cbn -[one_or_none]. rewrite Hnode. cbn. rewrite Hsql.
  apply String.eqb_neq in Hne. rewrite Hne, Hmetric. cbn.
  destruct (known_parents state); [done|]. by rewrite Hdiff.
Qed.

(** C6 fails on the code when the first metric has no parents: the list
    [parents] is still empty after it, the second metric takes the branch
    [if not parents] and its parents are adopted instead of compared.  In
    the other order the same two metrics are refused. *)
Theorem first_metric_without_parents :
  same_set (parents num_users) (parents num_comments) = false
  ∧ (∃ projection from,
       get_new_projection_and_from metrics_session metrics_parser (λ _, true)
         (λ projection, getitem projection "UnnamedExpr") two_metrics []
       = Ok (projection, from, [comments]))
  ∧ get_new_projection_and_from metrics_session metrics_parser (λ _, true)
      (λ projection, getitem projection "UnnamedExpr") (rev two_metrics) []
    = Raise (Exception_ "All metrics should have the same parents").
Proof.
  split; [reflexivity|]. split; [eexists _, _|]; vm_compute; reflexivity.
Qed.

(** ** Induction on parse trees *)

Lemma json_ind (P : json → Prop) :
  P JNone → (∀ b, P (JBool b)) → (∀ n, P (JInt n)) → (∀ s, P (JStr s)) →
  (∀ items, Forall P items → P (JList items)) →
  (∀ entries, Forall (λ kv, P kv.2) entries → P (JDict entries)) →
  ∀ element, P element.
Proof.
  intros P_none P_bool P_int P_str P_list P_dict.
  fix IH 1. intros [| b | n | s | items | entries].
  - apply P_none.
  - apply P_bool.
  - apply P_int.
  - apply P_str.
  - apply P_list. induction items as [|child items IHitems]; constructor;
      [apply IH | apply IHitems].
  - apply P_dict. induction entries as [|[key value] entries IHentries];
      constructor; [apply IH | apply IHentries].
Qed.

(** ** Searching and writing back *)

Lemma put_list_unfold target items news :
  put_nodes_by_key (JList items) target news
  = let '(items, news) := put_items target items news in (JList items, news).
Proof. reflexivity. Qed.

Lemma put_dict_unfold target entries news :
  put_nodes_by_key (JDict entries) target news
  = let '(entries, news) := put_entries target entries news in (JDict entries, news).
Proof. reflexivity. Qed.

Lemma find_cons element items target :
  find_nodes_by_key (JList (element :: items)) target
  = find_nodes_by_key element target ++ find_nodes_by_key (JList items) target.
Proof. reflexivity. Qed.

Lemma find_entry key value entries target :
  find_nodes_by_key (JDict ((key, value) :: entries)) target
  = (if String.eqb key target then [value] else find_nodes_by_key value target)
    ++ find_nodes_by_key (JDict entries) target.
Proof. reflexivity. Qed.

Lemma split_length {A} (l : list A) (a b : nat) :
  length l = (a + b)%nat → ∃ l1 l2, l = l1 ++ l2 ∧ length l1 = a ∧ length l2 = b.
Proof.
  intros H. exists (take a l), (drop a l).
  rewrite take_drop, length_take, length_drop. repeat split; lia.
Qed.

(** Writing back uses as many values as the search finds nodes, and passes
    the rest on. *)
Lemma put_app element target news rest :
  length news = length (find_nodes_by_key element target) →
  put_nodes_by_key element target (news ++ rest)
  = ((put_nodes_by_key element target news).1, rest).
Proof.
  revert news rest. induction element as [| | | |items IH|entries IH] using json_ind;
    intros news rest Hlen; try (destruct news; [done | discriminate]).
  - rewrite !put_list_unfold.
    enough (put_items target items (news ++ rest)
            = ((put_items target items news).1, rest)) as ->
      by by destruct (put_items target items news).
    revert news Hlen. induction IH as [|child items Hchild _ IHitems]; intros news Hlen.
    { by destruct news. }
    rewrite find_cons, length_app in Hlen.
    apply split_length in Hlen as (n1 & n2 & -> & H1 & H2).
    rewrite <- app_assoc. simpl.
    rewrite (Hchild n1 (n2 ++ rest) H1), (Hchild n1 n2 H1). simpl.
    rewrite (IHitems n2 H2). by destruct (put_items target items n2).
  - rewrite !put_dict_unfold.
    enough (put_entries target entries (news ++ rest)
            = ((put_entries target entries news).1, rest)) as ->
      by by destruct (put_entries target entries news).
    revert news Hlen. induction IH as [|[key value] entries Hvalue _ IHentries];
      intros news Hlen.
    { by destruct news. }
    simpl in Hvalue |- *.
    destruct (String.eqb key target) eqn:Hkey;
      rewrite find_entry, Hkey, length_app in Hlen.
    + destruct news as [|new news]; [done|]. simpl.
      rewrite IHentries by (simpl in *; lia).
      by destruct (put_entries target entries news).
    + apply split_length in Hlen as (n1 & n2 & -> & H1 & H2).
      rewrite <- app_assoc.
      rewrite (Hvalue n1 (n2 ++ rest) H1), (Hvalue n1 n2 H1). simpl.
      rewrite (IHentries n2 H2). by destruct (put_entries target entries n2).
Qed.

Lemma json_cons_ind (P : json → Prop) :
  P JNone → (∀ b, P (JBool b)) → (∀ n, P (JInt n)) → (∀ s, P (JStr s)) →
  P (JList []) →
  (∀ child items, P child → P (JList items) → P (JList (child :: items))) →
  P (JDict []) →
  (∀ key value entries, P value → P (JDict entries) →
                        P (JDict ((key, value) :: entries))) →
  ∀ element, P element.
Proof.
  intros ? ? ? ? Hnil Hcons Hempty Hentry.
  induction element as [| | | |items IH|entries IH] using json_ind; auto.
  - induction IH; auto.
  - induction IH as [|[key value] entries ? ? ?]; auto.
Qed.

Lemma put_nil target news : put_nodes_by_key (JList []) target news = (JList [], news).
Proof. reflexivity. Qed.

Lemma put_items_cons target child items news :
  put_items target (child :: items) news
  = let '(child', news) := put_nodes_by_key child target news in
    let '(items', news) := put_items target items news in
    (child' :: items', news).
Proof. reflexivity. Qed.

Lemma put_entries_cons target key value entries news :
  put_entries target ((key, value) :: entries) news
  = let '(value', news) :=
      if String.eqb key target then
        match news with
        | new :: news => (new, news)
        | [] => (value, [])
        end
      else put_nodes_by_key value target news in
    let '(entries', news) := put_entries target entries news in
    ((key, value') :: entries', news).
Proof. reflexivity. Qed.

Lemma put_cons target child items news :
  put_nodes_by_key (JList (child :: items)) target news
  = let '(child', news) := put_nodes_by_key child target news in
    let '(rest, news) := put_nodes_by_key (JList items) target news in
    (JList (child' :: items_of rest), news).
Proof.
  rewrite put_list_unfold, put_items_cons.
  destruct (put_nodes_by_key child target news) as [child' news1].
  rewrite put_list_unfold. by destruct (put_items target items news1).
Qed.

Lemma put_entry target key value entries news :
  put_nodes_by_key (JDict ((key, value) :: entries)) target news
  = let '(value', news) :=
      if String.eqb key target then
        match news with
        | new :: news => (new, news)
        | [] => (value, [])
        end
      else put_nodes_by_key value target news in
    let '(rest, news) := put_nodes_by_key (JDict entries) target news in
    (JDict ((key, value') :: entries_of rest), news).
Proof.
  rewrite put_dict_unfold, put_entries_cons.
  destruct (if String.eqb key target then _ else _) as [value' news1].
  rewrite put_dict_unfold. by destruct (put_entries target entries news1).
Qed.

Lemma put_list_is_list target items news :
  ∃ items', (put_nodes_by_key (JList items) target news).1 = JList items'.
Proof. rewrite put_list_unfold. destruct (put_items _ _ _). by eexists. Qed.

Lemma put_dict_is_dict target entries news :
  ∃ entries', (put_nodes_by_key (JDict entries) target news).1 = JDict entries'.
Proof. rewrite put_dict_unfold. destruct (put_entries _ _ _). by eexists. Qed.

(** The function computes the relation. *)
Lemma put_Put target element news :
  length news = length (find_nodes_by_key element target) →
  Put target element news (put_nodes_by_key element target news).1.
Proof.
  revert news.
  induction element as [| | | | |child items IHchild IHitems| |key value entries IHvalue IHentries]
    using json_cons_ind; intros news Hlen;
    try (destruct news; [constructor | discriminate]).
  - rewrite find_cons, length_app in Hlen.
    apply split_length in Hlen as (n1 & n2 & -> & H1 & H2).
    rewrite put_cons, (put_app child target n1 n2 H1).
    destruct (put_list_is_list target items n2) as [items' Hitems].
    specialize (IHitems n2 H2). rewrite Hitems in IHitems.
    destruct (put_nodes_by_key (JList items) target n2) as [rest ?].
    simpl in Hitems. subst rest. simpl.
    constructor; [by apply IHchild | done].
  - destruct (String.eqb key target) eqn:Hkey;
      rewrite find_entry, Hkey, length_app in Hlen.
    + destruct news as [|new news]; [done|].
      rewrite put_entry, Hkey.
      destruct (put_dict_is_dict target entries news) as [entries' Hentries].
      specialize (IHentries news ltac:(simpl in *; lia)). rewrite Hentries in IHentries.
      destruct (put_nodes_by_key (JDict entries) target news) as [rest ?].
      simpl in Hentries. subst rest. simpl. by constructor.
    + apply split_length in Hlen as (n1 & n2 & -> & H1 & H2).
      rewrite put_entry, Hkey, (put_app value target n1 n2 H1).
      destruct (put_dict_is_dict target entries n2) as [entries' Hentries].
      specialize (IHentries n2 H2). rewrite Hentries in IHentries.
      destruct (put_nodes_by_key (JDict entries) target n2) as [rest ?].
      simpl in Hentries. subst rest. simpl.
      constructor; [done | by apply IHvalue | done].
Qed.

(** ** Well-formed trees *)

Lemma well_formed_sales : well_formed false (JList [sales_query]) = true.
Proof. reflexivity. Qed.

Lemma not_searched key :
  is_searched key = false →
  String.eqb key "Table" = false ∧ String.eqb key "Select" = false
  ∧ String.eqb key "CompoundIdentifier" = false ∧ String.eqb key "Identifier" = false
  ∧ String.eqb key "ExprWithAlias" = false.
Proof.
  unfold is_searched, searched_keys. simpl. rewrite !orb_false_iff. tauto.
Qed.

Lemma wf_single_struct inside key value :
  is_searched key = false →
  well_formed inside (JDict [(key, value)]) = well_formed inside value.
Proof.
  intros (E1 & E2 & E3 & E4 & E5)%not_searched. cbn [well_formed].
  by rewrite E1, E2, E3, E4, E5.
Qed.

Lemma wf_single_variant inside key value :
  is_searched key = true →
  well_formed inside (JDict [(key, value)]) = variant_ok inside key value.
Proof. reflexivity. Qed.

Lemma wf_many inside entry1 entry2 entries :
  well_formed inside (JDict (entry1 :: entry2 :: entries))
  = forallb (λ kv, match kv with
                   | (key, value) => negb (is_searched key) && well_formed inside value
                   end) (entry1 :: entry2 :: entries).
Proof. by destruct entry1. Qed.

Lemma wf_dict_cons inside key value entries :
  well_formed inside (JDict ((key, value) :: entries)) = true →
  (entries = [] ∧ is_searched key = true ∧ variant_ok inside key value = true)
  ∨ (is_searched key = false
     ∧ well_formed inside value = true
     ∧ well_formed inside (JDict entries) = true
     ∧ forallb (λ kv, negb (is_searched kv.1)) entries = true).
Proof.
  destruct entries as [|[key2 value2] entries].
  - intros H. destruct (is_searched key) eqn:Hs.
    + left. by repeat split.
    + right. rewrite wf_single_struct in H by done. by repeat split.
  - rewrite wf_many. cbn [forallb].
    intros [[Hk Hv]%andb_true_iff H]%andb_true_iff.
    apply negb_true_iff in Hk. right. split; [done|]. split; [done|].
    apply andb_true_iff in H as [[Hk2 Hv2]%andb_true_iff H].
    assert (forallb (λ kv, negb (is_searched kv.1)) entries = true) as Hks.
    { clear -H. induction entries as [|[k v] l IH]; [done|].
      simpl in *. apply andb_true_iff in H as [[-> _]%andb_true_iff H]. auto. }
    split.
    + destruct entries as [|e entries].
      * apply negb_true_iff in Hk2. by rewrite wf_single_struct.
      * rewrite wf_many. cbn [forallb]. rewrite Hk2, Hv2. exact H.
    + simpl. by rewrite Hk2, Hks.
Qed.

Lemma wf_struct inside key value entries :
  is_searched key = false →
  well_formed inside value = true →
  well_formed inside (JDict entries) = true →
  forallb (λ kv, negb (is_searched kv.1)) entries = true →
  well_formed inside (JDict ((key, value) :: entries)) = true.
Proof.
  intros Hk Hv Hes Hks. destruct entries as [|[key2 value2] entries].
  - by rewrite wf_single_struct.
  - rewrite wf_many. cbn [forallb]. rewrite Hk, Hv. simpl.
    simpl in Hks. apply andb_true_iff in Hks as [Hk2 Hks].
    destruct entries as [|e entries].
    + apply negb_true_iff in Hk2. rewrite wf_single_struct in Hes by done.
      simpl. by rewrite Hk2, Hes.
    + by rewrite wf_many in Hes.
Qed.

Lemma plain_well_formed inside element :
  plain element = true → well_formed inside element = true.
Proof.
  revert inside.
  induction element as [| | | | |child items IHchild IHitems| |key value entries IHvalue IHentries]
    using json_cons_ind; intros inside; try done.
  - simpl. intros [? ?]%andb_true_iff. apply andb_true_iff. split; [auto|].
    by apply (IHitems inside).
  - cbn [plain forallb]. intros [[Hk Hv]%andb_true_iff Hes]%andb_true_iff.
    apply negb_true_iff in Hk. apply wf_struct; auto.
    clear -Hes. induction entries as [|[k v] entries IH]; [done|].
    simpl in *. apply andb_true_iff in Hes as [[-> _]%andb_true_iff Hes]. auto.
Qed.

Lemma plain_find element target :
  plain element = true → is_searched target = true →
  find_nodes_by_key element target = [].
Proof.
  intros Hp Ht.
  induction element as [| | | | |child items IHchild IHitems| |key value entries IHvalue IHentries]
    using json_cons_ind; try done.
  - simpl in Hp. apply andb_true_iff in Hp as [? ?].
    rewrite find_cons, IHchild, IHitems; done.
  - cbn [plain forallb] in Hp.
    apply andb_true_iff in Hp as [[Hk Hv]%andb_true_iff Hes].
    rewrite find_entry, IHentries by done.
    destruct (String.eqb_spec key target) as [->|_]; [|by rewrite IHvalue].
    by rewrite Ht in Hk.
Qed.

Lemma Put_length target element news element' :
  Put target element news element' →
  length news = length (find_nodes_by_key element target).
Proof.
  induction 1 as [| | | | |c cs n1 n2 c' cs' _ IH1 _ IH2| |k v es new ns es' Hk _ IH
                 |k v es n1 n2 v' es' Hk _ IH1 _ IH2]; try done.
  - by rewrite find_cons, !length_app, IH1, IH2.
  - rewrite find_entry, Hk. simpl. by rewrite IH.
  - by rewrite find_entry, Hk, !length_app, IH1, IH2.
Qed.

Lemma Put_find target element news element' :
  Put target element news element' → find_nodes_by_key element' target = news.
Proof.
  induction 1 as [| | | | |c cs n1 n2 c' cs' _ IH1 _ IH2| |k v es new ns es' Hk _ IH
                 |k v es n1 n2 v' es' Hk _ IH1 _ IH2]; try done.
  - by rewrite find_cons, IH1, IH2.
  - by rewrite find_entry, Hk, IH.
  - by rewrite find_entry, Hk, IH1, IH2.
Qed.

Lemma Put_nothing target element news element' :
  Put target element news element' →
  find_nodes_by_key element target = [] → news = [] ∧ element' = element.
Proof.
  induction 1 as [| | | | |c cs n1 n2 c' cs' _ IH1 _ IH2| |k v es new ns es' Hk _ IH
                 |k v es n1 n2 v' es' Hk _ IH1 _ IH2]; try done.
  - rewrite find_cons. intros [H1 H2]%app_eq_nil.
    destruct (IH1 H1) as [-> ->]. destruct (IH2 H2) as [-> [= ->]]. done.
  - by rewrite find_entry, Hk.
  - rewrite find_entry, Hk. intros [H1 H2]%app_eq_nil.
    destruct (IH1 H1) as [-> ->]. destruct (IH2 H2) as [-> [= ->]]. done.
Qed.

Lemma Put_keys target entries news entries' :
  Put target (JDict entries) news (JDict entries') →
  map fst entries' = map fst entries.
Proof.
  intros H. remember (JDict entries) as el eqn:Hel. remember (JDict entries') as el' eqn:Hel'.
  revert entries entries' Hel Hel'.
  induction H as [| | | | |c cs n1 n2 c' cs' _ IH1 _ IH2| |k v es new ns es' Hk _ IH
                 |k v es n1 n2 v' es' Hk _ IH1 _ IH2]; intros entries0 entries0'; try done.
  - by intros [= <-] [= <-].
  - intros [= <-] [= <-]. simpl. f_equal. by apply IH.
  - intros [= <-] [= <-]. simpl. f_equal. by apply IH2.
Qed.

Lemma searched_cases key :
  is_searched key = true →
  key = "Table" ∨ key = "Select" ∨ key = "CompoundIdentifier"
  ∨ key = "Identifier" ∨ key = "ExprWithAlias".
Proof.
  unfold is_searched, searched_keys. simpl. rewrite !orb_true_iff, !String.eqb_eq.
  intuition discriminate.
Qed.

Lemma Put_plain target element news element' :
  Put target element news element' →
  plain element = true → is_searched target = true →
  news = [] ∧ element' = element.
Proof. intros H Hp Ht. apply (Put_nothing _ _ _ _ H). by apply plain_find. Qed.

Lemma Put_empty_inv target news element' :
  Put target (JDict []) news element' → news = [] ∧ element' = JDict [].
Proof. by inversion 1. Qed.

Lemma Put_alias_shaped target value news value' :
  Put target value news value' → is_searched target = true →
  alias_shaped value = true → alias_shaped value' = true.
Proof.
  intros HPut Ht Hs.
  destruct value as [| | | | |[|[k1 expr] [|[k2 alias] [|]]]]; try done.
  simpl in Hs. apply andb_true_iff in Hs as [[->%String.eqb_eq ->%String.eqb_eq]%andb_true_iff Hp].
  inversion HPut as [| | | | | | |? ? ? ? ? ? Hk ?|? ? ? n1 n2 expr' es' Hk He Hes]; subst.
  { apply String.eqb_eq in Hk. subst. done. }
  inversion Hes as [| | | | | | |? ? ? ? ? ? Hk2 ?|? ? ? n3 n4 alias' es'' Hk2 Ha Hes2]; subst.
  { apply String.eqb_eq in Hk2. subst. done. }
  apply Put_empty_inv in Hes2 as [-> [= ->]].
  destruct (Put_plain _ _ _ _ Ha Hp Ht) as [-> ->]. simpl. by rewrite Hp.
Qed.

Lemma same_keys_not_searched (entries entries' : list (string * json)) :
  map fst entries' = map fst entries →
  forallb (λ kv, negb (is_searched kv.1)) entries = true →
  forallb (λ kv, negb (is_searched kv.1)) entries' = true.
Proof.
  revert entries'. induction entries as [|[k v] entries IH]; intros [|[k' v'] entries'];
    try done.
  simpl. intros [= -> Hkeys] [-> H]%andb_true_iff. simpl. auto.
Qed.

(** Writing back values that keep the shape of the tree and whose tables
    are related to the tables of the values they replace. *)
Lemma Put_related (R : json → json → Prop) target element news element' :
  Put target element news element' →
  is_searched target = true →
  ∀ inside,
    well_formed inside element = true →
    (target ≠ "Table" → inside = true ∨ target ≠ "Select" → ∀ t, R t t) →
    Forall2 (λ old new, ∀ inside',
               variant_ok inside' target old = true →
               variant_ok inside' target new = true
               ∧ Forall2 R (tables_under target old) (tables_under target new))
            (find_nodes_by_key element target) news →
    well_formed inside element' = true
    ∧ Forall2 R (tables_of element) (tables_of element').
Proof.
  intros HPut Ht.
  induction HPut as [| | | | |c cs n1 n2 c' cs' HPc IHc HPcs IHcs|
                     |k v es new ns es' Hk HPes IHes
                     |k v es n1 n2 v' es' Hk HPv IHv HPes IHes];
    intros inside Hwf Hrefl Hnews; try (split; [done | constructor]).
  - simpl in Hwf. apply andb_true_iff in Hwf as [Hwc Hwcs].
    rewrite find_cons in Hnews.
    apply Forall2_app_inv in Hnews as [H1 H2];
      [|by rewrite (Put_length _ _ _ _ HPc)].
    destruct (IHc inside Hwc Hrefl H1) as [Hwc' Hc'].
    destruct (IHcs inside Hwcs Hrefl H2) as [Hwcs' Hcs'].
    split; [simpl in *; by rewrite Hwc', Hwcs'|].
    unfold tables_of in *. rewrite !find_cons. by apply Forall2_app.
  - apply String.eqb_eq in Hk as ->.
    apply wf_dict_cons in Hwf as [(-> & _ & Hv)|(Hns & _)]; [|congruence].
    apply Put_empty_inv in HPes as [-> [= ->]].
    rewrite find_entry, String.eqb_refl in Hnews.
    apply Forall2_cons in Hnews as [Hnew _].
    destruct (Hnew inside Hv) as [Hv' Htables].
    split; [by rewrite wf_single_variant|].
    unfold tables_of. rewrite !find_entry. simpl. rewrite !app_nil_r. exact Htables.
  - rewrite find_entry, Hk in Hnews.
    apply Forall2_app_inv in Hnews as [H1 H2];
      [|by rewrite (Put_length _ _ _ _ HPv)].
    apply wf_dict_cons in Hwf as [(-> & Hs & Hv)|(Hns & Hwv & Hwes & Hkeys)].
    + apply Put_empty_inv in HPes as [-> [= ->]].
      rewrite wf_single_variant by done.
      unfold tables_of. rewrite !find_entry.
      change (find_nodes_by_key (JDict []) "Table") with (@nil json).
      rewrite !app_nil_r. unfold variant_ok in Hv |- *.
      destruct (searched_cases k Hs) as [->|[->|[->|[->| ->]]]]; simpl in Hv |- *.
      * apply andb_true_iff in Hv as [-> Hp].
        destruct (Put_plain _ _ _ _ HPv Hp Ht) as [_ ->]. split; [done|].
        constructor; [|constructor]. apply Hrefl; [|by left].
        intros ->. by rewrite String.eqb_refl in Hk.
      * destruct (IHv true Hv) as [Hv' Htables]; [|done|done].
        intros Hne _. apply Hrefl; [done|]. right.
        intros ->. by rewrite String.eqb_refl in Hk.
      * destruct (Put_plain _ _ _ _ HPv Hv Ht) as [_ ->]. split; [done|].
        rewrite (plain_find v "Table") by done. constructor.
      * destruct (Put_plain _ _ _ _ HPv Hv Ht) as [_ ->]. split; [done|].
        rewrite (plain_find v "Table") by done. constructor.
      * apply andb_true_iff in Hv as [Hshape Hwv].
        destruct (IHv inside Hwv Hrefl H1) as [Hv' Htables].
        split; [|done]. rewrite Hv'. by rewrite (Put_alias_shaped _ _ _ _ HPv Ht Hshape).
    + destruct (IHv inside Hwv Hrefl H1) as [Hv' Hvt].
      destruct (IHes inside Hwes Hrefl H2) as [Hes' Hest].
      split.
      * apply wf_struct; try done.
        apply Put_keys in HPes. by apply (same_keys_not_searched es).
      * unfold tables_of in *. rewrite !find_entry.
        destruct (not_searched k Hns) as (-> & _).
        by apply Forall2_app.
Qed.

(** ** Replacing variants *)

Lemma retag_list_unfold target newkey items news :
  retag_nodes_by_key (JList items) target newkey news
  = let '(items, news) := retag_items target newkey items news in (JList items, news).
Proof. reflexivity. Qed.

Lemma retag_dict_unfold target newkey entries news :
  retag_nodes_by_key (JDict entries) target newkey news
  = let '(entries, edit, news) := retag_entries target newkey entries news in
    match edit with
    | Some new => (JDict (dict_pop target (dict_set newkey new entries)), news)
    | None => (JDict entries, news)
    end.
Proof. reflexivity. Qed.

Lemma retag_items_cons target newkey child items news :
  retag_items target newkey (child :: items) news
  = let '(child', news) := retag_nodes_by_key child target newkey news in
    let '(items', news) := retag_items target newkey items news in
    (child' :: items', news).
Proof. reflexivity. Qed.

Lemma retag_entries_nil target newkey news :
  retag_entries target newkey [] news = ([], None, news).
Proof. reflexivity. Qed.

Lemma retag_entries_miss target newkey key value entries news :
  String.eqb key target = false →
  retag_entries target newkey ((key, value) :: entries) news
  = let '(value', news) := retag_nodes_by_key value target newkey news in
    let '(entries', edit, news) := retag_entries target newkey entries news in
    ((key, value') :: entries', edit, news).
Proof. intros Hk. cbn [retag_entries]. by rewrite Hk. Qed.

Lemma retag_entries_hit target newkey key value entries new news :
  String.eqb key target = true →
  retag_entries target newkey ((key, value) :: entries) (new :: news)
  = let '(entries', edit, news) := retag_entries target newkey entries news in
    ((key, value) :: entries',
     match edit with Some e => Some e | None => Some new end, news).
Proof. intros Hk. cbn [retag_entries]. by rewrite Hk. Qed.

Lemma variant_ok_well_formed inside key value :
  variant_ok inside key value = true → ∃ inside', well_formed inside' value = true.
Proof.
  unfold variant_ok.
  destruct (String.eqb key "Table").
  { intros [_ Hp]%andb_true_iff. exists inside. by apply plain_well_formed. }
  destruct (String.eqb key "Select"); [by exists true|].
  destruct (String.eqb key "CompoundIdentifier").
  { intros Hp. exists inside. by apply plain_well_formed. }
  destruct (String.eqb key "Identifier").
  { intros Hp. exists inside. by apply plain_well_formed. }
  destruct (String.eqb key "ExprWithAlias").
  { intros [_ H]%andb_true_iff. by exists inside. }
  by exists inside.
Qed.

(** On a well-formed tree [retag_nodes_by_key] replaces variants. *)
Lemma retag_spec target newkey element :
  is_searched target = true → target ≠ newkey →
  ∀ inside news,
    well_formed inside element = true →
    length news = length (find_nodes_by_key element target) →
    ∃ element',
      (∀ rest, retag_nodes_by_key element target newkey (news ++ rest)
               = (element', rest))
      ∧ Retag target newkey element news element'.
Proof.
  intros Ht Hne.
  induction element as [| | | | |child items IHchild IHitems| |key value entries IHvalue IHentries]
    using json_cons_ind; intros inside news Hwf Hlen;
    try (destruct news; [|discriminate]; eexists; split; [done | constructor]).
  - simpl in Hwf. apply andb_true_iff in Hwf as [Hwc Hwcs].
    rewrite find_cons, length_app in Hlen.
    apply split_length in Hlen as (n1 & n2 & -> & H1 & H2).
    destruct (IHchild inside n1 Hwc H1) as (child' & Hc & HRc).
    destruct (IHitems inside n2 Hwcs H2) as (rest' & Hcs & HRcs).
    assert (∃ items', rest' = JList items') as [items' ->].
    { specialize (Hcs []). rewrite retag_list_unfold in Hcs.
      destruct (retag_items _ _ _ _) as [items' ?]. injection Hcs as <- _. by eexists. }
    exists (JList (child' :: items')). split; [|by constructor].
    intros rest. rewrite <- app_assoc, retag_list_unfold, retag_items_cons, Hc.
    specialize (Hcs rest). rewrite retag_list_unfold in Hcs.
    destruct (retag_items target newkey items (n2 ++ rest)) as [items'' rest''].
    by injection Hcs as -> ->.
  - destruct (wf_dict_cons _ _ _ _ Hwf) as [(-> & Hs & Hv)|(Hns & Hwv & Hwes & Hkeys)].
    + destruct (String.eqb key target) eqn:Hk.
      * apply String.eqb_eq in Hk as ->.
        rewrite find_entry, String.eqb_refl in Hlen.
        destruct news as [|new [|]]; try done.
        exists (JDict [(newkey, new)]). split; [|constructor].
        intros rest. simpl app.
        rewrite retag_dict_unfold, retag_entries_hit by apply String.eqb_refl.
        rewrite retag_entries_nil. simpl.
        apply String.eqb_neq in Hne. rewrite Hne. simpl. by rewrite String.eqb_refl.
      * rewrite find_entry, Hk, app_nil_r in Hlen.
        destruct (variant_ok_well_formed _ _ _ Hv) as [inside' Hwv].
        destruct (IHvalue inside' news Hwv Hlen) as (value' & Hvr & HRv).
        exists (JDict [(key, value')]). split.
        -- intros rest. rewrite retag_dict_unfold, retag_entries_miss, Hvr by done. done.
        -- rewrite <- (app_nil_r news). constructor; [done | done | constructor].
    + assert (String.eqb key target = false) as Hk.
      { apply String.eqb_neq. intros ->. congruence. }
      rewrite find_entry, Hk, length_app in Hlen.
      apply split_length in Hlen as (n1 & n2 & -> & H1 & H2).
      destruct (IHvalue inside n1 Hwv H1) as (value' & Hvr & HRv).
      destruct (IHentries inside n2 Hwes H2) as (rest' & Hes & HRes).
      assert (∀ rest, ∃ entries',
                 retag_entries target newkey entries (n2 ++ rest) = (entries', None, rest)
                 ∧ rest' = JDict entries') as Hnone.
      { intros rest. specialize (Hes rest). rewrite retag_dict_unfold in Hes.
        destruct (retag_entries target newkey entries (n2 ++ rest)) as [[entries' edit] r] eqn:He.
        assert (edit = None) as ->.
        { clear -He Hkeys Ht. revert entries' edit r He. generalize (n2 ++ rest).
          induction entries as [|[k v] entries IH]; intros news entries' edit r.
          - by intros [= <- <- <-].
          - simpl in Hkeys. apply andb_true_iff in Hkeys as [Hk Hkeys].
            apply negb_true_iff in Hk.
            rewrite retag_entries_miss.
            + destruct (retag_nodes_by_key v target newkey news) as [v' n].
              destruct (retag_entries target newkey entries n) as [[es ed] n'] eqn:Hes.
              intros [= <- <- <-]. by eapply IH.
            + apply String.eqb_neq. intros ->. congruence. }
        injection Hes as <- <-. by exists entries'. }
      destruct (Hnone []) as (entries' & _ & ->).
      exists (JDict ((key, value') :: entries')). split; [|by constructor].
      intros rest. destruct (Hnone rest) as (entries'' & Hr & [= <-]).
      by rewrite <- app_assoc, retag_dict_unfold, retag_entries_miss, Hvr, Hr.
Qed.

Lemma Retag_length target newkey element news element' :
  Retag target newkey element news element' →
  length news = length (find_nodes_by_key element target).
Proof.
  induction 1 as [| | | | |c cs n1 n2 c' cs' _ IH1 _ IH2| |v new
                 |k v es n1 n2 v' es' Hk _ IH1 _ IH2]; try done.
  - by rewrite find_cons, !length_app, IH1, IH2.
  - by rewrite find_entry, String.eqb_refl.
  - by rewrite find_entry, Hk, !length_app, IH1, IH2.
Qed.

Lemma Retag_nothing target newkey element news element' :
  Retag target newkey element news element' →
  find_nodes_by_key element target = [] → news = [] ∧ element' = element.
Proof.
  induction 1 as [| | | | |c cs n1 n2 c' cs' _ IH1 _ IH2| |v new
                 |k v es n1 n2 v' es' Hk _ IH1 _ IH2]; try done.
  - rewrite find_cons. intros [H1 H2]%app_eq_nil.
    destruct (IH1 H1) as [-> ->]. destruct (IH2 H2) as [-> [= ->]]. done.
  - by rewrite find_entry, String.eqb_refl.
  - rewrite find_entry, Hk. intros [H1 H2]%app_eq_nil.
    destruct (IH1 H1) as [-> ->]. destruct (IH2 H2) as [-> [= ->]]. done.
Qed.

Lemma Retag_plain target newkey element news element' :
  Retag target newkey element news element' →
  plain element = true → is_searched target = true →
  news = [] ∧ element' = element.
Proof. intros H Hp Ht. apply (Retag_nothing _ _ _ _ _ H). by apply plain_find. Qed.

Lemma Retag_empty_inv target newkey news element' :
  Retag target newkey (JDict []) news element' → news = [] ∧ element' = JDict [].
Proof. by inversion 1. Qed.

Lemma Retag_alias_shaped target newkey value news value' :
  Retag target newkey value news value' → is_searched target = true →
  alias_shaped value = true → alias_shaped value' = true.
Proof.
  intros HR Ht Hs.
  destruct value as [| | | | |[|[k1 expr] [|[k2 alias] [|]]]]; try done.
  simpl in Hs. apply andb_true_iff in Hs as [[->%String.eqb_eq ->%String.eqb_eq]%andb_true_iff Hp].
  inversion HR as [| | | | | | | |? ? ? n1 n2 expr' es' Hk He Hes]; subst.
  inversion Hes as [| | | | | | |? ?|? ? ? n3 n4 alias' es'' Hk2 Ha Hes2]; subst.
  { done. }
  apply Retag_empty_inv in Hes2 as [-> [= ->]].
  destruct (Retag_plain _ _ _ _ _ Ha Hp Ht) as [-> ->]. simpl. by rewrite Hp.
Qed.

Lemma Retag_keys target newkey entries news entries' :
  Retag target newkey (JDict entries) news (JDict entries') →
  is_searched target = true →
  forallb (λ kv, negb (is_searched kv.1)) entries = true →
  map fst entries' = map fst entries.
Proof.
  intros H Ht. remember (JDict entries) as el eqn:Hel.
  remember (JDict entries') as el' eqn:Hel'.
  revert entries entries' Hel Hel'.
  induction H as [| | | | |c cs n1 n2 c' cs' _ IH1 _ IH2| |v new
                 |k v es n1 n2 v' es' Hk _ IH1 _ IH2]; intros entries0 entries0'; try done.
  - by intros [= <-] [= <-].
  - intros [= <-] _. simpl. by rewrite Ht.
  - intros [= <-] [= <-]. simpl. intros [_ Hkeys]%andb_true_iff. f_equal. by apply IH2.
Qed.

(** Replacing variants by values that keep the shape of the tree and hold
    the same tables. *)
Lemma Retag_tables target newkey element news element' :
  Retag target newkey element news element' →
  is_searched target = true → target ≠ "Table" →
  ∀ inside,
    well_formed inside element = true →
    Forall2 (λ old new, ∀ inside',
               variant_ok inside' target old = true →
               well_formed inside' (JDict [(newkey, new)]) = true
               ∧ tables_of (JDict [(newkey, new)]) = tables_of old)
            (find_nodes_by_key element target) news →
    well_formed inside element' = true
    ∧ tables_of element' = tables_of element.
Proof.
  intros HR Ht HnT.
  induction HR as [| | | | |c cs n1 n2 c' cs' HRc IHc HRcs IHcs| |v new
                   |k v es n1 n2 v' es' Hk HRv IHv HRes IHes];
    intros inside Hwf Hnews; try done.
  - simpl in Hwf. apply andb_true_iff in Hwf as [Hwc Hwcs].
    rewrite find_cons in Hnews.
    apply Forall2_app_inv in Hnews as [H1 H2];
      [|by rewrite (Retag_length _ _ _ _ _ HRc)].
    destruct (IHc inside Hwc H1) as [Hwc' Hc'].
    destruct (IHcs inside Hwcs H2) as [Hwcs' Hcs'].
    split; [simpl in *; by rewrite Hwc', Hwcs'|].
    unfold tables_of in *. rewrite !find_cons. by rewrite Hc', Hcs'.
  - rewrite find_entry, String.eqb_refl in Hnews.
    apply Forall2_cons in Hnews as [Hnew _].
    rewrite wf_single_variant in Hwf by done.
    destruct (Hnew inside Hwf) as [Hw' Htables]. split; [done|].
    rewrite Htables. unfold tables_of. rewrite find_entry.
    apply String.eqb_neq in HnT. rewrite HnT.
    change (find_nodes_by_key (JDict []) "Table") with (@nil json).
    by rewrite app_nil_r.
  - rewrite find_entry, Hk in Hnews.
    apply Forall2_app_inv in Hnews as [H1 H2];
      [|by rewrite (Retag_length _ _ _ _ _ HRv)].
    apply wf_dict_cons in Hwf as [(-> & Hs & Hv)|(Hns & Hwv & Hwes & Hkeys)].
    + apply Retag_empty_inv in HRes as [-> [= ->]].
      rewrite wf_single_variant by done.
      unfold tables_of. rewrite !find_entry.
      change (find_nodes_by_key (JDict []) "Table") with (@nil json).
      rewrite !app_nil_r. unfold variant_ok in Hv |- *.
      destruct (searched_cases k Hs) as [->|[->|[->|[->| ->]]]]; simpl in Hv |- *.
      * apply andb_true_iff in Hv as [-> Hp].
        by destruct (Retag_plain _ _ _ _ _ HRv Hp Ht) as [_ ->].
      * by destruct (IHv true Hv H1) as [Hv' Htables].
      * by destruct (Retag_plain _ _ _ _ _ HRv Hv Ht) as [_ ->].
      * by destruct (Retag_plain _ _ _ _ _ HRv Hv Ht) as [_ ->].
      * apply andb_true_iff in Hv as [Hshape Hwv].
        destruct (IHv inside Hwv H1) as [Hv' Htables].
        split; [|done]. rewrite Hv'.
        by rewrite (Retag_alias_shaped _ _ _ _ _ HRv Ht Hshape).
    + destruct (IHv inside Hwv H1) as [Hv' Hvt].
      destruct (IHes inside Hwes H2) as [Hes' Hest].
      split.
      * apply wf_struct; try done.
        apply (same_keys_not_searched es); [|done].
        by apply (Retag_keys _ _ _ _ _ HRes).
      * unfold tables_of in *. rewrite !find_entry.
        destruct (not_searched k Hns) as (-> & _). by rewrite Hvt, Hest.
Qed.

(** ** Loops *)

Lemma for_state_spec {A B S} (body : A → S → result (B * S))
  (P : A → Prop) (I : S → Prop) (Q : A → B → Prop) xs s ys s' :
  (∀ x s y s', P x → I s → body x s = Ok (y, s') → Q x y ∧ I s') →
  Forall P xs → I s →
  for_state body xs s = Ok (ys, s') → Forall2 Q xs ys ∧ I s'.
Proof.
  intros Hbody HP. revert s ys. induction HP as [|x xs Hx _ IH]; intros s ys HI; simpl.
  - by intros [= <- <-].
  - intros ([y s1] & Hy & H)%bind_Ok_inv.
    apply bind_Ok_inv in H as ([ys' s2] & Hys & [= <- <-]).
    destruct (Hbody _ _ _ _ Hx HI Hy) as [HQ HI1].
    destruct (IH _ _ HI1 Hys) as [HQs HI2]. split; [by constructor | done].
Qed.

Lemma for_list_spec {A B} (body : A → result B) (P : A → Prop) (Q : A → B → Prop) xs ys :
  (∀ x y, P x → body x = Ok y → Q x y) →
  Forall P xs → for_list body xs = Ok ys → Forall2 Q xs ys.
Proof.
  intros Hbody HP. revert ys. induction HP as [|x xs Hx _ IH]; intros ys; simpl.
  - by intros [= <-].
  - intros (y & Hy & H)%bind_Ok_inv.
    apply bind_Ok_inv in H as (ys' & Hys & [= <-]).
    constructor; eauto.
Qed.

Lemma find_with_parent_fst element target :
  map fst (find_nodes_by_key_with_parent element target)
  = find_nodes_by_key element target.
Proof.
  induction element as [| | | |items IH|entries IH] using json_ind; try done.
  - simpl. induction IH as [|c cs Hc _ IHcs]; [done|].
    simpl. by rewrite map_app, Hc, IHcs.
  - simpl. generalize (JDict entries) at 1 as parent. intros parent.
    induction IH as [|[k v] es Hv _ IHes]; [done|].
    simpl in *. rewrite map_app, IHes. f_equal.
    by destruct (String.eqb k target).
Qed.

(** ** Names hold no searched key *)

Lemma plain_dict_get key entries value :
  plain (JDict entries) = true → dict_get key entries = Some value →
  plain value = true.
Proof.
  induction entries as [|[k v] entries IH]; [done|].
  cbn [plain forallb dict_get]. intros [[_ Hv]%andb_true_iff Hes]%andb_true_iff.
  destruct (String.eqb k key); [by intros [= <-] | by apply IH].
Qed.

Lemma plain_getitem element key value :
  plain element = true → getitem element key = Ok value → plain value = true.
Proof.
  destruct element as [| | | | |entries]; try done. simpl.
  destruct (dict_get key entries) as [v|] eqn:Hv; [|done].
  intros Hp [= <-]. by eapply plain_dict_get.
Qed.

Lemma plain_dict_set key value entries :
  is_searched key = false → plain value = true →
  plain (JDict entries) = true →
  plain (JDict (dict_set key value entries)) = true.
Proof.
  intros Hk Hv. induction entries as [|[k v] entries IH].
  - intros _. cbn [dict_set plain forallb]. by rewrite Hk, Hv.
  - cbn [plain forallb dict_set].
    intros [[Hk' Hv']%andb_true_iff Hes]%andb_true_iff.
    destruct (String.eqb k key); cbn [plain forallb].
    + by rewrite Hk', Hv, Hes.
    + rewrite Hk', Hv'. by apply IH.
Qed.

Lemma plain_setitem element key value element' :
  is_searched key = false → plain value = true → plain element = true →
  setitem element key value = Ok element' → plain element' = true.
Proof.
  destruct element as [| | | | |entries]; try done. simpl.
  intros Hk Hv Hp [= <-]. by apply plain_dict_set.
Qed.

Lemma plain_app items1 items2 :
  plain (JList (items1 ++ items2)) = plain (JList items1) && plain (JList items2).
Proof. simpl. apply forallb_app. Qed.

Lemma plain_take n items :
  plain (JList items) = true → plain (JList (take n items)) = true.
Proof.
  simpl. revert n. induction items as [|c items IH]; intros [|n]; try done.
  simpl. intros [-> H]%andb_true_iff. by apply IH.
Qed.

Lemma plain_slice_to items k :
  plain (JList items) = true → plain (JList (slice_to items k)) = true.
Proof. intros H. unfold slice_to. destruct (0 <=? k); by apply plain_take. Qed.

Lemma plain_prefix database catalog schema :
  plain (JList (make_prefix database catalog schema)) = true.
Proof. by destruct catalog, schema. Qed.

Lemma plain_chars s : plain (JList (chars s)) = true.
Proof. induction s; [done|]. simpl in *. done. Qed.

Lemma plain_iter element parts :
  plain element = true → py_iter element = Ok parts → plain (JList parts) = true.
Proof.
  destruct element as [| | |s|items|entries]; try done; simpl; intros Hp [= <-].
  - apply plain_chars.
  - done.
  - clear. by induction entries.
Qed.

Lemma plain_elem items item :
  plain (JList items) = true → item ∈ items → plain item = true.
Proof.
  simpl. intros H Hin. rewrite forallb_forall in H. by apply H, list_elem_of_In.
Qed.

(** What the search finds in a well-formed tree has the shape of its
    variant. *)
Lemma wf_found target element :
  is_searched target = true →
  ∀ inside, well_formed inside element = true →
    Forall (λ node, ∃ inside', variant_ok inside' target node = true)
           (find_nodes_by_key element target).
Proof.
  intros Ht.
  induction element as [| | | | |child items IHchild IHitems| |key value entries IHvalue IHentries]
    using json_cons_ind; intros inside Hwf; try by constructor.
  - rewrite find_cons. simpl in Hwf. apply andb_true_iff in Hwf as [Hc Hi].
    apply Forall_app. split; [by eapply IHchild | by eapply IHitems].
  - rewrite find_entry.
    apply wf_dict_cons in Hwf as [(Hnil & Hk & Hv)|(Hk & Hv & Hes & _)].
    + subst entries. rewrite app_nil_r.
      destruct (String.eqb_spec key target) as [->|Hne].
      * constructor; [by exists inside | constructor].
      * apply variant_ok_well_formed in Hv as [inside' Hv]. by eapply IHvalue.
    + destruct (String.eqb_spec key target) as [->|Hne]; [congruence|].
      apply Forall_app. split; [by eapply IHvalue | by eapply IHentries].
Qed.

Lemma wf_found_plain target element inside :
  target = "Table" ∨ target = "CompoundIdentifier" ∨ target = "Identifier" →
  well_formed inside element = true →
  Forall (λ node, plain node = true) (find_nodes_by_key element target).
Proof.
  intros Ht Hwf.
  eapply Forall_impl; [eapply (wf_found target); [|exact Hwf]|].
  - by destruct Ht as [-> | [-> | ->] ].
  - intros node [inside' H]. destruct Ht as [-> | [-> | ->] ]; cbn in H; [|done..].
    by apply andb_true_iff in H as [_ H].
Qed.

Lemma wf_found_select element inside :
  well_formed inside element = true →
  Forall (λ node, well_formed true node = true) (find_nodes_by_key element "Select").
Proof.
  intros Hwf. eapply Forall_impl; [by eapply (wf_found "Select")|].
  by intros node [inside' H].
Qed.

(** ** The bodies of the loops of [prepare_tree] *)

Lemma qualify_table_spec engine prefix table sc table' sc' :
  plain (JList prefix) = true → plain table = true → scope_plain sc →
  qualify_table engine prefix table sc = Ok (table', sc') →
  (renamed_as prefix table table' ∧ plain table' = true) ∧ scope_plain sc'.
Proof.
  intros Hprefix Hplain Hsc. unfold qualify_table.
  intros (name & Hname & H)%bind_Ok_inv.
  destruct name as [| | | |parts|]; try done.
  apply bind_Ok_inv in H as (table1 & Hset & H).
  apply bind_Ok_inv in H as (key & Hkey & H).
  apply bind_Ok_inv in H as (names & Hnames & [= <- <-]).
  assert (plain table1 = true) as Hplain1.
  { eapply plain_setitem; [| |exact Hplain|exact Hset]; [done|].
    rewrite plain_app. apply andb_true_iff. split.
    - by apply plain_slice_to.
    - by eapply plain_getitem. }
  split; [split|]; [|done|].
  - exists parts. split; [done|].
    destruct table as [| | | | |entries]; try done.
    injection Hset as <-. simpl. by rewrite dict_get_set_eq.
  - intros key' t. simpl. destruct (String.eqb_spec key key') as [->|Hne].
    + rewrite dict_get_set_eq. by intros [= <-].
    + rewrite dict_get_set_ne by done. apply Hsc.
Qed.

Lemma alias_set_plain key name table_aliases :
  plain name = true → aliases_plain table_aliases →
  aliases_plain (alias_set key name table_aliases).
Proof.
  unfold aliases_plain.
  intros Hname. induction 1 as [|[k v] table_aliases Hv Hrest IH]; simpl.
  - by repeat constructor.
  - destruct (py_eqb k key); by constructor.
Qed.

Lemma alias_get_plain key name table_aliases :
  aliases_plain table_aliases → alias_get key table_aliases = Some name →
  plain name = true.
Proof.
  unfold aliases_plain.
  induction 1 as [|[k v] table_aliases Hv _ IH]; simpl; [done|].
  destruct (py_eqb k key); [by intros [= <-] | done].
Qed.

Lemma unalias_table_spec table table_aliases table' table_aliases' :
  plain table = true → aliases_plain table_aliases →
  unalias_table table table_aliases = Ok (table', table_aliases') →
  (unaliased_as table table' ∧ plain table' = true) ∧ aliases_plain table_aliases'.
Proof.
  intros Hplain Haliases. unfold unalias_table.
  intros (alias & Halias & H)%bind_Ok_inv.
  destruct (is_none alias) eqn:Hnone.
  - injection H as <- <-. by destruct alias.
  - apply bind_Ok_inv in H as (name & Hname & H).
    apply bind_Ok_inv in H as (alias_name & _ & H).
    apply bind_Ok_inv in H as (alias_value & _ & H).
    destruct (hashable alias_value); [|done].
    apply bind_Ok_inv in H as (table1 & Hset & [= <- <-]).
    destruct table as [| | | | |entries]; try done.
    injection Hset as <-. split; [split; [split|]|].
    + simpl. by rewrite dict_get_set_ne.
    + simpl. by rewrite dict_get_set_eq.
    + by apply plain_dict_set.
    + apply alias_set_plain; [|done]. by eapply plain_getitem.
Qed.

Lemma qualify_compound_plain prefix table_aliases cid new :
  plain (JList prefix) = true → aliases_plain table_aliases → plain cid = true →
  qualify_compound prefix table_aliases cid = Ok new → plain new = true.
Proof.
  intros Hprefix Haliases Hplain. unfold qualify_compound.
  intros (parts & Hparts & H)%bind_Ok_inv.
  pose proof (plain_iter _ _ Hplain Hparts) as Hpp.
  destruct (rev parts) as [|column [|table rest]] eqn:Hrev; try done.
  apply bind_Ok_inv in H as (value & Hvalue & H).
  destruct (hashable value); [|done].
  destruct (alias_get value table_aliases) as [name|] eqn:Hget.
  - destruct name as [| | | |name|]; try done. injection H as <-.
    rewrite plain_app. apply andb_true_iff. split.
    + by eapply alias_get_plain.
    + simpl. rewrite andb_true_r. eapply plain_elem; [exact Hpp|].
      apply list_elem_of_In, in_rev. rewrite Hrev. by left.
  - destruct cid as [| | | |items|]; try done. injection H as <-.
    rewrite plain_app. apply andb_true_iff. split; [by apply plain_slice_to | done].
Qed.

Lemma qualify_identifier_plain sc id_ new :
  scope_plain sc → plain id_ = true →
  qualify_identifier sc id_ = Ok new → plain new = true.
Proof.
  intros Hsc Hplain. unfold qualify_identifier.
  intros (candidates & _ & H)%bind_Ok_inv.
  destruct candidates as [|key [|]]; try done.
  destruct (dict_get key (tables sc)) as [table|] eqn:Hget; [|done].
  apply bind_Ok_inv in H as (name & Hname & H).
  destruct name as [| | | |parts|]; try done. injection H as <-.
  rewrite plain_app. apply andb_true_iff. split.
  - eapply plain_getitem; [|exact Hname]. by eapply Hsc.
  - simpl. by rewrite Hplain.
Qed.

(** ** One [Select] *)

Lemma prepare_select_spec prefix sc select select' :
  plain (JList prefix) = true → scope_plain sc →
  well_formed true select = true →
  prepare_select prefix sc select = Ok select' →
  well_formed true select' = true
  ∧ Forall2 unaliased_as (tables_of select) (tables_of select').
Proof.
  intros Hprefix Hsc Hwf. unfold prepare_select.
  intros ([unaliased table_aliases] & Hloop & H)%bind_Ok_inv.
  (* the aliases of the tables *)
  eapply (for_state_spec _ (λ table, plain table = true) aliases_plain
            (λ old new, unaliased_as old new ∧ plain new = true)) in Hloop
    as [Htables Haliases];
    [|intros ? ? ? ? ? ?; by apply unalias_table_spec
     |by eapply wf_found_plain; [left|]
     |constructor].
  pose proof (put_Put "Table" select unaliased
                (eq_sym (Forall2_length _ _ _ Htables))) as Hput1.
  set (select1 := (put_nodes_by_key select "Table" unaliased).1) in *.
  destruct (Put_related unaliased_as _ _ _ _ Hput1 eq_refl true Hwf) as [Hwf1 Ht1].
  { by intros []. }
  { eapply Forall2_impl; [exact Htables|].
    intros old new [Hun Hp] inside'. cbn. intros [-> _]%andb_true_iff.
    split; [done | by constructor]. }
  (* the compound identifiers *)
  rewrite find_with_parent_fst in H.
  apply bind_Ok_inv in H as (cids & Hcids & H).
  eapply (for_list_spec _ (λ cid, plain cid = true)
            (λ old new, plain old = true ∧ plain new = true)) in Hcids;
    [|intros cid new Hcid Hnew; split; [done|]; by eapply qualify_compound_plain
     |by eapply wf_found_plain; [right; left|]].
  pose proof (put_Put "CompoundIdentifier" select1 cids
                (eq_sym (Forall2_length _ _ _ Hcids))) as Hput2.
  set (select2 := (put_nodes_by_key select1 "CompoundIdentifier" cids).1) in *.
  destruct (Put_related eq _ _ _ _ Hput2 eq_refl true Hwf1) as [Hwf2 Ht2].
  { done. }
  { eapply Forall2_impl; [exact Hcids|].
    intros old new [Hold Hnew] inside' _. split; [done|].
    unfold tables_under. simpl. by rewrite !plain_find. }
  (* the identifiers *)
  rewrite find_with_parent_fst in H.
  apply bind_Ok_inv in H as (ids & Hids & [= <-]).
  eapply (for_list_spec _ (λ id_, plain id_ = true)
            (λ old new, plain old = true ∧ plain new = true)) in Hids;
    [|intros id_ new Hid Hnew; split; [done|]; by eapply qualify_identifier_plain
     |by eapply wf_found_plain; [right; right|]].
  destruct (retag_spec "Identifier" "CompoundIdentifier" select2 eq_refl
              ltac:(done) true ids Hwf2 (eq_sym (Forall2_length _ _ _ Hids)))
    as (select3 & Hretag & HRetag).
  specialize (Hretag []). rewrite app_nil_r in Hretag. rewrite Hretag. simpl.
  destruct (Retag_tables _ _ _ _ _ HRetag eq_refl ltac:(done) true Hwf2)
    as [Hwf3 Ht3].
  { eapply Forall2_impl; [exact Hids|].
    intros old new [Hold Hnew] inside' _. split; [done|].
    unfold tables_of. rewrite find_entry. simpl. by rewrite !plain_find. }
  split; [done|]. rewrite Ht3.
  apply list_eq_Forall2 in Ht2. by rewrite <-Ht2.
Qed.

(** ** The whole tree *)

Lemma Retag_list target newkey items news element' :
  Retag target newkey (JList items) news element' →
  ∃ items', element' = JList items'.
Proof. inversion 1; by eexists. Qed.

Lemma expr_of_alias inside value expr :
  variant_ok inside "ExprWithAlias" value = true →
  getitem value "expr" = Ok expr →
  well_formed inside (JDict [("UnnamedExpr", expr)]) = true
  ∧ tables_of (JDict [("UnnamedExpr", expr)]) = tables_of value.
Proof.
  intros Hok Hexpr.
  assert (alias_shaped value && well_formed inside value = true)
    as [Hshape Hwf]%andb_true_iff by exact Hok.
  destruct value as [| | | | |[|[k1 e] [|[k2 a] [|]]]]; try done.
  simpl in Hshape.
  apply andb_true_iff in Hshape as [[Hk1 Hk2]%andb_true_iff Ha].
  apply String.eqb_eq in Hk1 as ->. apply String.eqb_eq in Hk2 as ->.
  simpl in Hexpr. injection Hexpr as <-.
  rewrite wf_many in Hwf. simpl in Hwf.
  apply andb_true_iff in Hwf as [He _].
  split; [by rewrite wf_single_struct|].
  unfold tables_of. rewrite !find_entry. simpl.
  by rewrite (plain_find a).
Qed.

Lemma prepare_tree_qualifies engine database catalog schema tree tree' :
  well_formed false (JList tree) = true →
  prepare_tree engine database catalog schema tree = Ok tree' →
  well_formed false (JList tree') = true
  ∧ Forall2 (qualified_as (make_prefix database catalog schema))
      (tables_of (JList tree)) (tables_of (JList tree')).
Proof.
  intros Hwf. unfold prepare_tree. cbv zeta.
  set (prefix := make_prefix database catalog schema).
  assert (plain (JList prefix) = true) as Hprefix by apply plain_prefix.
  intros ([qualified sc] & Hloop & H)%bind_Ok_inv.
  (* the names of the tables *)
  eapply (for_state_spec _ (λ table, plain table = true) scope_plain
            (λ old new, renamed_as prefix old new ∧ plain new = true)) in Hloop
    as [Htables Hsc];
    [|intros ? ? ? ? ? ?; by apply qualify_table_spec
     |by eapply wf_found_plain; [left|]
     |done].
  pose proof (put_Put "Table" (JList tree) qualified
                (eq_sym (Forall2_length _ _ _ Htables))) as Hput1.
  destruct (put_list_is_list "Table" tree qualified) as [tree1 Htree1].
  rewrite Htree1 in Hput1, H.
  destruct (Put_related (renamed_as prefix) _ _ _ _ Hput1 eq_refl false Hwf)
    as [Hwf1 Ht1].
  { by intros []. }
  { eapply Forall2_impl; [exact Htables|].
    intros old new [Hre Hp] inside'. cbn. intros [-> _]%andb_true_iff.
    split; [done | by constructor]. }
  (* the selects *)
  apply bind_Ok_inv in H as (selects & Hselects & H).
  eapply (for_list_spec _ (λ select, well_formed true select = true)
            (λ old new, well_formed true new = true
                        ∧ Forall2 unaliased_as (tables_of old) (tables_of new)))
    in Hselects;
    [|intros ? ? ? ?; by eapply prepare_select_spec
     |by eapply wf_found_select].
  pose proof (put_Put "Select" (JList tree1) selects
                (eq_sym (Forall2_length _ _ _ Hselects))) as Hput2.
  destruct (put_list_is_list "Select" tree1 selects) as [tree2 Htree2].
  rewrite Htree2 in Hput2, H.
  destruct (Put_related unaliased_as _ _ _ _ Hput2 eq_refl false Hwf1)
    as [Hwf2 Ht2].
  { intros _ [Hf|Hf]; [discriminate | by destruct Hf]. }
  { eapply Forall2_impl; [exact Hselects|].
    by intros old new [Hw Ht] inside' _. }
  (* the aliases of the projections *)
  rewrite find_with_parent_fst in H.
  apply bind_Ok_inv in H as (exprs & Hexprs & H).
  eapply (for_list_spec _
            (λ old, ∃ inside', variant_ok inside' "ExprWithAlias" old = true)
            (λ old new, getitem old "expr" = Ok new)) in Hexprs;
    [|by intros ? ? ? ?
     |by eapply (wf_found "ExprWithAlias")].
  destruct (retag_spec "ExprWithAlias" "UnnamedExpr" (JList tree2) eq_refl
              ltac:(done) false exprs Hwf2 (eq_sym (Forall2_length _ _ _ Hexprs)))
    as (tree3 & Hretag & HRetag).
  specialize (Hretag []). rewrite app_nil_r in Hretag. rewrite Hretag in H.
  destruct (Retag_tables _ _ _ _ _ HRetag eq_refl ltac:(done) false Hwf2)
    as [Hwf3 Ht3].
  { eapply Forall2_impl; [exact Hexprs|].
    intros old new Hexpr inside' Hok. by eapply expr_of_alias. }
  apply Retag_list in HRetag as [items3 ->]. injection H as <-.
  split; [done|]. rewrite Ht3.
  eapply Forall2_trans; [|exact Ht1|exact Ht2].
  intros t0 t1 t2 (parts & Hname0 & Hname1) [Hname2 Halias].
  exists parts. by rewrite Hname2.
Qed.

(** ** Aliases of tables and the columns named through them *)

Lemma py_eqb_hashable_refl value : hashable value = true → py_eqb value value = true.
Proof.
  destruct value as [|b|n|s| |]; try done; simpl; intros _.
  - by destruct b.
  - apply Z.eqb_refl.
  - apply String.eqb_refl.
Qed.

Lemma alias_get_set key name table_aliases :
  hashable key = true →
  alias_get key (alias_set key name table_aliases) = Some name.
Proof.
  intros Hkey. induction table_aliases as [|[k v] table_aliases IH]; simpl.
  - by rewrite py_eqb_hashable_refl.
  - destruct (py_eqb k key) eqn:Hk; simpl; by rewrite Hk.
Qed.

(** The loop over the tables of a [Select] records, for a table with an
    alias, the name of the table under the alias. *)
Lemma unalias_table_records table table_aliases table' table_aliases' alias :
  unalias_table table table_aliases = Ok (table', table_aliases') →
  getitem table "alias" = Ok alias → is_none alias = false →
  ∃ alias_name alias_value name,
    getitem alias "name" = Ok alias_name
    ∧ getitem alias_name "value" = Ok alias_value
    ∧ getitem table "name" = Ok name
    ∧ alias_get alias_value table_aliases' = Some name.
Proof.
  unfold unalias_table. intros H Halias Hnone. rewrite Halias in H. simpl in H.
  rewrite Hnone in H.
  apply bind_Ok_inv in H as (name & Hname & H).
  apply bind_Ok_inv in H as (alias_name & Haname & H).
  apply bind_Ok_inv in H as (alias_value & Hvalue & H).
  destruct (hashable alias_value) eqn:Hhash; [|done].
  apply bind_Ok_inv in H as (table1 & _ & [= _ <-]).
  exists alias_name, alias_value, name. repeat split; try done.
  by apply alias_get_set.
Qed.

(** A compound identifier whose table part is an alias becomes the name
    recorded for the alias followed by the column. *)
Lemma compound_through_alias prefix table_aliases cid parts column table rest
  value name :
  py_iter cid = Ok parts → rev parts = column :: table :: rest →
  getitem table "value" = Ok value → hashable value = true →
  alias_get value table_aliases = Some (JList name) →
  qualify_compound prefix table_aliases cid = Ok (JList (name ++ [column])).
Proof.
  intros Hparts Hrev Hvalue Hhash Hget. unfold qualify_compound.
  rewrite Hparts. simpl. rewrite Hrev, Hvalue. simpl. by rewrite Hhash, Hget.
Qed.

Lemma padded_length database catalog schema (parts : list json) :
  (1 ≤ length parts ≤ 4)%nat →
  length (slice_to (make_prefix database catalog schema)
            (4 - Z.of_nat (length parts)) ++ parts) = 4%nat.
Proof.
  intros Hlen. unfold slice_to.
  destruct (Z.leb_spec 0 (4 - Z.of_nat (length parts))) as [_|Hneg]; [|lia].
  rewrite length_app, length_take. unfold make_prefix. rewrite length_map. simpl.
  lia.
Qed.

(** ** Tables after [prepare_tree] *)

(** X16.  Let [tree] be a list of statements as the parser builds
    them for queries: a searched variant is the only key of its dict, and
    every table reference lies inside a [Select].  If
    [prepare_tree(tree, engine, database, catalog, schema)] returns, the
    tree it leaves has the same table references in the same order, and of
    each of them: the name is the original name with
    [prefix[: 4 - len(name)]] in front, where [prefix] is
    [(database, catalog, schema)]; the alias is [None]; and when the
    original name has one to four parts, the new name has four parts. *)
Theorem prepare_tree_tables engine database catalog schema tree tree' :
  well_formed false (JList tree) = true →
  prepare_tree engine database catalog schema tree = Ok tree' →
  Forall2 (λ table table',
             qualified_as (make_prefix database catalog schema) table table'
             ∧ ∀ parts, getitem table "name" = Ok (JList parts) →
                        (1 ≤ length parts ≤ 4)%nat →
                        ∃ parts', getitem table' "name" = Ok (JList parts')
                                  ∧ length parts' = 4%nat)
          (tables_of (JList tree)) (tables_of (JList tree')).
Proof.
  intros Hwf Hprepare.
  destruct (prepare_tree_qualifies _ _ _ _ _ _ Hwf Hprepare) as [_ Htables].
  eapply Forall2_impl; [exact Htables|].
  intros table table' Hq. split; [done|].
  intros parts Hname Hlen. destruct Hq as (parts0 & Hname0 & Hname' & _).
  rewrite Hname in Hname0. injection Hname0 as <-.
  eexists. split; [exact Hname'|]. by apply padded_length.
Qed.

Lemma prepare_tree_tables_witness :
  well_formed false (JList [sales_query]) = true
  ∧ prepare_tree test_engine "postgres" None (Some "main") [sales_query]
    = Ok prepared_sales
  ∧ Forall2 (λ table table',
               qualified_as (make_prefix "postgres" None (Some "main")) table table'
               ∧ ∀ parts, getitem table "name" = Ok (JList parts) →
                          (1 ≤ length parts ≤ 4)%nat →
                          ∃ parts', getitem table' "name" = Ok (JList parts')
                                    ∧ length parts' = 4%nat)
            (tables_of (JList [sales_query])) (tables_of (JList prepared_sales)).
Proof.
  split; [reflexivity|]. split; [reflexivity|].
  apply (prepare_tree_tables test_engine "postgres" None (Some "main")
           [sales_query] prepared_sales); reflexivity.
Defined.

(** A table name of five parts, [SELECT * FROM a.b.c.main.sales]: the call
    returns, and the name it leaves has seven parts, the first two of the
    prefix ([prefix[:-1]]) and the five of the name. *)
Lemma long_names_are_not_canonical :
  well_formed false (JList [select_star ["a"; "b"; "c"; "main"; "sales"]]) = true
  ∧ (tree' ← prepare_tree test_engine "postgres" None (Some "main")
               [select_star ["a"; "b"; "c"; "main"; "sales"]];
     for_list (λ table, getitem table "name") (tables_of (JList tree')))
    = Ok [JList (take 2 (make_prefix "postgres" None (Some "main"))
                 ++ map ident ["a"; "b"; "c"; "main"; "sales"])]
  ∧ length (take 2 (make_prefix "postgres" None (Some "main"))
            ++ map ident ["a"; "b"; "c"; "main"; "sales"]) = 7%nat.
Proof. by vm_compute. Qed.

(** C8: the claim fails on the code when a subquery uses the alias of the
    outer query.  In
    [SELECT s.event_time FROM sales AS s
     WHERE s.event_time IN (SELECT s.event_time FROM other AS s)]
    the search for the tables of the outer [Select] also yields the table of
    the subquery, whose alias replaces the one recorded for [sales]: the
    call returns, both tables have their 4-part names and no alias, and the
    three compound identifiers, the one of the outer projection first, are
    all rewritten to the chain of [other], not to the chain of [sales],
    which the outer [s] stands for.  With another alias in the subquery the
    reference of the outer projection is rewritten to the chain of
    [sales]. *)
Theorem alias_of_subquery_shadows :
  well_formed false (JList [shadowing_query "s"]) = true
  ∧ (∃ tree',
       prepare_tree alias_engine "postgres" None (Some "main") [shadowing_query "s"]
       = Ok tree'
       ∧ for_list (λ table, getitem table "name") (tables_of (JList tree'))
         = Ok [JList (main_table "sales"); JList (main_table "other")]
       ∧ for_list (λ table, getitem table "alias") (tables_of (JList tree'))
         = Ok [JNone; JNone]
       ∧ flat_map (λ select, find_nodes_by_key select "CompoundIdentifier")
           (find_nodes_by_key (JList tree') "Select")
         = [JList (main_table "other" ++ [ident "event_time"]);
            JList (main_table "other" ++ [ident "event_time"]);
            JList (main_table "other" ++ [ident "event_time"])])
  ∧ (∃ tree',
       prepare_tree alias_engine "postgres" None (Some "main") [shadowing_query "o"]
       = Ok tree'
       ∧ flat_map (λ select, find_nodes_by_key select "CompoundIdentifier")
           (find_nodes_by_key (JList tree') "Select")
         = [JList (main_table "sales" ++ [ident "event_time"]);
            JList (main_table "sales" ++ [ident "event_time"]);
            JList (main_table "sales" ++ [ident "event_time"])]).
Proof.
  split; [reflexivity|]. split; eexists; (split; [vm_compute; reflexivity|]);
    repeat split; vm_compute; reflexivity.
Qed.

(** ** Bare identifiers *)

Lemma dict_get_key {V} key (v : V) entries :
  dict_get key entries = Some v → key ∈ map fst entries.
Proof.
  induction entries as [|[k w] entries IH]; simpl; [done|].
  destruct (String.eqb_spec k key) as [->|Hne].
  - intros _. by left.
  - intros H. right. by apply IH.
Qed.

Lemma dict_set_keys {V} key (v : V) entries key' :
  key' ∈ map fst (dict_set key v entries) → key' = key ∨ key' ∈ map fst entries.
Proof.
  induction entries as [|[k w] entries IH]; simpl.
  - intros ->%list_elem_of_singleton. by left.
  - destruct (String.eqb_spec k key) as [->|Hne]; simpl.
    + intros H. by right.
    + intros [->|H]%elem_of_cons.
      * right. by left.
      * destruct (IH H) as [->|H']; [by left | right; by right].
Qed.

Lemma dict_set_NoDup {V} key (v : V) entries :
  NoDup (map fst entries) → NoDup (map fst (dict_set key v entries)).
Proof.
  induction entries as [|[k w] entries IH]; simpl.
  - intros _. apply NoDup_singleton.
  - intros [Hk Hnd]%NoDup_cons.
    destruct (String.eqb_spec k key) as [->|Hne]; simpl.
    + by apply NoDup_cons.
    + apply NoDup_cons. split; [|by apply IH].
      intros [->|H]%dict_set_keys; done.
Qed.

Lemma qualify_table_inv engine prefix table sc table' sc' :
  qualify_table engine prefix table sc = Ok (table', sc') →
  ∃ key names,
    renamed_as prefix table table'
    ∧ get_column_names engine table' = Ok names
    ∧ sc' = Scope (dict_set key names (columns sc)) (dict_set key table' (tables sc)).
Proof.
  unfold qualify_table. intros (name & Hname & H)%bind_Ok_inv.
  destruct name as [| | | |parts|]; try done.
  apply bind_Ok_inv in H as (table1 & Hset & H).
  apply bind_Ok_inv in H as (key & Hkey & H).
  apply bind_Ok_inv in H as (names & Hnames & [= <- <-]).
  exists key, names. split; [|done].
  exists parts. split; [done|].
  destruct table as [| | | | |entries]; try done.
  injection Hset as <-. simpl. by rewrite dict_get_set_eq.
Qed.

Lemma qualify_table_scope engine prefix found table sc table' sc' :
  table ∈ found → scope_built engine prefix found sc →
  qualify_table engine prefix table sc = Ok (table', sc') →
  scope_built engine prefix found sc'.
Proof.
  intros Hin [Hnd Hsc] (key & names & Hre & Hnames & ->)%qualify_table_inv.
  split; simpl.
  - by apply dict_set_NoDup.
  - intros key' names'. destruct (String.eqb_spec key key') as [->|Hne].
    + rewrite dict_get_set_eq. intros [= <-].
      exists table', table. by rewrite dict_get_set_eq.
    + rewrite dict_get_set_ne by done.
      intros (t & original & Ht & ?)%Hsc.
      exists t, original. by rewrite dict_get_set_ne.
Qed.

(** The scope the first loop of [prepare_tree] builds. *)
Lemma first_loop_scope engine prefix found qualified sc :
  for_state (qualify_table engine prefix) found (Scope [] []) = Ok (qualified, sc) →
  scope_built engine prefix found sc.
Proof.
  intros Hloop.
  eapply (for_state_spec _ (λ table, table ∈ found)
            (scope_built engine prefix found) (λ _ _, True)) in Hloop as [_ H];
    [done| | |].
  - intros table s table' s' Hin Hs Hq. split; [done|].
    by eapply qualify_table_scope.
  - by apply Forall_forall.
  - split; [constructor | done].
Qed.

Lemma get_candidates_spec id_ v columns :
  getitem id_ "value" = Ok v → NoDup (map fst columns) →
  ∃ candidates,
    get_candidates id_ columns = Ok candidates
    ∧ NoDup candidates
    ∧ ∀ key, key ∈ candidates
             ↔ ∃ names, dict_get key columns = Some names ∧ py_in v names = true.
Proof.
  intros Hv. induction columns as [|[k names] columns IH]; simpl.
  - intros _. exists []. split; [done|]. split; [constructor|].
    intros key. split; [by intros ?%elem_of_nil | by intros (? & ? & _)].
  - intros [Hk Hnd]%NoDup_cons. destruct (IH Hnd) as (candidates & -> & Hnd' & Hin).
    rewrite Hv. simpl. eexists. split; [done|].
    assert (k ∉ candidates) as Hfresh.
    { intros (names' & Hget & _)%Hin. by apply dict_get_key in Hget. }
    destruct (py_in v names) eqn:Hnames.
    + split; [by apply NoDup_cons|].
      intros key. rewrite elem_of_cons, Hin.
      destruct (String.eqb_spec k key) as [->|Hne].
      * split; [by exists names | by left].
      * split; [by intros [->|?] | by right].
    + split; [done|]. intros key. rewrite Hin.
      destruct (String.eqb_spec k key) as [->|Hne]; [|done].
      split.
      * intros (names' & Hget & _). by apply dict_get_key in Hget.
      * intros (names' & [= <-] & Hin'). congruence.
Qed.

(** The body of the identifier loop.  Let [sc] be the [columns] and
    [tables] the first loop of
    [prepare_tree] has built from the table references [found] of the tree,
    and [id_] a bare identifier with value [v].  Qualifying [id_] raises
    "Column ... not found in any table" when no column list in [columns]
    holds [v]; raises "Column ... present is ambiguous" when the column
    lists of two different tables hold [v]; and when exactly one table's
    column list holds [v], the identifier is replaced by the compound
    identifier made of that table's name, which is the name of a table
    reference of the tree left-padded with the prefix, followed by [id_]. *)
Lemma bare_identifier_qualification engine prefix found qualified sc id_ v :
  for_state (qualify_table engine prefix) found (Scope [] []) = Ok (qualified, sc) →
  getitem id_ "value" = Ok v →
  ((∀ key names, dict_get key (columns sc) = Some names → py_in v names = false) →
   qualify_identifier sc id_ = Raise (ColumnNotFound id_))
  ∧ (∀ key1 names1 key2 names2,
       key1 ≠ key2 →
       dict_get key1 (columns sc) = Some names1 → py_in v names1 = true →
       dict_get key2 (columns sc) = Some names2 → py_in v names2 = true →
       qualify_identifier sc id_ = Raise (ColumnAmbiguous id_))
  ∧ (∀ key names,
       dict_get key (columns sc) = Some names → py_in v names = true →
       (∀ key' names', dict_get key' (columns sc) = Some names' →
                       py_in v names' = true → key' = key) →
       ∃ table original parts,
         dict_get key (tables sc) = Some table
         ∧ get_column_names engine table = Ok names
         ∧ original ∈ found
         ∧ getitem original "name" = Ok (JList parts)
         ∧ let chain := slice_to prefix (4 - Z.of_nat (length parts)) ++ parts in
           getitem table "name" = Ok (JList chain)
           ∧ qualify_identifier sc id_ = Ok (JList (chain ++ [id_]))
           ∧ retag_nodes_by_key (JDict [("Identifier", id_)])
               "Identifier" "CompoundIdentifier" [JList (chain ++ [id_])]
             = (JDict [("CompoundIdentifier", JList (chain ++ [id_]))], [])).
Proof.
  intros Hloop Hv. apply first_loop_scope in Hloop as [Hnd Hsc].
  destruct (get_candidates_spec id_ v (columns sc) Hv Hnd)
    as (candidates & Hc & Hndc & Hin).
  unfold qualify_identifier. rewrite Hc, bind_Ok.
  split; [|split].
  - intros Hnone. destruct candidates as [|key rest]; [done|].
    destruct (proj1 (Hin key)) as (names & Hget & Hp); [by left|].
    by rewrite (Hnone _ _ Hget) in Hp.
  - intros key1 names1 key2 names2 Hne H1 P1 H2 P2.
    assert (key1 ∈ candidates) as Hin1 by (apply Hin; eauto).
    assert (key2 ∈ candidates) as Hin2 by (apply Hin; eauto).
    destruct candidates as [|k [|k' rest]]; [|exfalso|done].
    + by apply elem_of_nil in Hin1.
    + apply list_elem_of_singleton in Hin1, Hin2. congruence.
  - intros key names Hget Hp Huniq.
    assert (candidates = [key]) as ->.
    { assert (∀ k, k ∈ candidates → k = key) as Hall.
      { intros k (names' & Hget' & Hp')%Hin. by eapply Huniq. }
      assert (key ∈ candidates) as Hkey by (apply Hin; eauto).
      destruct candidates as [|k [|k' rest]].
      - by apply elem_of_nil in Hkey.
      - f_equal. apply Hall. by left.
      - exfalso. apply NoDup_cons in Hndc as [Hk _]. apply Hk.
        rewrite (Hall k) by (by left).
        rewrite <-(Hall k') by (right; by left). by left. }
    destruct (Hsc key names Hget)
      as (table & original & Ht & Ho & (parts & Hn0 & Hn1) & Hcols).
    exists table, original, parts. cbv zeta.
    rewrite Ht, Hn1. by repeat split.
Qed.

(* ================================================================== *)
(** * Further properties of the verifier *)

Lemma py_all_app {A} (body : A → result bool) xs ys :
  py_all body (xs ++ ys)
  = (b ← py_all body xs; if b : bool then py_all body ys else Ok false).
Proof.
  induction xs as [|x xs IH]; simpl; [done|].
  destruct (body x) as [[|]|e]; simpl; [exact IH | done | done].
Qed.

(** X1.  Verifying a statement against the concatenation of two lists of
    permissions is verifying it against the first list and, only when that
    returns [True], against the second; so a statement accepted under the
    longer list is accepted under each of the two. *)
Theorem verify_statement_app parse_sql query permissions1 permissions2 :
  verify_statement parse_sql query (permissions1 ++ permissions2)
  = (b ← verify_statement parse_sql query permissions1;
     if b : bool then verify_statement parse_sql query permissions2 else Ok false)
  ∧ (verify_statement parse_sql query (permissions1 ++ permissions2) = Ok true →
     verify_statement parse_sql query permissions1 = Ok true
     ∧ verify_statement parse_sql query permissions2 = Ok true).
Proof.
  unfold verify_statement. rewrite py_all_app. split; [done|].
  destruct (py_all _ permissions1) as [[|]|e]; simpl; by intros.
Qed.

(** X2.  A query that the parser reads as no statement at all is accepted
    whatever the permissions are: [prepare_tree] has nothing to qualify and
    [all] of no statement is [True]. *)
Theorem verify_query_no_statement parse_sql query engine database catalog schema
  permissions :
  parse_sql query = Ok [] →
  verify_query parse_sql query engine database catalog schema permissions = Ok true.
Proof. intros Hparse. unfold verify_query. by rewrite Hparse. Qed.

Lemma verify_query_no_statement_witness :
  (λ _ : string, Ok []) "" = Ok ([] : list json)
  ∧ verify_query (λ _, Ok []) "" test_engine "postgres" None None
      ["SELECT * FROM nothing"] = Ok true.
Proof.
  split; [reflexivity|].
  by apply (verify_query_no_statement (λ _, Ok []) "" test_engine "postgres"
              None None ["SELECT * FROM nothing"]).
Defined.

Lemma for_list_total {A B} (body : A → result B) xs :
  (∀ x, x ∈ xs → ∃ y, body x = Ok y) → ∃ ys, for_list body xs = Ok ys.
Proof.
  induction xs as [|x xs IH]; intros Hall; simpl; [by eexists|].
  destruct (Hall x) as [y ->]; [by left|].
  destruct IH as [ys ->]; [intros ? ?; apply Hall; by right|].
  by eexists.
Qed.

(** X3.  Only table references decide [matches_permission].  A statement
    without a table reference matches every permission statement whose
    tables have a name; and a permission statement without a table
    reference matches no statement that has one. *)
Theorem matches_permission_without_tables query permission :
  (find_nodes_by_key query "Table" = [] →
   (∀ table, table ∈ find_nodes_by_key permission "Table" →
             ∃ name_, getitem table "name" = Ok name_) →
   matches_permission query permission = Ok true)
  ∧ (find_nodes_by_key permission "Table" = [] →
     find_nodes_by_key query "Table" ≠ [] →
     matches_permission query permission = Ok false).
Proof.
  unfold matches_permission. split.
  - intros -> Hnames.
    by destruct (for_list_total _ _ Hnames) as [names ->].
  - intros ->. simpl. by destruct (find_nodes_by_key query "Table").
Qed.

Lemma matches_permission_without_tables_witness :
  matches_permission select_nothing (select_star ["postgres"]) = Ok true
  ∧ matches_permission (select_star ["postgres"]) select_nothing = Ok false.
Proof.
  split.
  - apply (proj1 (matches_permission_without_tables select_nothing
                    (select_star ["postgres"]))); [reflexivity|].
    intros table Hin. apply list_elem_of_singleton in Hin. subst table.
    by eexists.
  - by apply (proj2 (matches_permission_without_tables (select_star ["postgres"])
                       select_nothing)).
Defined.

Lemma length_make_prefix database catalog schema :
  length (make_prefix database catalog schema) = 3%nat.
Proof. reflexivity. Qed.

Lemma length_slice_to {A} (l : list A) k :
  length (slice_to l k)
  = if 0 <=? k then (Z.to_nat k `min` length l)%nat
    else Z.to_nat (Z.of_nat (length l) + k).
Proof.
  unfold slice_to. destruct (0 <=? k) eqn:Hk; rewrite length_take; [done|].
  apply Z.leb_gt in Hk. lia.
Qed.

(** Padding a padded name adds nothing, unless the name was empty. *)
Lemma pad_twice (prefix parts : list json) :
  length prefix = 3%nat → parts ≠ [] →
  slice_to prefix
    (4 - Z.of_nat (length (slice_to prefix (4 - Z.of_nat (length parts)) ++ parts)))
  = [].
Proof.
  intros Hprefix Hparts.
  assert (0 < length parts)%nat as Hpos by (destruct parts; [done | simpl; lia]).
  apply length_zero_iff_nil.
  rewrite length_slice_to, length_app, length_slice_to, Hprefix.
  destruct (Z.leb_spec 0 (4 - Z.of_nat (length parts)));
    match goal with |- context [0 <=? ?k] => destruct (Z.leb_spec 0 k) end; lia.
Qed.

(** X4.  Qualifying a table a second time changes nothing: for a table
    reference whose name is not empty, running the body of the first loop of
    [prepare_tree] on the table it has produced, in the scope it has
    produced, gives the same table and the same scope. *)
Theorem qualify_table_twice engine database catalog schema table sc table' sc' parts :
  getitem table "name" = Ok (JList parts) → parts ≠ [] →
  qualify_table engine (make_prefix database catalog schema) table sc
  = Ok (table', sc') →
  qualify_table engine (make_prefix database catalog schema) table' sc'
  = Ok (table', sc').
Proof.
  intros Hname Hparts. unfold qualify_table at 1. rewrite Hname, bind_Ok.
  set (prefix := make_prefix database catalog schema).
  set (qualified := slice_to prefix (4 - Z.of_nat (length parts)) ++ parts).
  intros (table1 & Hset & H)%bind_Ok_inv.
  apply bind_Ok_inv in H as (key & Hkey & H).
  apply bind_Ok_inv in H as (names & Hnames & [= <- <-]).
  destruct table as [| | | | |entries]; try done.
  injection Hset as <-.
  unfold qualify_table. cbn [getitem]. rewrite dict_get_set_eq, bind_Ok.
  assert (slice_to prefix (4 - Z.of_nat (length qualified)) = []) as ->
    by (by apply pad_twice).
  rewrite app_nil_l.
  cbn [setitem]. rewrite dict_set_set, bind_Ok, Hkey, bind_Ok, Hnames, bind_Ok.
  cbn [columns tables]. by rewrite !dict_set_set.
Qed.

Lemma qualify_table_twice_witness :
  getitem (JDict [("name", JList [ident "sales"]); ("alias", JNone)]) "name"
  = Ok (JList [ident "sales"])
  ∧ [ident "sales"] ≠ []
  ∧ qualify_table test_engine (make_prefix "postgres" None (Some "main"))
      (JDict [("name", JList [ident "sales"]); ("alias", JNone)]) (Scope [] [])
    = Ok sales_qualified
  ∧ qualify_table test_engine (make_prefix "postgres" None (Some "main"))
      sales_qualified.1 sales_qualified.2
    = Ok (sales_qualified.1, sales_qualified.2).
Proof.
  split; [reflexivity|]. split; [discriminate|]. split; [reflexivity|].
  by apply (qualify_table_twice test_engine "postgres" None (Some "main")
              (JDict [("name", JList [ident "sales"]); ("alias", JNone)])
              (Scope [] []) sales_qualified.1 sales_qualified.2 [ident "sales"]).
Defined.

(** The body of the loop over compound identifiers.  A compound
    identifier of two to five parts whose table part is
    not an alias is left-padded to five parts with
    [prefix[: 5 - len(cid)]]; a compound identifier of fewer than two parts
    cannot be unpacked into table and column and raises [ValueError]. *)
Lemma qualify_compound_chain database catalog schema table_aliases parts :
  (∀ column table rest value,
     rev parts = column :: table :: rest →
     getitem table "value" = Ok value → hashable value = true →
     alias_get value table_aliases = None →
     (length parts ≤ 5)%nat →
     qualify_compound (make_prefix database catalog schema) table_aliases (JList parts)
     = Ok (JList (take (5 - length parts) (make_prefix database catalog schema)
                  ++ parts))
     ∧ length (take (5 - length parts) (make_prefix database catalog schema)
               ++ parts) = 5%nat)
  ∧ ((length parts < 2)%nat →
     qualify_compound (make_prefix database catalog schema) table_aliases (JList parts)
     = Raise ValueError).
Proof.
  split.
  - intros column table rest value Hrev Hvalue Hhash Hget Hlen.
    assert (2 ≤ length parts)%nat as Hlen2.
    { rewrite <-length_rev, Hrev. simpl. lia. }
    unfold qualify_compound. cbn [py_iter]. rewrite bind_Ok, Hrev, Hvalue, bind_Ok.
    rewrite Hhash, Hget. unfold slice_to.
    destruct (Z.leb_spec 0 (5 - Z.of_nat (length parts))) as [_|]; [|lia].
    replace (Z.to_nat (5 - Z.of_nat (length parts))) with (5 - length parts)%nat
      by lia.
    split; [done|].
    rewrite length_app, length_take, length_make_prefix. lia.
  - intros Hlen. unfold qualify_compound. cbn [py_iter]. rewrite bind_Ok.
    destruct parts as [|part1 [|part2 parts]]; [done | done | simpl in Hlen; lia].
Qed.

(** One round of the loop over the tables followed by one round of the
    loop over compound identifiers.  When the loop over
    the tables of a [Select] has gone through a table with an alias, the
    table is left with its name and without the alias, and a compound
    identifier whose table part has the value of the alias is rewritten to
    the name of that table followed by the column. *)
Lemma alias_resolves_compound prefix table table_aliases table' table_aliases'
  alias alias_name alias_value name_ front part column :
  getitem table "alias" = Ok alias → is_none alias = false →
  getitem alias "name" = Ok alias_name →
  getitem alias_name "value" = Ok alias_value →
  getitem table "name" = Ok (JList name_) →
  getitem part "value" = Ok alias_value →
  unalias_table table table_aliases = Ok (table', table_aliases') →
  getitem table' "alias" = Ok JNone
  ∧ getitem table' "name" = Ok (JList name_)
  ∧ qualify_compound prefix table_aliases' (JList (front ++ [part; column]))
    = Ok (JList (name_ ++ [column])).
Proof.
  intros Halias Hnone Haname Havalue Hname Hpart. unfold unalias_table.
  rewrite Halias, bind_Ok, Hnone, Hname, bind_Ok, Haname, bind_Ok, Havalue, bind_Ok.
  destruct (hashable alias_value) eqn:Hhash; [|done].
  destruct table as [| | | | |entries]; try done.
  cbn [setitem]. rewrite bind_Ok. intros [= <- <-].
  split; [|split].
  - cbn [getitem]. by rewrite dict_get_set_eq.
  - cbn [getitem] in *. by rewrite dict_get_set_ne.
  - eapply compound_through_alias; [reflexivity| |exact Hpart|exact Hhash|].
    + rewrite rev_app_distr. reflexivity.
    + by apply alias_get_set.
Qed.

(* ================================================================== *)
(** * Further properties of the query builder *)

(** X7.  Without nodes, [get_database_for_nodes] chooses among the
    databases of the session other than DJ's own.  It never returns the
    database [DJ_DATABASE_ID], whatever database id is asked for; it raises
    "No valid database was found" when the session has no other database;
    and with no database id it returns one of the lowest cost among them. *)
Theorem get_database_without_nodes set_order DJ_DATABASE_ID get_computable_databases
  session node_columns :
  let chosen := get_database_for_nodes set_order DJ_DATABASE_ID
                  get_computable_databases session [] node_columns in
  let eligible database :=
    database ∈ session_databases session
    ∧ is_Some (db_id database) ∧ db_id database ≠ Some DJ_DATABASE_ID in
  (∀ database_id database, chosen database_id = Ok database → eligible database)
  ∧ ((∀ database, ¬ eligible database) →
     ∀ database_id, chosen database_id
                    = Raise (Exception_ "No valid database was found"))
  ∧ ((∃ database, eligible database) →
     ∃ database, chosen None = Ok database ∧ eligible database
                 ∧ ∀ other, eligible other → (cost database <= cost other)%Qc).
Proof.
  intros chosen eligible. subst chosen. unfold get_database_for_nodes.
  cbv beta iota. setoid_rewrite bind_Ok.
  remember (filter (λ database, is_Some (db_id database)
                                ∧ db_id database ≠ Some DJ_DATABASE_ID)
                   (session_databases session)) as databases eqn:Hdbs.
  assert (∀ database, database ∈ databases ↔ eligible database) as Hin.
  { intros database. unfold eligible. rewrite Hdbs, list_elem_of_filter. tauto. }
  clear Hdbs. split; [|split].
  - intros database_id database.
    destruct databases as [|first rest]; [done|].
    destruct database_id as [wanted|].
    + destruct (list_find (λ database, db_id database = Some wanted) (first :: rest))
        as [[i found]|] eqn:Hfind; [|done].
      intros [= <-]. apply list_find_Some in Hfind as (Hi & _ & _).
      apply Hin. by eapply list_elem_of_lookup_2.
    + destruct (sorted_by_head cost (first :: rest))
        as (x & tail & before & after & -> & Hx & _); [done|].
      intros [= <-]. apply Hin. rewrite Hx. apply elem_of_app. right. by left.
  - intros Hnone database_id.
    destruct databases as [|first rest]; [done|].
    exfalso. apply (Hnone first), Hin. by left.
  - intros [database Hdb]. apply Hin in Hdb.
    destruct databases as [|first rest]; [by apply elem_of_nil in Hdb|].
    destruct (sorted_by_head cost (first :: rest))
      as (x & tail & before & after & -> & Hx & Hbefore & Hafter); [done|].
    assert (x ∈ first :: rest) as Hxin.
    { rewrite Hx. apply elem_of_app. right. by left. }
    exists x. split; [done|]. split; [by apply Hin|].
    intros other Hother%Hin. rewrite Hx in Hother.
    apply elem_of_app in Hother as [Hb|[->|Ha]%elem_of_cons].
    + apply Qclt_le_weak. by apply Hbefore.
    + apply Qcle_refl.
    + by apply Hafter.
Qed.

Lemma get_database_without_nodes_witness :
  (∃ database,
     (database ∈ session_databases test_session
      ∧ is_Some (db_id database) ∧ db_id database ≠ Some 0))
  ∧ ∃ database,
      get_database_for_nodes by_elements 0 test_computable test_session [] ∅ None
      = Ok database
      ∧ (database ∈ session_databases test_session
         ∧ is_Some (db_id database) ∧ db_id database ≠ Some 0)
      ∧ ∀ other,
          (other ∈ session_databases test_session
           ∧ is_Some (db_id other) ∧ db_id other ≠ Some 0) →
          (cost database <= cost other)%Qc.
Proof.
  assert (∃ database,
            database ∈ session_databases test_session
            ∧ is_Some (db_id database) ∧ db_id database ≠ Some 0) as Hex.
  { exists druid. split; [by left|]. split; [by eexists | discriminate]. }
  split; [exact Hex|].
  exact (proj2 (proj2 (get_database_without_nodes by_elements 0 test_computable
                         test_session ∅)) Hex).
Defined.

(** ** Metric substitution *)

Lemma for_each_app {A S} (body : S → A → result S) xs ys acc :
  for_each body (xs ++ ys) acc = (acc' ← for_each body xs acc; for_each body ys acc').
Proof.
  revert acc. induction xs as [|x xs IH]; intros acc; simpl; [done|].
  destruct (body acc x) as [acc1|e]; simpl; [apply IH | done].
Qed.

(** What one successful round of the loop does: it binds [expression], and
    either keeps the projection expression, or puts an aliased expression
    in its place and adds a source to the new [FROM], for a node of the
    session whose parents are the known ones. *)
Lemma substitute_inv session parse_sql is_metric get_expression_from_projection
  state projection_expression state' :
  substitute session parse_sql is_metric get_expression_from_projection
    state projection_expression = Ok state' →
  is_Some (last_expression state')
  ∧ ((new_projection state' = new_projection state ++ [projection_expression]
      ∧ new_from state' = new_from state
      ∧ known_parents state' = known_parents state)
     ∨ ∃ alias expr source node,
         new_projection state'
         = new_projection state
           ++ [JDict [("ExprWithAlias", JDict [("alias", alias); ("expr", expr)])]]
         ∧ new_from state' = new_from state ++ [source]
         ∧ node ∈ session_nodes session
         ∧ (known_parents state = [] → known_parents state' = parents node)
         ∧ (known_parents state ≠ [] →
            known_parents state' = known_parents state
            ∧ same_set (known_parents state) (parents node) = true)).
Proof.
  unfold substitute. intros H.
  apply bind_Ok_inv in H as (unnamed & _ & H).
  apply bind_Ok_inv in H as ([expression_ alias] & _ & H).
  cbv zeta in H.
  apply bind_Ok_inv in H as (referenced & _ & H).
  destruct referenced as [node_name|]; [|injection H as <-; split; [by eexists | by left]].
  apply bind_Ok_inv in H as (node & Hnode & H).
  destruct node as [node|]; [|injection H as <-; split; [by eexists | by left]].
  destruct (expression node) as [sql|]; [|done].
  destruct (negb (String.eqb sql "") && is_metric sql); [|done].
  apply bind_Ok_inv in H as (parents_ & Hparents & H).
  apply bind_Ok_inv in H as (subtree & _ & H).
  apply bind_Ok_inv in H as (select & _ & H).
  apply bind_Ok_inv in H as (projection & _ & H).
  apply bind_Ok_inv in H as (first & _ & H).
  apply bind_Ok_inv in H as (expr & _ & H).
  apply bind_Ok_inv in H as (select' & _ & H).
  apply bind_Ok_inv in H as (from & _ & H).
  apply bind_Ok_inv in H as (source & _ & H).
  injection H as <-. split; [by eexists|]. right.
  eexists _, expr, source, node. split; [reflexivity|]. split; [reflexivity|].
  cbn [known_parents]. split; [|split].
  - unfold one_or_none in Hnode. destruct node_name as [| | |s| |]; try done.
    destruct (filter (λ node0, name node0 = s) (session_nodes session))
      as [|found [|]] eqn:Hfilter; try done.
    injection Hnode as ->.
    assert (node ∈ filter (λ node0, name node0 = s) (session_nodes session)) as Hin
      by (rewrite Hfilter; by left).
    by apply list_elem_of_filter in Hin as [_ Hin].
  - intros Hnil. rewrite Hnil in Hparents. by injection Hparents as <-.
  - intros Hknown. destruct (known_parents state) as [|parent known]; [done|].
    destruct (same_set (parent :: known) (parents node)); [|done].
    by injection Hparents as <-.
Qed.

Lemma substitute_loop session parse_sql is_metric get_expression_from_projection
  projection state state' :
  for_each (substitute session parse_sql is_metric get_expression_from_projection)
    projection state = Ok state' →
  (∃ added sources,
     new_projection state' = new_projection state ++ added
     ∧ Forall2 kept_or_aliased projection added
     ∧ new_from state' = new_from state ++ sources
     ∧ (length sources ≤ length projection)%nat)
  ∧ (known_parents state ≠ [] → known_parents state' = known_parents state)
  ∧ (projection ≠ [] → is_Some (last_expression state')).
Proof.
  revert state. induction projection as [|item projection IH]; intros state; simpl.
  - intros [= <-]. split; [|done].
    exists [], []. rewrite !app_nil_r. repeat split; [constructor | done].
  - intros (state1 & Hitem & Hrest)%bind_Ok_inv.
    apply substitute_inv in Hitem as [Hbound Hitem].
    destruct (IH _ Hrest) as ((added & sources & Hp & Hadded & Hf & Hlen) & Hparents & Hlast).
    split; [|split].
    + destruct Hitem as [(Hp1 & Hf1 & _)|(alias & expr & source & node & Hp1 & Hf1 & _)].
      * exists (item :: added), sources. rewrite Hp, Hp1, Hf, Hf1, <-app_assoc.
        repeat split; [constructor; [by left | done] | lia].
      * exists (JDict [("ExprWithAlias", JDict [("alias", alias); ("expr", expr)])]
                :: added), (source :: sources).
        rewrite Hp, Hp1, Hf, Hf1, <-!app_assoc.
        repeat split; [constructor; [right; by eexists _, _ | done] | simpl; lia].
    + intros Hknown.
      assert (known_parents state1 = known_parents state) as Hsame.
      { destruct Hitem as [(_ & _ & Hk)|(alias & expr & source & node & _ & _ & _ & _ & Hk)];
          [done | by apply Hk]. }
      rewrite <-Hsame. apply Hparents. by rewrite Hsame.
    + intros _. destruct projection as [|item' projection]; [|by apply Hlast].
      by injection Hrest as <-.
Qed.

(** X8.  When [get_new_projection_and_from] returns, the new projection
    has one expression for each expression of the projection, in the same
    order, each either the expression itself or an aliased expression in its
    place, and the new [FROM] has at most one source for each of them. *)
Theorem get_new_projection_and_from_shape session parse_sql is_metric
  get_expression_from_projection projection parents_ new_projection_ new_from_
  parents' :
  get_new_projection_and_from session parse_sql is_metric
    get_expression_from_projection projection parents_
  = Ok (new_projection_, new_from_, parents') →
  Forall2 kept_or_aliased projection new_projection_
  ∧ (length new_from_ ≤ length projection)%nat.
Proof.
  unfold get_new_projection_and_from.
  intros (state & Hloop & [= <- <- <-])%bind_Ok_inv.
  apply substitute_loop in Hloop as ((added & sources & -> & Hadded & -> & Hlen) & _).
  done.
Qed.

Lemma get_new_projection_and_from_shape_witness :
  ∃ new_projection_ new_from_,
    get_new_projection_and_from metrics_session metrics_parser (λ _, true)
      (λ projection, getitem projection "UnnamedExpr") two_metrics []
    = Ok (new_projection_, new_from_, [comments])
    ∧ Forall2 kept_or_aliased two_metrics new_projection_
    ∧ (length new_from_ ≤ length two_metrics)%nat.
Proof.
  eexists _, _. split; [vm_compute; reflexivity|].
  eapply (get_new_projection_and_from_shape metrics_session metrics_parser (λ _, true)
            (λ projection, getitem projection "UnnamedExpr") two_metrics []).
  vm_compute. reflexivity.
Defined.

(** X9.  A non-empty list of parents handed to
    [get_new_projection_and_from] is never changed: when the call returns,
    the list is the one the caller gave. *)
Theorem given_parents_are_kept session parse_sql is_metric
  get_expression_from_projection projection parents_ new_projection_ new_from_
  parents' :
  parents_ ≠ [] →
  get_new_projection_and_from session parse_sql is_metric
    get_expression_from_projection projection parents_
  = Ok (new_projection_, new_from_, parents') →
  parents' = parents_.
Proof.
  intros Hgiven. unfold get_new_projection_and_from.
  intros (state & Hloop & [= _ _ <-])%bind_Ok_inv.
  apply substitute_loop in Hloop as (_ & Hparents & _). by apply Hparents.
Qed.

Lemma given_parents_are_kept_witness :
  [comments] ≠ []
  ∧ ∃ new_projection_ new_from_ parents',
      get_new_projection_and_from metrics_session metrics_parser (λ _, true)
        (λ projection, getitem projection "UnnamedExpr")
        [metric_reference "core.num_comments"] [comments]
      = Ok (new_projection_, new_from_, parents')
      ∧ parents' = [comments].
Proof.
  split; [discriminate|]. eexists _, _, _. split; [vm_compute; reflexivity|].
  eapply (given_parents_are_kept metrics_session metrics_parser (λ _, true)
            (λ projection, getitem projection "UnnamedExpr")
            [metric_reference "core.num_comments"] [comments]);
    [discriminate | vm_compute; reflexivity].
Defined.

(** X10.  A projection expression that is neither an [UnnamedExpr] nor an
    [ExprWithAlias] (a wildcard, say) stops [get_new_projection_and_from].
    The message of the [NotImplementedError] names the variable
    [expression], which is unbound in the first round of the loop: as the
    first expression of the projection it raises [UnboundLocalError], and
    after expressions the loop has gone through it raises
    [NotImplementedError]. *)
Theorem unsupported_projection_expression session parse_sql is_metric
  get_expression_from_projection before item after parents_ :
  py_contains "UnnamedExpr" item = Ok false →
  py_contains "ExprWithAlias" item = Ok false →
  (∃ state,
     for_each (substitute session parse_sql is_metric get_expression_from_projection)
       before (mkSubstitution [] [] parents_ None) = Ok state) →
  get_new_projection_and_from session parse_sql is_metric
    get_expression_from_projection (before ++ item :: after) parents_
  = Raise (match before with [] => UnboundLocalError | _ => NotImplementedError end).
Proof.
  intros Hunnamed Haliased [state Hbefore]. unfold get_new_projection_and_from.
  rewrite for_each_app, Hbefore, bind_Ok. cbn [for_each].
  assert (substitute session parse_sql is_metric get_expression_from_projection
            state item
          = Raise (match before with
                   | [] => UnboundLocalError
                   | _ => NotImplementedError
                   end)) as ->; [|done].
  unfold substitute. rewrite Hunnamed, bind_Ok, Haliased, bind_Ok.
  destruct before as [|first before].
  - by injection Hbefore as <-.
  - apply substitute_loop in Hbefore as (_ & _ & Hlast).
    by destruct Hlast as [expression_ ->].
Qed.

Lemma unsupported_projection_expression_witness :
  get_new_projection_and_from metrics_session metrics_parser (λ _, true)
    (λ projection, getitem projection "UnnamedExpr")
    ([] ++ JStr "Wildcard" :: []) []
  = Raise UnboundLocalError
  ∧ get_new_projection_and_from metrics_session metrics_parser (λ _, true)
      (λ projection, getitem projection "UnnamedExpr")
      ([metric_reference "core.num_comments"] ++ JStr "Wildcard" :: []) []
    = Raise NotImplementedError.
Proof.
  split.
  - apply (unsupported_projection_expression metrics_session metrics_parser (λ _, true)
             (λ projection, getitem projection "UnnamedExpr") [] (JStr "Wildcard") [] []);
      [reflexivity | reflexivity | by eexists].
  - apply (unsupported_projection_expression metrics_session metrics_parser (λ _, true)
             (λ projection, getitem projection "UnnamedExpr")
             [metric_reference "core.num_comments"] (JStr "Wildcard") [] []);
      [reflexivity | reflexivity | eexists; vm_compute; reflexivity].
Defined.

(** ** Filters *)

Lemma span_all p s : string_forallb p s = true → span p s = (s, "").
Proof.
  induction s as [|c s IH]; simpl; [done|].
  intros [-> Hs]%andb_true_iff. by rewrite IH.
Qed.

Lemma match_operator_skip op operators rest :
  strip_prefix op rest = None →
  match_operator (op :: operators) rest = match_operator operators rest.
Proof. intros H. simpl. by rewrite H. Qed.

Lemma match_operator_hit op operators value :
  value ≠ "" → string_forallb not_newline value = true →
  match_operator (op :: operators) (op +:+ value) = Some (op, value).
Proof.
  intros Hvalue Hline. simpl.
  rewrite (proj2 (strip_prefix_spec op (op +:+ value) value) eq_refl).
  rewrite span_all by done.
  by destruct (String.eqb_spec value "").
Qed.

Lemma strip_prefix_other (d c : ascii) value :
  Ascii.eqb "=" c = false →
  strip_prefix (String d (String "=" "")) (String d (String c value)) = None.
Proof. intros Hc. cbn [strip_prefix]. by rewrite Ascii.eqb_refl, Hc. Qed.

Lemma match_operator_exact op value :
  op ∈ OPERATORS → value ≠ "" → string_forallb not_newline value = true →
  (op = "<" ∨ op = ">" → String.prefix "=" value = false) →
  match_operator OPERATORS (op +:+ value) = Some (op, value).
Proof.
  intros Hop Hvalue Hline Heq. unfold OPERATORS in *.
  assert (op = "<" ∨ op = ">" → ∃ c rest, value = String c rest
                                           ∧ Ascii.eqb "=" c = false) as Hc.
  { intros Hops. specialize (Heq Hops). destruct value as [|c rest]; [done|].
    exists c, rest. split; [done|]. apply Ascii.eqb_neq. intros <-.
    destruct rest; vm_compute in Heq; discriminate. }
  repeat (apply elem_of_cons in Hop as [->|Hop]); [..|by apply elem_of_nil in Hop].
  - by apply match_operator_hit.
  - destruct Hc as (c & rest & -> & Hc); [by left|].
    rewrite match_operator_skip; [by apply match_operator_hit|].
    exact (strip_prefix_other "<" c rest Hc).
  - rewrite !match_operator_skip by reflexivity. by apply match_operator_hit.
  - destruct Hc as (c & rest & -> & Hc); [by right|].
    rewrite (match_operator_skip "<=") by reflexivity.
    rewrite (match_operator_skip "<") by reflexivity.
    rewrite (match_operator_skip ">="); [by apply match_operator_hit|].
    exact (strip_prefix_other ">" c rest Hc).
  - rewrite !match_operator_skip by reflexivity. by apply match_operator_hit.
  - rewrite !match_operator_skip by reflexivity. by apply match_operator_hit.
Qed.

(** X11.  Reading a filter gives back what it was written from: for a
    name of word characters, dots and slashes, one of the six operators and
    a value on one line, [FILTER_RE] splits [name + op + value] into these
    three parts.  The operators [<=] and [>=] are tried before [<] and [>],
    so for these two the value must not start with [=]. *)
Theorem filter_round_trip name_ op value :
  name_ ≠ "" → string_forallb name_char name_ = true →
  op ∈ OPERATORS →
  value ≠ "" → string_forallb not_newline value = true →
  (op = "<" ∨ op = ">" → String.prefix "=" value = false) →
  FILTER_RE_match (name_ +:+ op +:+ value) = Some (name_, op, value).
Proof.
  intros Hname Hchars Hop Hvalue Hline Heq. unfold FILTER_RE_match.
  rewrite (span_append name_char name_ (op +:+ value)) by
    (done || by apply operator_stops_name).
  destruct (String.eqb_spec name_ "") as [->|_]; [done|].
  by rewrite match_operator_exact.
Qed.

Lemma filter_round_trip_witness :
  FILTER_RE_match ("core.comments.user_id" +:+ "<=" +:+ "10")
  = Some ("core.comments.user_id", "<=", "10").
Proof.
  apply (filter_round_trip "core.comments.user_id" "<=" "10");
    [discriminate | reflexivity | | discriminate | reflexivity | ].
  - unfold OPERATORS. by left.
  - intros [?|?]; discriminate.
Defined.

Lemma filters_match filters dimensions filter_ :
  get_dimensions_from_filters filters = Ok dimensions → filter_ ∈ filters →
  ∃ name_ op value,
    FILTER_RE_match filter_ = Some (name_, op, value) ∧ name_ ∈ dimensions.
Proof.
  revert dimensions. induction filters as [|first filters IH]; intros dimensions; simpl.
  - by intros _ ?%elem_of_nil.
  - destruct (FILTER_RE_match first) as [[[name_ op] value]|] eqn:Hfirst; [|done].
    intros (rest & Hrest & [= <-])%bind_Ok_inv [->|Hin]%elem_of_cons.
    + exists name_, op, value. split; [done | set_solver].
    + destruct (IH _ Hrest Hin) as (n & o & v & Hm & Hn).
      exists n, o, v. split; [done | set_solver].
Qed.

(** ** The on clause of a join with a dimension *)

Lemma dimension_column_of_app dimension columns1 columns2 :
  dimension_column_of dimension (columns1 ++ columns2)
  = match dimension_column_of dimension columns1 with
    | Some column => Some column
    | None => dimension_column_of dimension columns2
    end.
Proof.
  induction columns1 as [|column columns1 IH]; simpl; [done|].
  by destruct (has_dimension dimension column).
Qed.

(** The two loops are one search through the columns of the parents. *)
Lemma dimension_column_in_flat columns_of dimension parents_ :
  dimension_column_in columns_of dimension parents_
  = dimension_column_of dimension (flat_map columns_of parents_).
Proof.
  induction parents_ as [|parent parents_ IH]; simpl; [done|].
  rewrite dimension_column_of_app, <-IH.
  by destruct (columns_of parent).
Qed.

Lemma dimension_column_of_none dimension columns :
  (∀ column, column ∈ columns → has_dimension dimension column = false) →
  dimension_column_of dimension columns = None.
Proof.
  induction columns as [|column columns IH]; intros Hall; simpl; [done|].
  rewrite (Hall column) by by left. apply IH. intros c Hc. apply Hall. by right.
Qed.

(** X13.  [find_on_clause] joins on the first column, in the order of the
    parents of the node and of the columns of each parent, whose dimension
    is the given one: the clause compares that column of the node's select
    with the column of the subquery that the column names, or with the
    default dimension column when it names none.  When no column of any
    parent has the dimension, it raises
    "Node ... has no columns with dimension ...". *)
Theorem find_on_clause_first DEFAULT_DIMENSION_COLUMN columns_of node node_select
  dimension subquery :
  ((∀ column, column ∈ flat_map columns_of (parents node) →
              has_dimension dimension column = false) →
   find_on_clause DEFAULT_DIMENSION_COLUMN columns_of node node_select dimension
     subquery
   = Raise (Exception_ ("Node " +:+ name node +:+ " has no columns with dimension "
                        +:+ name dimension)))
  ∧ (∀ before column after,
       flat_map columns_of (parents node) = before ++ column :: after →
       (∀ earlier, earlier ∈ before → has_dimension dimension earlier = false) →
       has_dimension dimension column = true →
       find_on_clause DEFAULT_DIMENSION_COLUMN columns_of node node_select dimension
         subquery
       = (left_ ← select_column node_select (col_name column);
          right_ ← select_column subquery
                     (match col_dimension_column column with
                      | Some s => if String.eqb s "" then DEFAULT_DIMENSION_COLUMN
                                  else s
                      | None => DEFAULT_DIMENSION_COLUMN
                      end);
          Ok (mkOnClause left_ right_))).
Proof.
  unfold find_on_clause. rewrite dimension_column_in_flat. split.
  - intros Hnone. by rewrite dimension_column_of_none.
  - intros before column after -> Hbefore Hcolumn.
    rewrite dimension_column_of_app, dimension_column_of_none by done.
    simpl. by rewrite Hcolumn.
Qed.

Lemma find_on_clause_first_witness :
  find_on_clause "id" comments_columns num_comments comments_select users users_select
  = Ok (mkOnClause (mkColumn "core.comments" "user_id") (mkColumn "core.users" "id"))
  ∧ find_on_clause "id" comments_columns num_comments comments_select comments
      users_select
    = Raise (Exception_ ("Node " +:+ name num_comments
                         +:+ " has no columns with dimension " +:+ name comments)).
Proof.
  split.
  - apply (proj2 (find_on_clause_first "id" comments_columns num_comments
                    comments_select users users_select)
             [mkDimensionColumn "id" None None]
             (mkDimensionColumn "user_id" (Some users) None) []);
      [reflexivity | | reflexivity].
    intros earlier Hin. apply list_elem_of_singleton in Hin. by subst earlier.
  - apply (proj1 (find_on_clause_first "id" comments_columns num_comments
                    comments_select comments users_select)).
    intros column Hin. change (flat_map comments_columns (parents num_comments))
      with [mkDimensionColumn "id" None None;
            mkDimensionColumn "user_id" (Some users) None] in Hin.
    apply elem_of_cons in Hin as [->|Hin]; [reflexivity|].
    apply list_elem_of_singleton in Hin. by subst column.
Defined.

(** ** Dimension references *)

Lemma prefix_dot c s : String.prefix "." (String c s) = Ascii.eqb c ".".
Proof.
  cbn [String.prefix]. destruct (ascii_dec "." c) as [<-|Hne].
  - by destruct s.
  - symmetry. apply Ascii.eqb_neq. congruence.
Qed.

Lemma is_infix_dot c s :
  is_infix "." (String c s) = Ascii.eqb c "." || is_infix "." s.
Proof. cbn [is_infix]. by rewrite prefix_dot. Qed.

Lemma rsplit_dot_none s : rsplit_dot s = None ↔ is_infix "." s = false.
Proof.
  induction s as [|c s IH]; [done|].
  rewrite is_infix_dot. cbn [rsplit_dot].
  destruct (rsplit_dot s) as [[before after]|].
  - split; [done|]. intros [_ H]%orb_false_iff. by apply IH in H.
  - rewrite (proj1 IH eq_refl), orb_false_r. by destruct (Ascii.eqb c ".").
Qed.

Lemma rsplit_dot_app before after :
  is_infix "." after = false →
  rsplit_dot (before +:+ "." +:+ after) = Some (before, after).
Proof.
  intros Hafter. apply rsplit_dot_none in Hafter.
  induction before as [|c before IH].
  - change ("" +:+ "." +:+ after) with (String "." after).
    cbn [rsplit_dot]. by rewrite Hafter.
  - change (String c before +:+ "." +:+ after)
      with (String c (before +:+ "." +:+ after)).
    cbn [rsplit_dot]. by rewrite IH.
Qed.

Lemma dimension_reference_plain parents_ identifier s :
  getitem identifier "value" = Ok (JStr s) → is_infix "." s = false →
  dimension_reference parents_ identifier = Ok None.
Proof.
  intros Hvalue Hdot. unfold dimension_reference. rewrite Hvalue, bind_Ok.
  cbn [py_contains]. by rewrite bind_Ok, Hdot.
Qed.

(** The body of the loop of [replace_dimension_references].  A dimension
    reference is split at its last dot.  An identifier
    whose value has no dot is left as it is; an identifier whose value is
    [name + "." + column], with no dot in [column], becomes the compound
    identifier of [name] and [column], both in double quotes, when [name] is
    the name of one of the parents, and raises "Invalid identifier" with
    [name] otherwise. *)
Lemma dimension_reference_spec parents_ identifier s :
  getitem identifier "value" = Ok (JStr s) →
  (is_infix "." s = false → dimension_reference parents_ identifier = Ok None)
  ∧ (∀ name_ column,
       s = name_ +:+ "." +:+ column → is_infix "." column = false →
       (name_ ∈ map name parents_ →
        dimension_reference parents_ identifier
        = Ok (Some (JList [quoted name_; quoted column])))
       ∧ (name_ ∉ map name parents_ →
          dimension_reference parents_ identifier
          = Raise (Exception_ ("Invalid identifier: " +:+ name_)))).
Proof.
  intros Hvalue. unfold dimension_reference. rewrite Hvalue, bind_Ok.
  cbn [py_contains]. rewrite bind_Ok. split.
  - by intros ->.
  - intros name_ column -> Hcolumn.
    assert (is_infix "." (name_ +:+ "." +:+ column) = true) as ->.
    { destruct (is_infix "." (name_ +:+ "." +:+ column)) eqn:Hdot; [done|].
      apply rsplit_dot_none in Hdot. by rewrite rsplit_dot_app in Hdot. }
    cbn [negb]. rewrite rsplit_dot_app by done.
    split; intros Hin; [by rewrite bool_decide_true | by rewrite bool_decide_false].
Qed.

Lemma replace_list_unfold target newkey items news :
  replace_nodes_by_key (JList items) target newkey news
  = let '(items, news) := replace_items target newkey items news in
    (JList items, news).
Proof. reflexivity. Qed.

Lemma replace_dict_unfold target newkey entries news :
  replace_nodes_by_key (JDict entries) target newkey news
  = let '(entries, edit, news) := replace_entries target newkey entries news in
    match edit with
    | Some new => (JDict (dict_set newkey new (dict_pop target entries)), news)
    | None => (JDict entries, news)
    end.
Proof. reflexivity. Qed.

Lemma replace_items_cons target newkey child items news :
  replace_items target newkey (child :: items) news
  = let '(child', news) := replace_nodes_by_key child target newkey news in
    let '(items', news) := replace_items target newkey items news in
    (child' :: items', news).
Proof. reflexivity. Qed.

Lemma replace_entries_miss target newkey key value entries news :
  String.eqb key target = false →
  replace_entries target newkey ((key, value) :: entries) news
  = let '(value', news) := replace_nodes_by_key value target newkey news in
    let '(entries', edit, news) := replace_entries target newkey entries news in
    ((key, value') :: entries', edit, news).
Proof. intros Hk. cbn [replace_entries]. by rewrite Hk. Qed.

Lemma replace_entries_hit target newkey key value entries new news :
  String.eqb key target = true →
  replace_entries target newkey ((key, value) :: entries) (new :: news)
  = let '(entries', edit, news) := replace_entries target newkey entries news in
    ((key, value) :: entries',
     match edit with Some e => Some e | None => new end, news).
Proof. intros Hk. cbn [replace_entries]. by rewrite Hk. Qed.

Lemma replace_entries_out target newkey key value entries :
  String.eqb key target = true →
  replace_entries target newkey ((key, value) :: entries) []
  = let '(entries', edit, news) := replace_entries target newkey entries [] in
    ((key, value) :: entries', edit, news).
Proof. intros Hk. cbn [replace_entries]. by rewrite Hk. Qed.

(** Rounds that all [continue] leave the tree as it is. *)
Lemma replace_nothing target newkey element :
  ∀ news, Forall (λ new, new = None) news →
    ∃ news', replace_nodes_by_key element target newkey news = (element, news')
             ∧ Forall (λ new, new = None) news'.
Proof.
  induction element as [| | | |items IH|entries IH] using json_ind;
    intros news Hnews; try (by eexists).
  - rewrite replace_list_unfold.
    assert (∃ news', replace_items target newkey items news = (items, news')
                     ∧ Forall (λ new, new = None) news') as (news' & -> & Hnews');
      [|by eexists].
    revert news Hnews. induction IH as [|child items Hchild _ IHitems];
      intros news Hnews; [by eexists|].
    rewrite replace_items_cons. destruct (Hchild _ Hnews) as (news1 & -> & Hnews1).
    destruct (IHitems _ Hnews1) as (news2 & -> & Hnews2). by eexists.
  - rewrite replace_dict_unfold.
    assert (∃ news', replace_entries target newkey entries news = (entries, None, news')
                     ∧ Forall (λ new, new = None) news') as (news' & -> & Hnews');
      [|by eexists].
    revert news Hnews. induction IH as [|[key value] entries Hvalue _ IHentries];
      intros news Hnews; [by eexists|].
    destruct (String.eqb key target) eqn:Hkey.
    + destruct Hnews as [|new news Hnew Hnews].
      * rewrite replace_entries_out by done.
        destruct (IHentries [] ltac:(constructor)) as (news2 & -> & Hnews2).
        by eexists.
      * rewrite replace_entries_hit by done.
        destruct (IHentries _ Hnews) as (news2 & -> & Hnews2).
        rewrite Hnew. by eexists.
    + rewrite replace_entries_miss by done. simpl in Hvalue.
      destruct (Hvalue _ Hnews) as (news1 & -> & Hnews1).
      destruct (IHentries _ Hnews1) as (news2 & -> & Hnews2). by eexists.
Qed.

Lemma dict_set_same {V} key (v : V) entries :
  dict_get key entries = Some v → dict_set key v entries = entries.
Proof.
  induction entries as [|[k w] entries IH]; simpl; [done|].
  destruct (String.eqb k key); [by intros [= ->] | intros H; by rewrite IH].
Qed.

Lemma for_list_none {A B} (body : A → result (option B)) xs :
  (∀ x, x ∈ xs → body x = Ok None) →
  ∃ news, for_list body xs = Ok news ∧ Forall (λ new, new = None) news.
Proof.
  induction xs as [|x xs IH]; intros Hall; simpl; [by eexists|].
  rewrite (Hall x) by by left.
  destruct IH as (news & -> & Hnews); [intros ? ?; apply Hall; by right|].
  eexists. split; [done|]. by constructor.
Qed.

(** X15.  [replace_dimension_references] changes nothing in a select that
    refers to no dimension: when the select has the four parts
    [projection], [selection], [group_by] and [sort_by], and no identifier
    in them has a dot in its value, the select is left as it is, whatever
    the parents. *)
Theorem replace_dimension_references_without_dots query_select parents_ :
  (∀ part, part ∈ ["projection"; "selection"; "group_by"; "sort_by"] →
     ∃ tree, getitem query_select part = Ok tree
             ∧ ∀ identifier, identifier ∈ find_nodes_by_key tree "Identifier" →
                 ∃ s, getitem identifier "value" = Ok (JStr s)
                      ∧ is_infix "." s = false) →
  replace_dimension_references query_select parents_ = Ok query_select.
Proof.
  unfold replace_dimension_references.
  generalize ["projection"; "selection"; "group_by"; "sort_by"].
  intros parts. induction parts as [|part parts IH]; intros Hparts; simpl; [done|].
  destruct (Hparts part) as (tree & Htree & Hids); [by left|].
  rewrite Htree, bind_Ok, find_with_parent_fst.
  destruct (for_list_none (dimension_reference parents_)
              (find_nodes_by_key tree "Identifier")) as (news & -> & Hnews).
  { intros identifier (s & Hvalue & Hdot)%Hids.
    by eapply dimension_reference_plain. }
  rewrite bind_Ok.
  destruct (replace_nothing "Identifier" "CompoundIdentifier" tree news Hnews)
    as (news' & -> & _).
  destruct query_select as [| | | | |entries]; try done.
  cbn [setitem fst]. simpl in Htree.
  destruct (dict_get part entries) as [tree'|] eqn:Hget; [|done].
  injection Htree as ->. rewrite (dict_set_same _ _ _ Hget), bind_Ok.
  apply IH. intros part' Hin. apply Hparts. by right.
Qed.

Lemma replace_dimension_references_without_dots_witness :
  replace_dimension_references metrics_select [comments] = Ok metrics_select.
Proof.
  apply (replace_dimension_references_without_dots metrics_select [comments]).
  intros part Hin.
  repeat (apply elem_of_cons in Hin as [->|Hin]); [..|by apply elem_of_nil in Hin];
    eexists; (split; [reflexivity|]); intros identifier Hid;
    try (by apply elem_of_nil in Hid).
  apply list_elem_of_singleton in Hid. subst identifier. by eexists.
Defined.

(* ================================================================== *)
(** * Identifiers through the loops of [prepare_tree] *)

Lemma Forall2_diag {A} (R : A → A → Prop) (l : list A) :
  (∀ x, R x x) → Forall2 R l l.
Proof. intros HR. induction l; constructor; auto. Qed.


(** Taking the expressions out of their aliases leaves the identifiers and
    the compound identifiers where they are. *)
Lemma Retag_same_columns element news element' :
  Retag "ExprWithAlias" "UnnamedExpr" element news element' →
  ∀ inside,
    well_formed inside element = true →
    Forall2 (λ old new, getitem old "expr" = Ok new)
            (find_nodes_by_key element "ExprWithAlias") news →
    same_columns element element'
    ∧ Forall2 same_columns (find_nodes_by_key element "Select")
                           (find_nodes_by_key element' "Select").
Proof.
  assert (is_searched "ExprWithAlias" = true) as Ht by done.
  unfold same_columns.
  induction 1 as [| | | | |c cs n1 n2 c' cs' HRc IHc HRcs IHcs| |v new
                  |k v es n1 n2 v' es' Hk HRv IHv HRes IHes];
    intros inside Hwf Hnews; try (split; [done | constructor]).
  - simpl in Hwf. apply andb_true_iff in Hwf as [Hwc Hwcs].
    rewrite find_cons in Hnews.
    apply Forall2_app_inv in Hnews as [H1 H2];
      [|by rewrite (Retag_length _ _ _ _ _ HRc)].
    destruct (IHc inside Hwc H1) as [[Hc1 Hc2] Hc3].
    destruct (IHcs inside Hwcs H2) as [[Hcs1 Hcs2] Hcs3].
    rewrite !find_cons. split; [by rewrite Hc1, Hc2, Hcs1, Hcs2|].
    by apply Forall2_app.
  - rewrite find_entry, String.eqb_refl in Hnews.
    apply Forall2_cons in Hnews as [Hnew _].
    rewrite wf_single_variant in Hwf by done. cbn in Hwf.
    apply andb_true_iff in Hwf as [Hshape Hwf].
    destruct v as [| | | | |[|[k1 e] [|[k2 a] [|]]]]; try done.
    simpl in Hshape.
    apply andb_true_iff in Hshape as [[Hk1 Hk2]%andb_true_iff Ha].
    apply String.eqb_eq in Hk1 as ->. apply String.eqb_eq in Hk2 as ->.
    simpl in Hnew. injection Hnew as <-.
    rewrite !find_entry. simpl.
    rewrite !(plain_find a) by done. rewrite !app_nil_r.
    split; [done | by apply Forall2_diag].
  - rewrite find_entry, Hk in Hnews.
    apply Forall2_app_inv in Hnews as [H1 H2];
      [|by rewrite (Retag_length _ _ _ _ _ HRv)].
    apply wf_dict_cons in Hwf as [(-> & Hs & Hv)|(Hns & Hwv & Hwes & Hkeys)].
    + apply Retag_empty_inv in HRes as [-> [= ->]].
      rewrite !find_entry.
      change (find_nodes_by_key (JDict []) "Identifier") with (@nil json).
      change (find_nodes_by_key (JDict []) "CompoundIdentifier") with (@nil json).
      change (find_nodes_by_key (JDict []) "Select") with (@nil json).
      rewrite !app_nil_r. unfold variant_ok in Hv.
      destruct (searched_cases k Hs) as [->|[->|[->|[->| ->]]]]; simpl in Hv |- *.
      * apply andb_true_iff in Hv as [_ Hp].
        destruct (Retag_plain _ _ _ _ _ HRv Hp Ht) as [_ ->].
        split; [done | by apply Forall2_diag].
      * destruct (IHv true Hv H1) as [Hcols Hsel].
        split; [done|]. by constructor.
      * destruct (Retag_plain _ _ _ _ _ HRv Hv Ht) as [_ ->].
        split; [done | by apply Forall2_diag].
      * destruct (Retag_plain _ _ _ _ _ HRv Hv Ht) as [_ ->].
        split; [done | by apply Forall2_diag].
      * done.
    + destruct (IHv inside Hwv H1) as [[Hv1 Hv2] Hv3].
      destruct (IHes inside Hwes H2) as [[He1 He2] He3].
      rewrite !find_entry.
      destruct (not_searched k Hns) as (_ & -> & -> & -> & _).
      split; [by rewrite Hv1, Hv2, He1, He2 | by apply Forall2_app].
Qed.


Lemma Forall2_right {A B} (P : A → B → Prop) (Q : B → Prop) l k :
  Forall2 P l k → (∀ x y, P x y → Q y) → Forall Q k.
Proof. induction 1; intros HPQ; constructor; eauto. Qed.

Lemma Forall2_left_exists {A B} (P : A → B → Prop) l k :
  Forall2 P l k → Forall (λ x, ∃ y, y ∈ k ∧ P x y) l.
Proof.
  induction 1 as [|x y l k Hxy _ IH]; constructor.
  - exists y. split; [by left | done].
  - eapply Forall_impl; [exact IH|]. intros x' (y' & Hin & HP).
    exists y'. split; [by right | done].
Qed.





(** ** Where the errors of the identifier loop come from *)






Tactic Notation "raise_bind" hyp(H) ident(x) ident(E) :=
  match type of H with
  | (?m ≫= _) = Raise _ =>
      destruct m as [x|?] eqn:E; simpl in H; [|injection H as <-]
  end.









Lemma bind_Raise_inv {A B} (m : result A) (f : A → result B) e :
  m ≫= f = Raise e → (∃ a, m = Ok a ∧ f a = Raise e) ∨ m = Raise e.
Proof. destruct m as [a|e']; [eauto | by intros [= ->]; right]. Qed.

Tactic Notation "raise_step" hyp(H) simple_intropattern(x) ident(E) :=
  apply bind_Raise_inv in H as [(x & E & H)|E].




(** ** The identifiers of a tree *)





(* ================================================================== *)
(** * Dimension references through [replace_dimension_references] *)

Lemma rsplit_dot_inv s before after :
  rsplit_dot s = Some (before, after) →
  s = before +:+ "." +:+ after ∧ is_infix "." after = false.
Proof.
  revert before. induction s as [|c s IH]; intros before; [done|].
  cbn [rsplit_dot].
  destruct (rsplit_dot s) as [[before' after']|] eqn:Hs.
  - intros [= <- <-]. destruct (IH before' eq_refl) as [-> Hafter]. done.
  - destruct (Ascii.eqb_spec c ".") as [->|_]; [|done].
    intros [= <- <-]. split; [done|]. by apply rsplit_dot_none.
Qed.

Lemma dimension_reference_continue parents_ id_ :
  dimension_reference parents_ id_ = Ok None → undotted id_.
Proof.
  unfold dimension_reference.
  intros (v & Hv & H)%bind_Ok_inv.
  apply bind_Ok_inv in H as (dotted & Hdotted & H).
  exists v. split; [done|]. destruct dotted; [|done]. cbn [negb] in H.
  destruct v as [| | |s| |]; try done.
  destruct (rsplit_dot s) as [[name_ column]|]; [|done].
  by destruct (bool_decide (name_ ∈ map name parents_)).
Qed.

Lemma dimension_reference_stores parents_ id_ new :
  dimension_reference parents_ id_ = Ok (Some new) → refers_to parents_ id_ new.
Proof.
  unfold dimension_reference.
  intros (v & Hv & H)%bind_Ok_inv.
  apply bind_Ok_inv in H as (dotted & Hdotted & H).
  destruct dotted; [|done]. cbn [negb] in H.
  destruct v as [| | |s| |]; try done.
  destruct (rsplit_dot s) as [[name_ column]|] eqn:Hs; [|done].
  destruct (bool_decide_reflect (name_ ∈ map name parents_)) as [Hin|]; [|done].
  injection H as <-. apply rsplit_dot_inv in Hs as [-> Hcolumn].
  by exists name_, column.
Qed.

Lemma dimension_reference_new_plain parents_ id_ new :
  dimension_reference parents_ id_ = Ok (Some new) → plain new = true.
Proof. by intros (name_ & column & _ & _ & _ & ->)%dimension_reference_stores. Qed.

Lemma kept_app ids1 news1 ids2 news2 :
  length ids1 = length news1 →
  kept (ids1 ++ ids2) (news1 ++ news2) = kept ids1 news1 ++ kept ids2 news2.
Proof.
  revert news1. induction ids1 as [|id_ ids1 IH]; intros [|[new|] news1]; try done;
    simpl; intros [= Hlen]; by rewrite IH.
Qed.

Lemma replace_entries_clean newkey entries news :
  forallb (λ kv, negb (is_searched kv.1)) entries = true →
  (replace_entries "Identifier" newkey entries news).1.2 = None.
Proof.
  revert news. induction entries as [|[key value] entries IH]; intros news; [done|].
  cbn [forallb fst]. intros [Hk Hes]%andb_true_iff. apply negb_true_iff in Hk.
  destruct (not_searched key Hk) as (_ & _ & _ & Hkey & _).
  rewrite replace_entries_miss by done.
  destruct (replace_nodes_by_key value "Identifier" newkey news) as [value' news1].
  specialize (IH news1 Hes).
  by destruct (replace_entries "Identifier" newkey entries news1) as [[entries' edit] news2].
Qed.

Lemma variant_well_formed inside key value :
  is_searched key = true → variant_ok inside key value = true →
  ∃ inside', well_formed inside' value = true.
Proof.
  intros Hs Hv. unfold variant_ok in Hv.
  destruct (searched_cases key Hs) as [->|[->|[->|[->| ->]]]]; simpl in Hv.
  - apply andb_true_iff in Hv as [_ Hp]. exists inside. by apply plain_well_formed.
  - by exists true.
  - exists inside. by apply plain_well_formed.
  - exists inside. by apply plain_well_formed.
  - apply andb_true_iff in Hv as [_ Hwf]. by exists inside.
Qed.

(** The loop over the identifiers of a tree as the parser builds it: the
    identifiers whose round stores nothing stay, and what the other rounds
    store are compound identifiers of the tree. *)
Lemma replace_spec element :
  ∀ inside news rest,
    well_formed inside element = true →
    length news = length (find_nodes_by_key element "Identifier") →
    Forall (λ new, ∀ n, new = Some n → plain n = true) news →
    ∃ element',
      replace_nodes_by_key element "Identifier" "CompoundIdentifier" (news ++ rest)
      = (element', rest)
      ∧ find_nodes_by_key element' "Identifier"
        = kept (find_nodes_by_key element "Identifier") news
      ∧ ∀ n, Some n ∈ news → n ∈ find_nodes_by_key element' "CompoundIdentifier".
Proof.
  induction element
    as [| | | | |child items IHchild IHitems| |key value entries IHvalue IHentries]
    using json_cons_ind; intros inside news rest Hwf Hlen Hnews;
    try (destruct news; [|done]; eexists; split; [reflexivity|];
         split; [done | by intros ? ?%elem_of_nil]).
  - rewrite find_cons, length_app in Hlen.
    apply split_length in Hlen as (n1 & n2 & -> & Hlen1 & Hlen2).
    simpl in Hwf. apply andb_true_iff in Hwf as [Hwc Hwi].
    apply Forall_app in Hnews as [Hn1 Hn2].
    destruct (IHchild inside n1 (n2 ++ rest) Hwc Hlen1 Hn1) as (child' & Hc & Hc1 & Hc2).
    destruct (IHitems inside n2 rest Hwi Hlen2 Hn2) as (items'' & Hi & Hi1 & Hi2).
    rewrite replace_list_unfold in Hi |- *.
    rewrite replace_items_cons, <-app_assoc, Hc.
    destruct (replace_items "Identifier" "CompoundIdentifier" items (n2 ++ rest))
      as [items' r].
    injection Hi as <- ->.
    exists (JList (child' :: items')). split; [done|].
    rewrite !find_cons, Hc1, Hi1, kept_app by done. split; [done|].
    intros n [Hin|Hin]%elem_of_app; apply elem_of_app; auto.
  - rewrite find_entry in Hlen.
    apply wf_dict_cons in Hwf as [(-> & Hs & Hv)|(Hns & Hwv & Hwes & Hkeys)].
    + change (find_nodes_by_key (JDict []) "Identifier") with (@nil json) in *.
      rewrite app_nil_r in Hlen. rewrite find_entry.
      change (find_nodes_by_key (JDict []) "Identifier") with (@nil json).
      rewrite app_nil_r.
      destruct (String.eqb key "Identifier") eqn:Hkey.
      * apply String.eqb_eq in Hkey as ->.
        destruct news as [|new [|]]; try done.
        apply Forall_cons in Hnews as [Hnew _].
        rewrite replace_dict_unfold.
        change ([new] ++ rest) with (new :: rest).
        rewrite replace_entries_hit by done. cbn [replace_entries].
        destruct new as [n|].
        -- exists (JDict [("CompoundIdentifier", n)]). split; [done|].
           rewrite !find_entry. simpl.
           rewrite (plain_find n "Identifier" (Hnew _ eq_refl) eq_refl).
           split; [done|]. intros n' ->%list_elem_of_singleton%(inj Some). by left.
        -- exists (JDict [("Identifier", value)]). split; [done|].
           split; [done|]. by intros n' ?%list_elem_of_singleton.
      * destruct (variant_well_formed _ _ _ Hs Hv) as [inside' Hwv].
        destruct (IHvalue inside' news rest Hwv Hlen Hnews) as (value' & Hr & Hr1 & Hr2).
        rewrite replace_dict_unfold, replace_entries_miss by done. rewrite Hr.
        cbn [replace_entries].
        exists (JDict [(key, value')]). split; [done|].
        rewrite !find_entry, Hkey.
        change (find_nodes_by_key (JDict []) "Identifier") with (@nil json).
        rewrite app_nil_r. split; [done|].
        intros n Hn. apply elem_of_app. left.
        destruct (String.eqb key "CompoundIdentifier") eqn:Hkc; [|by apply Hr2].
        apply String.eqb_eq in Hkc as ->. cbn in Hv.
        rewrite (plain_find value) in Hlen by done.
        destruct news; [by apply elem_of_nil in Hn | done].
    + destruct (not_searched key Hns) as (_ & _ & Hkc & Hkey & _).
      rewrite Hkey in Hlen. rewrite length_app in Hlen.
      apply split_length in Hlen as (n1 & n2 & -> & Hlen1 & Hlen2).
      apply Forall_app in Hnews as [Hn1 Hn2].
      destruct (IHvalue inside n1 (n2 ++ rest) Hwv Hlen1 Hn1) as (value' & Hr & Hr1 & Hr2).
      destruct (IHentries inside n2 rest Hwes Hlen2 Hn2) as (dict' & He & He1 & He2).
      pose proof (replace_entries_clean "CompoundIdentifier" entries (n2 ++ rest) Hkeys)
        as Hclean.
      rewrite replace_dict_unfold in He |- *.
      rewrite replace_entries_miss, <-app_assoc, Hr by done.
      destruct (replace_entries "Identifier" "CompoundIdentifier" entries (n2 ++ rest))
        as [[entries' edit] r].
      simpl in Hclean. subst edit. injection He as <- ->.
      exists (JDict ((key, value') :: entries')). split; [done|].
      rewrite !find_entry, Hkey, Hkc, Hr1, He1, kept_app by done. split; [done|].
      intros n [Hin|Hin]%elem_of_app; apply elem_of_app; auto.
Qed.

Lemma wf_dict_get inside entries key value :
  well_formed inside (JDict entries) = true →
  dict_get key entries = Some value →
  ∃ inside', well_formed inside' value = true.
Proof.
  induction entries as [|[k v] entries IH]; [done|].
  intros Hwf. cbn [dict_get].
  apply wf_dict_cons in Hwf as [(-> & Hs & Hv)|(Hns & Hwv & Hwes & _)].
  - destruct (String.eqb k key); [|done]. intros [= <-].
    by eapply variant_well_formed.
  - destruct (String.eqb k key); [|by apply IH]. intros [= <-]. by exists inside.
Qed.

Lemma kept_elem {R : json → option json → Prop} ids news id_ :
  Forall2 R ids news → id_ ∈ kept ids news → id_ ∈ ids ∧ R id_ None.
Proof.
  induction 1 as [|id' new ids news HR _ IH]; [by intros ?%elem_of_nil|].
  destruct new as [n|]; simpl.
  - intros [Hin HR']%IH. split; [by right | done].
  - intros [->|[Hin HR']%IH]%elem_of_cons; (split; [|done]); [by left | by right].
Qed.

Lemma kept_or_stored {R : json → option json → Prop} ids news id_ :
  Forall2 R ids news → id_ ∈ ids →
  (R id_ None ∧ id_ ∈ kept ids news) ∨ ∃ n, R id_ (Some n) ∧ Some n ∈ news.
Proof.
  induction 1 as [|id' new ids news HR _ IH]; [by intros ?%elem_of_nil|].
  intros [->|Hin]%elem_of_cons.
  - destruct new as [n|]; [right; exists n | left]; (split; [done | by left]).
  - destruct (IH Hin) as [[HR' Hk]|(n & HR' & Hn)].
    + left. split; [done|]. destruct new; simpl; [done | by right].
    + right. exists n. split; [done | by right].
Qed.

(** One part of the select: the loop over its identifiers. *)
Lemma replace_part parents_ tree inside news :
  well_formed inside tree = true →
  for_list (dimension_reference parents_) (find_nodes_by_key tree "Identifier")
  = Ok news →
  let tree' := (replace_nodes_by_key tree "Identifier" "CompoundIdentifier" news).1 in
  (∀ id_, id_ ∈ find_nodes_by_key tree' "Identifier" →
          id_ ∈ find_nodes_by_key tree "Identifier" ∧ undotted id_)
  ∧ ∀ id_, id_ ∈ find_nodes_by_key tree "Identifier" →
      (undotted id_ ∧ id_ ∈ find_nodes_by_key tree' "Identifier")
      ∨ ∃ new, refers_to parents_ id_ new
               ∧ new ∈ find_nodes_by_key tree' "CompoundIdentifier".
Proof.
  intros Hwf Hnews.
  eapply (for_list_spec _ (λ _, True)
            (λ id_ new, dimension_reference parents_ id_ = Ok new)) in Hnews;
    [|done|by apply Forall_forall].
  destruct (replace_spec tree inside news [] Hwf) as (tree' & Hr & Hids & Hcids).
  { symmetry. by eapply Forall2_length. }
  { eapply Forall2_right; [exact Hnews|].
    intros id_ new Hnew n ->. by eapply dimension_reference_new_plain. }
  rewrite app_nil_r in Hr. rewrite Hr. cbn [fst]. rewrite Hids. split.
  - intros id_ [Hin Hnone]%(kept_elem _ _ _ Hnews).
    split; [done|]. by eapply dimension_reference_continue.
  - intros id_ Hin.
    destruct (kept_or_stored _ _ _ Hnews Hin) as [[Hnone Hk]|(n & Hsome & Hn)].
    + left. split; [by eapply dimension_reference_continue | done].
    + right. exists n. split; [by apply dimension_reference_stores | by apply Hcids].
Qed.

(** The loop over the parts: each part is read from the select, its
    identifiers are judged, and what the rounds leave of it is stored under
    the same key; the other keys keep their values. *)
Lemma replace_parts parents_ parts :
  NoDup parts →
  ∀ query_select select',
    for_each (λ query_select part,
                tree ← getitem query_select part;
                news ← for_list (dimension_reference parents_)
                         (map fst (find_nodes_by_key_with_parent tree "Identifier"));
                setitem query_select part
                  (replace_nodes_by_key tree "Identifier" "CompoundIdentifier" news).1)
             parts query_select = Ok select' →
    (∀ key, key ∉ parts → getitem select' key = getitem query_select key)
    ∧ ∀ part, part ∈ parts →
        ∃ tree news,
          getitem query_select part = Ok tree
          ∧ for_list (dimension_reference parents_)
              (find_nodes_by_key tree "Identifier") = Ok news
          ∧ getitem select' part
            = Ok (replace_nodes_by_key tree "Identifier" "CompoundIdentifier" news).1.
Proof.
  induction 1 as [|part parts Hfresh Hnd IH]; intros query_select select'.
  - intros [= <-]. split; [done | by intros ? ?%elem_of_nil].
  - cbn [for_each]. intros (select1 & Hround & Hrest)%bind_Ok_inv.
    apply bind_Ok_inv in Hround as (tree & Htree & Hround).
    apply bind_Ok_inv in Hround as (news & Hnews & Hset).
    rewrite find_with_parent_fst in Hnews.
    destruct query_select as [| | | | |entries]; try done.
    injection Hset as <-.
    destruct (IH _ _ Hrest) as [Hout Hin]. split.
    + intros key [Hne Hkey]%not_elem_of_cons. rewrite (Hout key Hkey).
      cbn [getitem]. by rewrite dict_get_set_ne.
    + intros part' [->|Hpart]%elem_of_cons.
      * exists tree, news. split; [done|]. split; [done|].
        rewrite (Hout part Hfresh). cbn [getitem]. by rewrite dict_get_set_eq.
      * destruct (Hin part' Hpart) as (tree' & news' & Htree' & Hnews' & Hget).
        exists tree', news'. split; [|done].
        rewrite <-Htree'. cbn [getitem]. rewrite dict_get_set_ne; [done|].
        intros ->. by apply Hfresh.
Qed.

(** X17.  What [replace_dimension_references] leaves of a select as the
    parser builds it, when it returns.  Each of the parts [projection],
    [selection], [group_by] and [sort_by] is still there.  An identifier
    left in a part was an identifier of that part and has no dot in its
    value.  Every identifier a part held either has no dot and is still
    there, or has the value [name.column] split at its last dot, where [name]
    is the name of one of the parents, and the part now holds the compound
    identifier of [name] and [column], both in double quotes.  The other
    keys of the select keep their values. *)
Theorem replace_dimension_references_spec inside query_select parents_ select' :
  well_formed inside query_select = true →
  replace_dimension_references query_select parents_ = Ok select' →
  (∀ key, key ∉ ["projection"; "selection"; "group_by"; "sort_by"] →
          getitem select' key = getitem query_select key)
  ∧ ∀ part, part ∈ ["projection"; "selection"; "group_by"; "sort_by"] →
      ∃ tree tree',
        getitem query_select part = Ok tree
        ∧ getitem select' part = Ok tree'
        ∧ (∀ id_, id_ ∈ find_nodes_by_key tree' "Identifier" →
                  id_ ∈ find_nodes_by_key tree "Identifier" ∧ undotted id_)
        ∧ ∀ id_, id_ ∈ find_nodes_by_key tree "Identifier" →
            (undotted id_ ∧ id_ ∈ find_nodes_by_key tree' "Identifier")
            ∨ ∃ new, refers_to parents_ id_ new
                     ∧ new ∈ find_nodes_by_key tree' "CompoundIdentifier".
Proof.
  intros Hwf Hreplace. unfold replace_dimension_references in Hreplace.
  apply replace_parts in Hreplace as [Hout Hin].
  2: { apply (bool_decide_unpack _). by vm_compute. }
  split; [done|]. intros part Hpart.
  destruct (Hin part Hpart) as (tree & news & Htree & Hnews & Hget).
  exists tree, (replace_nodes_by_key tree "Identifier" "CompoundIdentifier" news).1.
  split; [done|]. split; [done|].
  destruct query_select as [| | | | |entries]; try done.
  cbn [getitem] in Htree.
  destruct (dict_get part entries) as [tree0|] eqn:Hpart0; [|done].
  injection Htree as ->.
  destruct (wf_dict_get _ _ _ _ Hwf Hpart0) as [inside' Hwt].
  by eapply replace_part.
Qed.

Lemma replace_dimension_references_spec_witness :
  ∃ tree tree',
    getitem dimension_select "projection" = Ok tree
    ∧ getitem replaced_dimension_select "projection" = Ok tree'
    ∧ (∀ id_, id_ ∈ find_nodes_by_key tree' "Identifier" →
              id_ ∈ find_nodes_by_key tree "Identifier" ∧ undotted id_)
    ∧ ∀ id_, id_ ∈ find_nodes_by_key tree "Identifier" →
        (undotted id_ ∧ id_ ∈ find_nodes_by_key tree' "Identifier")
        ∨ ∃ new, refers_to [comments] id_ new
                 ∧ new ∈ find_nodes_by_key tree' "CompoundIdentifier".
Proof.
  apply (proj2 (replace_dimension_references_spec true dimension_select [comments]
                  replaced_dimension_select eq_refl eq_refl)).
  by left.
Defined.

(* ================================================================== *)
(** * Compound identifiers through the loops of [prepare_tree] *)

(** ** The dict of the aliases *)

Lemma py_eqb_hashable_sym a b :
  hashable a = true → hashable b = true → py_eqb a b = py_eqb b a.
Proof.
  destruct a as [|x|n|s| |], b as [|y|m|t| |]; try done; simpl; intros _ _.
  - by destruct x, y.
  - apply Z.eqb_sym.
  - apply String.eqb_sym.
Qed.

Lemma py_eqb_hashable_trans a b c :
  hashable a = true → hashable b = true → hashable c = true →
  py_eqb a b = true → py_eqb b c = py_eqb a c.
Proof.
  destruct a as [|x|n|s| |], b as [|y|m|t| |], c as [|z|k|u| |]; try done; simpl;
    intros _ _ _ H;
    try apply Z.eqb_eq in H; try apply String.eqb_eq in H;
    try apply Bool.eqb_prop in H; subst; try done.
  - by destruct x, z.
  - apply Z.eqb_sym.
  - by destruct y, z.
  - apply Z.eqb_sym.
Qed.

Lemma alias_set_hashable key name table_aliases :
  hashable key = true →
  Forall (λ kv, hashable kv.1 = true) table_aliases →
  Forall (λ kv, hashable kv.1 = true) (alias_set key name table_aliases).
Proof.
  intros Hkey. induction 1 as [|[k v] table_aliases Hk Hrest IH]; cbn [alias_set].
  - by constructor.
  - destruct (py_eqb k key); by constructor.
Qed.

(** Reading the dict of the aliases after a write. *)
Lemma alias_get_set_other key value name table_aliases :
  Forall (λ kv, hashable kv.1 = true) table_aliases →
  hashable key = true → hashable value = true →
  alias_get value (alias_set key name table_aliases)
  = if py_eqb key value then Some name else alias_get value table_aliases.
Proof.
  intros Hkeys Hkey Hvalue.
  induction Hkeys as [|[k v] table_aliases Hk _ IH]; cbn [alias_set alias_get].
  { destruct (py_eqb key value); done. }
  cbn [fst] in Hk. destruct (py_eqb k key) eqn:Hkk; cbn [alias_get].
  - rewrite (py_eqb_hashable_trans k key value) by done.
    by destruct (py_eqb k value).
  - rewrite IH. destruct (py_eqb k value) eqn:Hkv; [|done].
    destruct (py_eqb key value) eqn:Hkeyv; [|done].
    rewrite (py_eqb_hashable_sym key value) in Hkeyv by done.
    rewrite (py_eqb_hashable_trans k value key) in Hkeyv by done. congruence.
Qed.

Lemma unalias_table_inv table table_aliases table' table_aliases' :
  unalias_table table table_aliases = Ok (table', table_aliases') →
  (alias_value table = None ∧ table_aliases' = table_aliases)
  ∨ ∃ v name_,
      alias_value table = Some v ∧ hashable v = true
      ∧ getitem table "name" = Ok name_
      ∧ table_aliases' = alias_set v name_ table_aliases.
Proof.
  unfold unalias_table, alias_value.
  intros (alias & -> & H)%bind_Ok_inv.
  destruct (is_none alias); [left; by injection H as <- <-|].
  apply bind_Ok_inv in H as (name_ & Hname & H).
  apply bind_Ok_inv in H as (alias_name & -> & H).
  apply bind_Ok_inv in H as (v & Hv & H).
  destruct (hashable v) eqn:Hhash; [|done].
  apply bind_Ok_inv in H as (table1 & _ & [= _ <-]).
  right. exists v, name_. simpl. by rewrite Hv.
Qed.

(** The dict of the aliases after the loop over the tables of a select. *)
Lemma unalias_loop value tables :
  hashable value = true →
  ∀ table_aliases unaliased table_aliases',
    Forall (λ kv, hashable kv.1 = true) table_aliases →
    for_state unalias_table tables table_aliases = Ok (unaliased, table_aliases') →
    alias_get value table_aliases'
    = match aliased value tables with
      | Some owner =>
          match getitem owner "name" with Ok name_ => Some name_ | Raise _ => None end
      | None => alias_get value table_aliases
      end.
Proof.
  intros Hvalue. induction tables as [|table tables IH];
    intros table_aliases unaliased table_aliases' Hkeys; simpl.
  - by intros [= _ <-].
  - intros ([table1 aliases1] & Htable & H)%bind_Ok_inv.
    apply bind_Ok_inv in H as ([unaliased' aliases2] & Hloop & [= _ <-]).
    apply unalias_table_inv in Htable
      as [[Hnone ->]|(v & name_ & Hv & Hhash & Hname & ->)].
    + rewrite (IH _ _ _ Hkeys Hloop), Hnone.
      by destruct (aliased value tables).
    + rewrite (IH _ _ _ (alias_set_hashable _ _ _ Hhash Hkeys) Hloop), Hv.
      destruct (aliased value tables); [done|].
      rewrite alias_get_set_other by done.
      destruct (py_eqb v value); [by rewrite Hname | done].
Qed.

Lemma aliased_related (N : json → json → Prop) value tables tables' :
  Forall2 (λ table table', alias_value table' = alias_value table ∧ N table table')
          tables tables' →
  match aliased value tables, aliased value tables' with
  | Some owner, Some owner' => N owner owner'
  | None, None => True
  | _, _ => False
  end.
Proof.
  induction 1 as [|table table' tables tables' [Halias HN] _ IH]; simpl; [done|].
  destruct (aliased value tables), (aliased value tables'); try done.
  rewrite Halias. destruct (alias_value table) as [v|]; [|done].
  by destruct (py_eqb v value).
Qed.

Lemma qualify_table_alias engine prefix table sc table' sc' :
  qualify_table engine prefix table sc = Ok (table', sc') →
  alias_value table' = alias_value table.
Proof.
  unfold qualify_table. intros (name_ & Hname & H)%bind_Ok_inv.
  destruct name_ as [| | | |parts|]; try done.
  apply bind_Ok_inv in H as (table1 & Hset & H).
  apply bind_Ok_inv in H as (key & _ & H).
  apply bind_Ok_inv in H as (names & _ & [= <- _]).
  destruct table as [| | | | |entries]; try done.
  injection Hset as <-. unfold alias_value. cbn [getitem].
  by rewrite dict_get_set_ne.
Qed.

Lemma qualify_compound_inv prefix table_aliases parts new :
  qualify_compound prefix table_aliases (JList parts) = Ok new →
  ∃ column table rest value,
    rev parts = column :: table :: rest
    ∧ getitem table "value" = Ok value
    ∧ hashable value = true
    ∧ match alias_get value table_aliases with
      | Some name_ => ∃ chain, name_ = JList chain ∧ new = JList (chain ++ [column])
      | None => new = JList (slice_to prefix (5 - Z.of_nat (length parts)) ++ parts)
      end.
Proof.
  unfold qualify_compound. cbn [py_iter]. rewrite bind_Ok.
  destruct (rev parts) as [|column [|table rest]]; try done.
  intros (value & Hvalue & H)%bind_Ok_inv.
  destruct (hashable value) eqn:Hhash; [|done].
  exists column, table, rest, value. repeat split; try done.
  destruct (alias_get value table_aliases) as [[| | | |chain|]|]; try done.
  - injection H as <-. by exists chain.
  - by injection H as <-.
Qed.

(** ** The compound identifiers of a tree through the loops *)

(** Writing back the tables leaves the compound identifiers where they
    are, and each select with the tables written back into it. *)
Lemma Put_tables_selects (R : json → json → Prop) element news element' :
  Put "Table" element news element' →
  ∀ inside,
    well_formed inside element = true →
    Forall2 (λ old new, R old new ∧ plain new = true)
            (find_nodes_by_key element "Table") news →
    find_nodes_by_key element' "CompoundIdentifier"
    = find_nodes_by_key element "CompoundIdentifier"
    ∧ Forall2 (λ select select',
                 Forall2 R (tables_of select) (tables_of select')
                 ∧ find_nodes_by_key select' "CompoundIdentifier"
                   = find_nodes_by_key select "CompoundIdentifier")
        (find_nodes_by_key element "Select") (find_nodes_by_key element' "Select").
Proof.
  assert (is_searched "Table" = true) as Ht by done.
  induction 1 as [| | | | |c cs n1 n2 c' cs' HPc IHc HPcs IHcs|
                  |k v es new ns es' Hk HPes IHes
                  |k v es n1 n2 v' es' Hk HPv IHv HPes IHes];
    intros inside Hwf Hnews; try (split; [done | constructor]).
  - simpl in Hwf. apply andb_true_iff in Hwf as [Hwc Hwcs].
    rewrite find_cons in Hnews.
    apply Forall2_app_inv in Hnews as [H1 H2];
      [|by rewrite (Put_length _ _ _ _ HPc)].
    destruct (IHc inside Hwc H1) as [Hc Hcs].
    destruct (IHcs inside Hwcs H2) as [Hc' Hcs'].
    rewrite !find_cons. split; [by rewrite Hc, Hc' | by apply Forall2_app].
  - apply String.eqb_eq in Hk as ->.
    apply wf_dict_cons in Hwf as [(-> & _ & Hv)|(Hns & _)]; [|done].
    apply Put_empty_inv in HPes as [-> [= ->]].
    rewrite find_entry in Hnews. cbn in Hnews.
    apply Forall2_cons in Hnews as [[_ Hnew] _].
    cbn in Hv. apply andb_true_iff in Hv as [_ Hplain].
    rewrite !find_entry. simpl.
    rewrite !(plain_find v), !(plain_find new) by done.
    split; [done | constructor].
  - rewrite find_entry, Hk in Hnews.
    apply Forall2_app_inv in Hnews as [H1 H2];
      [|by rewrite (Put_length _ _ _ _ HPv)].
    apply wf_dict_cons in Hwf as [(-> & Hs & Hv)|(Hns & Hwv & Hwes & Hkeys)].
    + apply Put_empty_inv in HPes as [-> [= ->]].
      rewrite !find_entry.
      change (find_nodes_by_key (JDict []) "CompoundIdentifier") with (@nil json).
      change (find_nodes_by_key (JDict []) "Select") with (@nil json).
      rewrite !app_nil_r. unfold variant_ok in Hv.
      destruct (searched_cases k Hs) as [->|[->|[->|[->| ->]]]]; simpl in Hv |- *.
      * done.
      * destruct (IHv true Hv H1) as [Hci Hsel].
        split; [done|]. constructor; [|constructor]. split; [|done].
        unfold tables_of. rewrite (Put_find _ _ _ _ HPv).
        eapply Forall2_impl; [exact H1|]. by intros ? ? [? _].
      * destruct (Put_plain _ _ _ _ HPv Hv Ht) as [_ ->].
        split; [done|]. rewrite (plain_find v "Select") by done. constructor.
      * destruct (Put_plain _ _ _ _ HPv Hv Ht) as [_ ->].
        split; [done|]. rewrite (plain_find v "Select") by done. constructor.
      * apply andb_true_iff in Hv as [_ Hwv]. by apply (IHv inside).
    + destruct (IHv inside Hwv H1) as [Hv1 Hv2].
      destruct (IHes inside Hwes H2) as [He1 He2].
      rewrite !find_entry.
      destruct (not_searched k Hns) as (_ & -> & -> & _ & _).
      split; [by rewrite Hv1, He1 | by apply Forall2_app].
Qed.

(** Putting compound identifiers in place of the identifiers leaves the
    compound identifiers that are there. *)
Lemma Retag_keeps_compounds element news element' :
  Retag "Identifier" "CompoundIdentifier" element news element' →
  ∀ inside,
    well_formed inside element = true →
    ∀ cid, cid ∈ find_nodes_by_key element "CompoundIdentifier" →
           cid ∈ find_nodes_by_key element' "CompoundIdentifier".
Proof.
  assert (is_searched "Identifier" = true) as Ht by done.
  induction 1 as [| | | | |c cs n1 n2 c' cs' HRc IHc HRcs IHcs| |v new
                  |k v es n1 n2 v' es' Hk HRv IHv HRes IHes];
    intros inside Hwf cid; try done.
  - simpl in Hwf. apply andb_true_iff in Hwf as [Hwc Hwcs].
    rewrite !find_cons.
    intros [Hin|Hin]%elem_of_app; apply elem_of_app; [left | right]; eauto.
  - rewrite wf_single_variant in Hwf by done. cbn in Hwf.
    rewrite find_entry. simpl. rewrite (plain_find v) by done.
    by intros ?%elem_of_nil.
  - apply wf_dict_cons in Hwf as [(-> & Hs & Hv)|(Hns & Hwv & Hwes & Hkeys)].
    + apply Retag_empty_inv in HRes as [-> [= ->]].
      rewrite !find_entry.
      change (find_nodes_by_key (JDict []) "CompoundIdentifier") with (@nil json).
      rewrite !app_nil_r. unfold variant_ok in Hv.
      destruct (searched_cases k Hs) as [->|[->|[->|[->| ->]]]]; simpl in Hv |- *.
      * apply andb_true_iff in Hv as [_ Hp].
        by destruct (Retag_plain _ _ _ _ _ HRv Hp Ht) as [_ ->].
      * by apply (IHv true).
      * by destruct (Retag_plain _ _ _ _ _ HRv Hv Ht) as [_ ->].
      * done.
      * apply andb_true_iff in Hv as [_ Hwv]. by apply (IHv inside).
    + rewrite !find_entry.
      destruct (not_searched k Hns) as (_ & _ & -> & _ & _).
      intros [Hin|Hin]%elem_of_app; apply elem_of_app; [left | right]; eauto.
Qed.

(** One [Select]: each of its compound identifiers is resolved with the
    dict of the aliases that the loop over its tables has filled, and what
    it is resolved to is a compound identifier of the select as the loops
    leave it. *)
Lemma prepare_select_compounds prefix sc select select' :
  plain (JList prefix) = true → scope_plain sc →
  well_formed true select = true →
  prepare_select prefix sc select = Ok select' →
  ∃ unaliased table_aliases,
    for_state unalias_table (tables_of select) [] = Ok (unaliased, table_aliases)
    ∧ Forall (λ cid, ∃ new, qualify_compound prefix table_aliases cid = Ok new
                            ∧ new ∈ find_nodes_by_key select' "CompoundIdentifier")
             (find_nodes_by_key select "CompoundIdentifier").
Proof.
  intros Hprefix Hsc Hwf. unfold prepare_select.
  intros ([unaliased table_aliases] & Hloop & H)%bind_Ok_inv.
  exists unaliased, table_aliases. split; [done|].
  eapply (for_state_spec _ (λ table, plain table = true) aliases_plain
            (λ old new, unaliased_as old new ∧ plain new = true)) in Hloop
    as [Htables Haliases];
    [|intros ? ? ? ? ? ?; by apply unalias_table_spec
     |by eapply wf_found_plain; [left|]
     |constructor].
  pose proof (put_Put "Table" select unaliased
                (eq_sym (Forall2_length _ _ _ Htables))) as Hput1.
  set (select1 := (put_nodes_by_key select "Table" unaliased).1) in *.
  destruct (Put_related unaliased_as _ _ _ _ Hput1 eq_refl true Hwf) as [Hwf1 _].
  { by intros []. }
  { eapply Forall2_impl; [exact Htables|].
    intros old new [Hun Hp] inside'. cbn. intros [-> _]%andb_true_iff.
    split; [done | by constructor]. }
  destruct (Put_tables_selects unaliased_as _ _ _ Hput1 true Hwf Htables) as [Hcid1 _].
  rewrite find_with_parent_fst in H.
  apply bind_Ok_inv in H as (cids & Hcids & H).
  eapply (for_list_spec _ (λ cid, plain cid = true)
            (λ old new, (plain old = true ∧ plain new = true)
                        ∧ qualify_compound prefix table_aliases old = Ok new))
    in Hcids;
    [|intros cid new Hcid Hnew; split; [|done]; split; [done|];
      by eapply qualify_compound_plain
     |by eapply wf_found_plain; [right; left|]].
  pose proof (put_Put "CompoundIdentifier" select1 cids
                (eq_sym (Forall2_length _ _ _ Hcids))) as Hput2.
  set (select2 := (put_nodes_by_key select1 "CompoundIdentifier" cids).1) in *.
  destruct (Put_related eq _ _ _ _ Hput2 eq_refl true Hwf1) as [Hwf2 _].
  { done. }
  { eapply Forall2_impl; [exact Hcids|].
    intros old new [[Hold Hnew] _] inside' _. split; [done|].
    unfold tables_under. simpl. by rewrite !plain_find. }
  pose proof (Put_find _ _ _ _ Hput2) as Hcid2.
  rewrite find_with_parent_fst in H.
  apply bind_Ok_inv in H as (ids & Hids & [= <-]).
  eapply (for_list_spec _ (λ id_, plain id_ = true)
            (λ old new, plain new = true)) in Hids;
    [|intros id_ new Hid Hnew; by eapply qualify_identifier_plain
     |by eapply wf_found_plain; [right; right|]].
  destruct (retag_spec "Identifier" "CompoundIdentifier" select2 eq_refl
              ltac:(done) true ids Hwf2 (eq_sym (Forall2_length _ _ _ Hids)))
    as (select3 & Hretag & HRetag).
  specialize (Hretag []). rewrite app_nil_r in Hretag. rewrite Hretag. simpl.
  rewrite <-Hcid1.
  eapply Forall_impl; [exact (Forall2_left_exists _ _ _ Hcids)|].
  intros cid (new & Hin & _ & Hq). exists new. split; [done|].
  eapply Retag_keeps_compounds; [exact HRetag|exact Hwf2|]. by rewrite Hcid2.
Qed.

(** X18.  The compound identifiers of a tree as the parser builds it, when
    [prepare_tree] returns.  A compound identifier of a select has at least
    two parts, a table part and a column part at its end.  When the value of
    the table part is the alias of a table of the select, the select now
    holds the compound identifier made of the qualified name of that table,
    its name left-padded with the prefix, followed by the column part; the
    table is the last one of the select with that alias, in the order of the
    search, the tables of its subqueries included.  When it is no alias of
    the select, the select now holds the compound identifier itself,
    left-padded with [prefix[: 5 - len(cid)]]. *)
Theorem prepare_tree_compound_identifiers engine database catalog schema tree tree' :
  well_formed false (JList tree) = true →
  prepare_tree engine database catalog schema tree = Ok tree' →
  Forall2 (λ select select',
             ∀ parts,
               JList parts ∈ find_nodes_by_key select "CompoundIdentifier" →
               ∃ column table rest value,
                 rev parts = column :: table :: rest
                 ∧ getitem table "value" = Ok value
                 ∧ match aliased value (tables_of select) with
                   | Some owner =>
                       ∃ name_,
                         getitem owner "name" = Ok (JList name_)
                         ∧ JList ((slice_to (make_prefix database catalog schema)
                                     (4 - Z.of_nat (length name_)) ++ name_)
                                  ++ [column])
                           ∈ find_nodes_by_key select' "CompoundIdentifier"
                   | None =>
                       JList (slice_to (make_prefix database catalog schema)
                                (5 - Z.of_nat (length parts)) ++ parts)
                       ∈ find_nodes_by_key select' "CompoundIdentifier"
                   end)
    (find_nodes_by_key (JList tree) "Select")
    (find_nodes_by_key (JList tree') "Select").
Proof.
  intros Hwf. unfold prepare_tree. cbv zeta.
  set (prefix := make_prefix database catalog schema).
  assert (plain (JList prefix) = true) as Hprefix by apply plain_prefix.
  intros ([qualified sc] & Hloop & H)%bind_Ok_inv.
  eapply (for_state_spec _ (λ table, plain table = true) scope_plain
            (λ old new, (alias_value new = alias_value old ∧ renamed_as prefix old new)
                        ∧ plain new = true)) in Hloop
    as [Htables Hsc];
    [|intros table s table' s' Hplain Hs Hq;
      destruct (qualify_table_spec _ _ _ _ _ _ Hprefix Hplain Hs Hq) as [[? ?] ?];
      repeat split; try done; by eapply qualify_table_alias
     |by eapply wf_found_plain; [left|]
     |done].
  pose proof (put_Put "Table" (JList tree) qualified
                (eq_sym (Forall2_length _ _ _ Htables))) as Hput1.
  destruct (put_list_is_list "Table" tree qualified) as [tree1 Htree1].
  rewrite Htree1 in Hput1, H.
  destruct (Put_related (renamed_as prefix) _ _ _ _ Hput1 eq_refl false Hwf)
    as [Hwf1 _].
  { by intros []. }
  { eapply Forall2_impl; [exact Htables|].
    intros old new [[_ Hre] Hp] inside'. cbn. intros [-> _]%andb_true_iff.
    split; [done | by constructor]. }
  destruct (Put_tables_selects _ _ _ _ Hput1 false Hwf Htables) as [_ Hsel1].
  (* the selects *)
  apply bind_Ok_inv in H as (selects & Hselects & H).
  eapply (for_list_spec _ (λ select, well_formed true select = true)
            (λ old new,
               (well_formed true new = true
                ∧ Forall2 unaliased_as (tables_of old) (tables_of new))
               ∧ ∃ unaliased table_aliases,
                   for_state unalias_table (tables_of old) []
                   = Ok (unaliased, table_aliases)
                   ∧ Forall (λ cid, ∃ new',
                               qualify_compound prefix table_aliases cid = Ok new'
                               ∧ new' ∈ find_nodes_by_key new "CompoundIdentifier")
                            (find_nodes_by_key old "CompoundIdentifier")))
    in Hselects;
    [|intros ? ? ? ?; split;
        [by eapply prepare_select_spec | by eapply prepare_select_compounds]
     |by eapply wf_found_select].
  pose proof (put_Put "Select" (JList tree1) selects
                (eq_sym (Forall2_length _ _ _ Hselects))) as Hput2.
  destruct (put_list_is_list "Select" tree1 selects) as [tree2 Htree2].
  rewrite Htree2 in Hput2, H.
  destruct (Put_related unaliased_as _ _ _ _ Hput2 eq_refl false Hwf1)
    as [Hwf2 _].
  { intros _ [Hf|Hf]; [discriminate | by destruct Hf]. }
  { eapply Forall2_impl; [exact Hselects|].
    by intros old new [[Hw Ht] _] inside' _. }
  pose proof (Put_find _ _ _ _ Hput2) as Hfind2.
  (* the aliases of the projections *)
  rewrite find_with_parent_fst in H.
  apply bind_Ok_inv in H as (exprs & Hexprs & H).
  eapply (for_list_spec _
            (λ old, ∃ inside', variant_ok inside' "ExprWithAlias" old = true)
            (λ old new, getitem old "expr" = Ok new)) in Hexprs;
    [|by intros ? ? ? ?
     |by eapply (wf_found "ExprWithAlias")].
  destruct (retag_spec "ExprWithAlias" "UnnamedExpr" (JList tree2) eq_refl
              ltac:(done) false exprs Hwf2 (eq_sym (Forall2_length _ _ _ Hexprs)))
    as (tree3 & Hretag & HRetag).
  specialize (Hretag []). rewrite app_nil_r in Hretag. rewrite Hretag in H.
  destruct (Retag_same_columns _ _ _ HRetag false Hwf2 Hexprs) as [_ Hsel3].
  apply Retag_list in HRetag as [items3 ->]. injection H as <-.
  rewrite Hfind2 in Hsel3.
  assert (Forall2 (λ s1 s3,
                     ∃ unaliased table_aliases,
                       for_state unalias_table (tables_of s1) []
                       = Ok (unaliased, table_aliases)
                       ∧ Forall (λ cid, ∃ new',
                                   qualify_compound prefix table_aliases cid = Ok new'
                                   ∧ new' ∈ find_nodes_by_key s3 "CompoundIdentifier")
                                (find_nodes_by_key s1 "CompoundIdentifier"))
            (find_nodes_by_key (JList tree1) "Select")
            (find_nodes_by_key (JList items3) "Select")) as Hsel13.
  { eapply Forall2_trans; [|exact Hselects|exact Hsel3].
    intros s1 s2 s3 (_ & unaliased & table_aliases & Hloop & Hcids) [_ Hcid23].
    exists unaliased, table_aliases. by rewrite Hcid23. }
  eapply Forall2_trans; [|exact Hsel1|exact Hsel13].
  intros s0 s1 s3 [Htables01 Hcid01] (unaliased & table_aliases & Hloop & Hcids).
  intros parts Hin. rewrite <-Hcid01 in Hin.
  rewrite Forall_forall in Hcids. destruct (Hcids _ Hin) as (new & Hq & Hnew).
  apply qualify_compound_inv in Hq
    as (column & table & rest & value & Hrev & Hvalue & Hhash & Hq).
  exists column, table, rest, value. split; [done|]. split; [done|].
  rewrite (unalias_loop value _ Hhash [] unaliased table_aliases
             ltac:(constructor) Hloop) in Hq.
  pose proof (aliased_related (renamed_as prefix) value _ _ Htables01) as Hrel.
  destruct (aliased value (tables_of s0)) as [owner|],
           (aliased value (tables_of s1)) as [owner1|]; try done.
  - destruct Hrel as (name_ & Hname & Hname1). rewrite Hname1 in Hq.
    destruct Hq as (chain & [= <-] & ->). by exists name_.
  - cbn [alias_get] in Hq. by subst new.
Qed.

Lemma prepare_tree_compound_identifiers_witness :
  Forall2 (λ select select',
             ∀ parts,
               JList parts ∈ find_nodes_by_key select "CompoundIdentifier" →
               ∃ column table rest value,
                 rev parts = column :: table :: rest
                 ∧ getitem table "value" = Ok value
                 ∧ match aliased value (tables_of select) with
                   | Some owner =>
                       ∃ name_,
                         getitem owner "name" = Ok (JList name_)
                         ∧ JList ((slice_to (make_prefix "postgres" None (Some "main"))
                                     (4 - Z.of_nat (length name_)) ++ name_)
                                  ++ [column])
                           ∈ find_nodes_by_key select' "CompoundIdentifier"
                   | None =>
                       JList (slice_to (make_prefix "postgres" None (Some "main"))
                                (5 - Z.of_nat (length parts)) ++ parts)
                       ∈ find_nodes_by_key select' "CompoundIdentifier"
                   end)
    (find_nodes_by_key (JList [sales_query]) "Select")
    (find_nodes_by_key (JList prepared_sales) "Select").
Proof.
  exact (prepare_tree_compound_identifiers test_engine "postgres" None (Some "main")
           [sales_query] prepared_sales eq_refl eq_refl).
Defined.
